(** * bingo language server: a shallow embedding of the request handlers

    The development follows the Go sources of package [langserver]:
    - [references.go]      (find-references, [sameObj], [refStreamAndCollect]),
    - [implementation.go]  (the [implements] classification loop),
    - [symbol.go]          (query DSL, [resultSorter], workspace symbol search,
                            the symbol collector),
    - the hover file       ([prettyPrintTypesString], [findDocTarget],
                            [byDistance]),
    - the definition file  ([handleXDefinition] and its retry,
                            [handleDefinition], [handleTypeDefinition]),
    and, of package [cache], the project file ([needRebuild], [update],
    [walkDir], [findGoModFiles]).

    Go strings are byte strings; they are embedded as [string] (a list of
    8-bit characters).  Functions of Go's standard library that the handlers
    call on strings are written out for ASCII input; collaborators that live
    outside the package (type checker, package cache, URI utilities) are
    fields of the interface classes below. *)

From Stdlib Require Import ZArith Ascii String List Bool Lia.
From stdpp Require Import base gmap sets list strings sorting pretty.

Local Open Scope Z_scope.

(* ===================================================================== *)
(** * Part I: the embedding *)
(* ===================================================================== *)

(** ** Go's [strings] package on byte strings

    Go reads a string as UTF-8 where it folds case or looks for white
    space.  The functions below work byte by byte: they are the library's
    functions on strings of one-byte runes (bytes below 128), and statements
    that depend on them are made for such strings. *)

Module GoStrings.

(** [unicode.IsSpace] restricted to one-byte runes (the runes U+0085,
    U+00A0 and the wider Unicode spaces are left out). *)
Definition is_space (c : ascii) : bool :=
  match c with
  | "009"%char | "010"%char | "011"%char | "012"%char | "013"%char
  | " "%char => true
  | _ => false
  end.

Definition is_upper (c : ascii) : bool :=
  let n := nat_of_ascii c in (65 <=? n)%nat && (n <=? 90)%nat.

Definition is_ascii (c : ascii) : bool := (nat_of_ascii c <? 128)%nat.

Definition to_lower (c : ascii) : ascii :=
  if is_upper c then ascii_of_nat (nat_of_ascii c + 32) else c.

Fixpoint all_chars (P : ascii -> bool) (s : string) : bool :=
  match s with
  | EmptyString => true
  | String c r => P c && all_chars P r
  end.

(** [strings.ToLower] on a string of one-byte runes: the letters [A]-[Z]
    are lowered, every other byte is kept. *)
Fixpoint ToLower (s : string) : string :=
  match s with
  | EmptyString => EmptyString
  | String c r => String (to_lower c) (ToLower r)
  end.

(** [strings.HasPrefix s p] *)
Definition HasPrefix (s p : string) : bool := String.prefix p s.

(** [strings.TrimPrefix s p] *)
Definition TrimPrefix (s p : string) : string :=
  if HasPrefix s p
  then String.substring (String.length p) (String.length s - String.length p) s
  else s.

(** [strings.HasSuffix s p]: some tail of [s] is [p]. *)
Fixpoint HasSuffix (s p : string) : bool :=
  String.eqb s p ||
  match s with
  | EmptyString => false
  | String _ r => HasSuffix r p
  end.

(** [strings.Contains s sub] *)
Fixpoint Contains (s sub : string) : bool :=
  String.prefix sub s ||
  match s with
  | EmptyString => false
  | String _ r => Contains r sub
  end.

Fixpoint trim_left (s : string) : string :=
  match s with
  | String c r => if is_space c then trim_left r else s
  | EmptyString => EmptyString
  end.

Fixpoint trim_right (s : string) : string :=
  match s with
  | EmptyString => EmptyString
  | String c r =>
      match trim_right r with
      | EmptyString => if is_space c then EmptyString else String c EmptyString
      | r' => String c r'
      end
  end.

(** [strings.TrimSpace] on a string of one-byte runes. *)
Definition TrimSpace (s : string) : string := trim_right (trim_left s).

(** [strings.FieldsFunc]: maximal runs of bytes on which [sep] is false;
    [cur] is the run being read. *)
Fixpoint fields_from (sep : ascii -> bool) (s cur : string) : list string :=
  match s with
  | EmptyString =>
      match cur with EmptyString => [] | _ => [cur] end
  | String c r =>
      if sep c then
        match cur with
        | EmptyString => fields_from sep r EmptyString
        | _ => cur :: fields_from sep r EmptyString
        end
      else fields_from sep r (cur +:+ String c EmptyString)
  end.

Definition FieldsFunc (s : string) (sep : ascii -> bool) : list string :=
  fields_from sep s EmptyString.

(** [strings.Fields] on a string of one-byte runes. *)
Definition Fields (s : string) : list string := FieldsFunc s is_space.

(** Go's [<] on strings is the bytewise lexicographic order. *)
Definition lt (a b : string) : bool := String.ltb a b.

End GoStrings.

(** ** Go's [int] and [time] values *)

Module GoInt.

(** A Go [int] (64 bits) holds the value [wrap z] after an operation whose
    exact result is [z]. *)
Definition wrap (z : Z) : Z := (z + 2 ^ 63) mod 2 ^ 64 - 2 ^ 63.

Definition in_range (z : Z) : Prop := - 2 ^ 63 <= z < 2 ^ 63.

(** [t.Sub(u)]: the difference in nanoseconds, clamped to the range of
    [time.Duration]. *)
Definition Time_Sub (t u : Z) : Z :=
  Z.max (- 2 ^ 63) (Z.min (2 ^ 63 - 1) (t - u)).

Definition Second : Z := 1000000000.

End GoInt.

(** ** Hover: [prettyPrintTypesString] *)

Module Hover.
Import GoStrings.

(** [depth] copies of the four-space indent, appended to the buffer. *)
Definition indent (depth : Z) : string :=
  String.concat EmptyString (repeat "    " (Z.to_nat depth)).

(** The [for i := 0; i < len(s); i++] loop over the bytes that are left,
    with the buffer [b] written so far.  [None] stands for the two
    [return s] exits inside the loop. *)
Fixpoint pp_loop (rest : string) (depth : Z) (inTag : bool) (b : string)
  : option string :=
  match rest with
  | EmptyString => Some b
  | String c r =>
      if Ascii.eqb c ";" then
        if inTag then pp_loop r depth inTag (b +:+ String c EmptyString)
        else
          let b' := b +:+ String "010" EmptyString +:+ indent depth in
          (* i++ skips the byte after the semicolon *)
          match r with
          | EmptyString => Some b'
          | String _ r' => pp_loop r' depth inTag b'
          end
      else if Ascii.eqb c "034" then
        pp_loop r depth (negb inTag) (b +:+ "`")
      else if Ascii.eqb c "092" then
        let b' := b +:+ String "034" EmptyString in
        match r with
        | EmptyString => Some b'
        | String _ r' => pp_loop r' depth inTag b'
        end
      else if Ascii.eqb c "{" then
        match r with
        | EmptyString => None
        | String n r' =>
            if Ascii.eqb n "}" then pp_loop r' depth inTag (b +:+ "{}")
            else
              let depth' := depth + 1 in
              pp_loop r depth' inTag
                (b +:+ " {" +:+ String "010" EmptyString +:+ indent depth')
        end
      else if Ascii.eqb c "}" then
        let depth' := depth - 1 in
        if depth' <? 0 then None
        else pp_loop r depth' inTag (b +:+ String "010" EmptyString +:+ "}")
      else pp_loop r depth inTag (b +:+ String c EmptyString)
  end.

Definition prettyPrintTypesString (s : string) : string :=
  if HasSuffix s "{}" then EmptyString
  else match pp_loop s 0 false EmptyString with
       | Some b => b
       | None => s
       end.

(** Equality of two outputs up to one terminal newline. *)
Definition chomp (s : string) : string :=
  if HasSuffix s (String "010" EmptyString)
  then String.substring 0 (String.length s - 1) s else s.

Definition eq_mod_newline (a b : string) : Prop := chomp a = chomp b.

(** Strings the loop copies byte for byte: no [;], quote or backslash,
    and braces only as the pair [{}] followed by more text. *)
Definition is_special (c : ascii) : bool :=
  Ascii.eqb c ";" || Ascii.eqb c "034" || Ascii.eqb c "092"
  || Ascii.eqb c "{" || Ascii.eqb c "}".

Fixpoint passive (t : string) : bool :=
  match t with
  | EmptyString => true
  | String c r =>
      if Ascii.eqb c "{" then
        match r with
        | String n (String m r'' as r') =>
            Ascii.eqb n "}" && passive r'
        | _ => false
        end
      else negb (is_special c) && passive r
  end.

Definition struct_sample : string := "struct{a int; b string}".

End Hover.

(** ** The wire and workspace data model *)

(** [lsp.SymbolKind] is an [int]; the constants are those of the protocol. *)
Definition SymbolKind := Z.
Definition SKPackage : SymbolKind := 4.
Definition SKClass : SymbolKind := 5.
Definition SKMethod : SymbolKind := 6.
Definition SKField : SymbolKind := 8.
Definition SKInterface : SymbolKind := 11.
Definition SKFunction : SymbolKind := 12.
Definition SKVariable : SymbolKind := 13.
Definition SKConstant : SymbolKind := 14.

Record Position := { Line : Z; Character : Z }.
Record Range := { Start : Position; End : Position }.
Record Location := { URI : string; LocRange : Range }.

Record SymbolInformation := {
  Name : string;
  Kind : SymbolKind;
  SymLocation : Location;
  ContainerName : string
}.

Record symbolDescriptor := {
  Vendor : bool;
  Package_ : string;
  PackageName : string;
  Recv : string;
  DescName : string;
  ID : string
}.

(** A value of type [interface{}] in a symbol descriptor: a string, or a
    value of another dynamic type (a number, a boolean, nil, a list or a
    nested map), of which the handlers only see that it is no string. *)
Inductive Value :=
| VString (s : string)
| VOther (tag : nat).

(** The type assertion [v.(string)]; [None] is its panic. *)
Definition assert_string (v : Value) : option string :=
  match v with
  | VString s => Some s
  | VOther _ => None
  end.

(** [lspext.SymbolDescriptor] is a [map[string]interface{}]; a [nil] map is
    [None]. *)
Definition SymbolDescriptor := option (gmap string Value).

Record symbolPair := {
  info : SymbolInformation;
  desc : symbolDescriptor
}.

(** ** [symbol.go]: the query DSL *)

Module Symbol.
Import GoStrings.

Definition FilterType := string.
Definition FilterExported : FilterType := "exported".
Definition FilterDir : FilterType := "dir".

Record Query := {
  QKind : SymbolKind;
  Filter : FilterType;
  File : string;
  Dir : string;
  Tokens : list string;
  Symbol : SymbolDescriptor
}.

(** The zero value of [Query], as [ParseQuery] starts from. *)
Definition zeroQuery : Query :=
  {| QKind := 0; Filter := EmptyString; File := EmptyString;
     Dir := EmptyString; Tokens := []; Symbol := None |}.

Definition keyword_list : list (string * SymbolKind) :=
  [ ("package", SKPackage); ("type", SKClass); ("method", SKMethod);
    ("field", SKField); ("func", SKFunction); ("var", SKVariable);
    ("const", SKConstant) ].

Definition keywords : gmap string SymbolKind := list_to_map keyword_list.

Definition queryJoin (s e : string) : string :=
  TrimSpace (s +:+ " " +:+ e).

(** [for kwd, kind := range keywords]: [entries] are the entries of the
    map in the order [range] yields them, which Go leaves unspecified. *)
Definition String_kinds (entries : list (string * SymbolKind))
    (k : SymbolKind) (s : string) : string :=
  fold_left (fun s '(kwd, kind) => if Z.eqb kind k then queryJoin s kwd else s)
            entries s.

Definition Query_String_in (entries : list (string * SymbolKind)) (q : Query)
  : string :=
  let s := EmptyString in
  let s :=
    if String.eqb (Filter q) FilterExported then queryJoin s "is:exported"
    else if String.eqb (Filter q) FilterDir
         then queryJoin s (Filter q +:+ ":" +:+ Dir q)
         else s in
  let s := if Z.eqb (QKind q) 0 then s else String_kinds entries (QKind q) s in
  fold_left queryJoin (Tokens q) s.

Definition Query_String (q : Query) : string :=
  Query_String_in (map_to_list keywords) q.

Definition is_dot_or_slash (c : ascii) : bool :=
  Ascii.eqb c "." || Ascii.eqb c "/".

Definition setFilterDir (qu : Query) (d : string) : Query :=
  {| QKind := QKind qu; Filter := FilterDir; File := File qu; Dir := d;
     Tokens := Tokens qu; Symbol := Symbol qu |}.
Definition setFilter (qu : Query) (f : FilterType) : Query :=
  {| QKind := QKind qu; Filter := f; File := File qu; Dir := Dir qu;
     Tokens := Tokens qu; Symbol := Symbol qu |}.
Definition setKind (qu : Query) (k : SymbolKind) : Query :=
  {| QKind := k; Filter := Filter qu; File := File qu; Dir := Dir qu;
     Tokens := Tokens qu; Symbol := Symbol qu |}.
Definition addToken (qu : Query) (t : string) : Query :=
  {| QKind := QKind qu; Filter := Filter qu; File := File qu; Dir := Dir qu;
     Tokens := Tokens qu ++ [t]; Symbol := Symbol qu |}.
Definition setDir (qu : Query) (d : string) : Query :=
  {| QKind := QKind qu; Filter := Filter qu; File := File qu; Dir := d;
     Tokens := Tokens qu; Symbol := Symbol qu |}.
Definition setSymbol (qu : Query) (s : SymbolDescriptor) : Query :=
  {| QKind := QKind qu; Filter := Filter qu; File := File qu; Dir := Dir qu;
     Tokens := Tokens qu; Symbol := s |}.

(** The inner loop of [ParseQuery] over the sub-tokens of one field. *)
Definition parseToken (qu : Query) (tok : string) : Query :=
  match keywords !! tok with
  | Some kind => setKind qu kind
  | None => addToken qu tok
  end.

(** The body of the outer loop, for one space-delimited field. *)
Definition parseField (qu : Query) (field : string) : Query :=
  if HasPrefix field "dir:" then setFilterDir qu (TrimPrefix field "dir:")
  else if String.eqb field "is:exported" then setFilter qu FilterExported
  else fold_left parseToken (FieldsFunc field is_dot_or_slash) qu.

Definition ParseQuery (q : string) : Query :=
  fold_left parseField (Fields (ToLower q)) zeroQuery.

(** Agreement of two queries on the four fields the query string carries. *)
Definition same_query (a b : Query) : Prop :=
  Filter a = Filter b /\ QKind a = QKind b /\ Dir a = Dir b
  /\ Tokens a = Tokens b.

(** A byte that survives lower-casing and field splitting unchanged. *)
Definition word_char (c : ascii) : bool :=
  is_ascii c && negb (is_upper c) && negb (is_space c).

Definition token_ok (t : string) : Prop :=
  t <> EmptyString
  /\ all_chars (fun c => word_char c && negb (is_dot_or_slash c)) t = true
  /\ keywords !! t = None
  /\ t <> "is:exported"
  /\ HasPrefix t "dir:" = false.

(** Queries in the form [ParseQuery] reads back: a known filter, a
    directory only under the [dir] filter and free of spaces and capitals,
    a kind that has a keyword, and plain lower-case tokens. *)
Definition canonical (q : Query) : Prop :=
  (Filter q = EmptyString \/ Filter q = FilterExported \/ Filter q = FilterDir)
  /\ (Filter q = FilterDir -> all_chars word_char (Dir q) = true)
  /\ (Filter q <> FilterDir -> Dir q = EmptyString)
  /\ (QKind q = 0 \/ exists kwd, keywords !! kwd = Some (QKind q))
  /\ Forall token_ok (Tokens q).

Definition mixed_field_query : Query := ParseQuery "a.is:exported".
Definition capital_token_query : Query :=
  {| QKind := 0; Filter := EmptyString; File := EmptyString;
     Dir := EmptyString; Tokens := ["Foo"]; Symbol := None |}.
Definition interface_kind_query : Query :=
  {| QKind := SKInterface; Filter := EmptyString; File := EmptyString;
     Dir := EmptyString; Tokens := ["foo"]; Symbol := None |}.
Definition canonical_sample : Query :=
  {| QKind := SKFunction; Filter := FilterDir; File := EmptyString;
     Dir := "github.com/a/b"; Tokens := ["http"; "serve"]; Symbol := None |}.

(** A non-empty field of word bytes. *)
Definition wordy (w : string) : Prop :=
  w <> EmptyString /\ all_chars word_char w = true.

(** [" " ++ p1 ++ " " ++ p2 ...] *)
Fixpoint tails (ps : list string) : string :=
  match ps with
  | [] => EmptyString
  | p :: ps => String " " (p +:+ tails ps)
  end.

Definition unwords (ps : list string) : string :=
  match ps with
  | [] => EmptyString
  | p :: ps => p +:+ tails ps
  end.

(** The pieces [Query.String] emits, in order. *)
Definition filter_part (q : Query) : list string :=
  if String.eqb (Filter q) FilterExported then ["is:exported"]
  else if String.eqb (Filter q) FilterDir then ["dir:" +:+ Dir q]
  else [].

Definition kind_words (entries : list (string * SymbolKind)) (k : SymbolKind)
  : list string :=
  omap (fun '(kwd, kind) => if Z.eqb kind k then Some kwd else None) entries.

Definition kind_part entries (k : SymbolKind) : list string :=
  if Z.eqb k 0 then [] else kind_words entries k.

End Symbol.

(** ** [go/types] objects, syntax nodes and analysed packages *)

(** A [*types.Package]: pointers are compared by address, [Path] reads the
    pointee. *)
Record TypesPackage := { tp_addr : nat; tp_path : string }.

(** The types the handlers tell apart: named types, pointers to a type, and
    everything else. *)
Inductive Typ :=
| TNamed (id : nat)
| TPointer (elem : Typ)
| TOther (id : nat).

(** The dynamic type of a [types.Object] interface value. *)
Inductive ObjKind :=
| KTypeName
| KFunc (recv : option Typ)
| KVar (isField embedded : bool)
| KConst
| KPkgName (imported : TypesPackage)
| KBuiltin
| KLabel
| KNil.

Record Object := {
  obj_addr : nat;                   (* the pointer held by the interface *)
  obj_kind : ObjKind;
  obj_pkg : option TypesPackage;    (* [Pkg()]; [None] is nil *)
  obj_name : string;                (* [Name()] *)
  obj_pos : Z;                      (* [Pos()]; 0 is [token.NoPos] *)
  obj_type : option Typ             (* [Type()] *)
}.

Record Ident := { NamePos : Z; IdentName : string }.

Inductive Node :=
| NIdent (id : Ident)
| NFuncDecl (name : Ident)
| NTypeSpec (name : Ident)
| NCallExpr (fn : Node)
| NSelectorExpr (sel : Ident)
| NBasicLit
| NOtherExpr
| NOtherNode.

(** The result of [findInterestingNode]: what kind of query the selected
    syntax asks for. *)
Inductive action :=
| actionUnknown
| actionExpr
| actionType
| actionStmt
| actionPackage.

(** [types.Info]: [Defs] and [Uses] are Go maps keyed by identifier; each
    is listed in the order a [range] over it yields the entries. *)
Record TypesInfo := {
  Defs : list (Ident * option Object);
  Uses : list (Ident * Object)
}.

(** A value of the interface [source.Package]. *)
Record Package := {
  GetPkgPath : string;
  GetName : string;
  Imports : gmap string nat;          (* import path -> imported package *)
  GetTypesInfo : option TypesInfo;
  GetFilenames : list string;
  GetFileSet : nat
}.

(** Modelled from the spec: [Package.GetImport], declared outside the
    translated files; it looks the path up in the package's [imports] map and
    is nil when the path is not imported. *)
Definition GetImport (pkg : Package) (path : string) : option nat :=
  Imports pkg !! path.

(** The constant [BuiltinPkg] of the project file, the sentinel path of
    the builtin namespace. *)
Definition BuiltinPkg : string := "builtin".

Inductive error :=
| InvalidNodeError
| ContextCanceled
| ErrorString (msg : string)
| LoaderError (code : nat).

Definition is_InvalidNodeError (e : error) : bool :=
  match e with InvalidNodeError => true | _ => false end.

(** What a Go function with results [(A, error)] does: it returns both
    values, or it panics. *)
Inductive outcome (A : Type) :=
| Returned (res : A) (err : option error)
| Panicked.
Arguments Returned {A} res err.
Arguments Panicked {A}.

(** A request context: [None] is never cancelled, [Some n] is cancelled
    from the [n]-th poll on (polls are counted per walked package). *)
Definition Context := option nat.

Definition ctx_Err (ctx : Context) (i : nat) : option error :=
  match ctx with
  | Some n => if (n <=? i)%nat then Some ContextCanceled else None
  | None => None
  end.

(** The handler state the requests read: the cached packages in the order
    [project.Search] walks them, and the root import path. *)
Record LangHandler := {
  project : list Package;
  RootImportPath : string
}.

(** Collaborators outside the translated files.  Each field stands for the
    function of that name; the statements below hold for every choice of
    them. *)
Class Collaborators := {
  (* the loader and the position resolver *)
  typeCheck : string -> Position -> error + (Package * Z);
  GetPathNodes : Package -> Z -> list Node * option error;
  FindIdentObject : Package -> Ident -> option Object;
  FindObject : Package -> Object -> option Object;
  GetBuiltinPackage : option Package;
  GetObjectPathNode : Package -> Object -> list Node;
  findInterestingNode : Package -> list Node -> list Node * action;
  Deref : Typ -> Typ;
  (* positions to wire locations, [lsp.Range.String], symbol metadata
     ([refs.DefInfo] followed by [defSymbolDescriptor]) *)
  goRangeToLSPLocation : nat -> Z -> string -> Location;
  Range_String : Range -> string;
  DefSymbol : Package -> list Node -> Z -> SymbolDescriptor;
  desc_Contains : symbolDescriptor -> gmap string Value -> bool;
  (* [go/types]: [Named.Obj], [Info.TypeOf], [Info.ObjectOf], alias and
     interface tests, method sets, the two type relations, [Type.String],
     the universe's [error] type *)
  named_Obj : nat -> Object;
  TypeOfIdent : Package -> Ident -> option Typ;
  TypeOfNode : Package -> Node -> option Typ;
  ObjectOf : Package -> Ident -> option Object;
  TypeLookup : option Typ -> option Object;
  isAlias : Object -> bool;
  isInterface : Typ -> bool;
  MethodSet_Len : Typ -> nat;
  MethodSet_Lookup : Typ -> option TypesPackage -> string -> option Object;
  Identical : Typ -> Typ -> bool;
  AssignableTo : Typ -> Typ -> bool;
  Type_String : Typ -> string;
  universe_error : nat;
  (* [go/ast]: [IsExported], and the walk of [astPkgToSymbols] over the
     syntax trees of a package *)
  ast_IsExported : string -> bool;
  astPkgToSymbols : Package -> list symbolPair;
  (* URI and path utilities, [path.Base], [path.Join] *)
  util_IsURI : string -> bool;
  util_UriToPath : string -> string;
  util_PathEqual : string -> string -> bool;
  path_Base : string -> string;
  path_Join : string -> string -> string;
  (* [sort.Sort] on a slice with the given [Less] *)
  sort_Sort : forall A : Type, (A -> A -> bool) -> list A -> list A
}.

(** Modelled from the spec: [PackageCache.Walk], declared outside the
    translated files.  It calls [f] on every cached package in walk order and
    aborts with the error of the first call that fails.  [f] gets the number
    of packages walked so far (its poll index) and the state its closure
    captures; a panic inside [f] unwinds through the walk. *)
Fixpoint Search_from {St : Type} (f : nat -> Package -> St -> outcome St)
    (i : nat) (pkgs : list Package) (st : St) : outcome St :=
  match pkgs with
  | [] => Returned st None
  | pkg :: rest =>
      match f i pkg st with
      | Returned st' None => Search_from f (S i) rest st'
      | r => r
      end
  end.

(** [Project.Search]: it hands [f] to the walk of the package cache,
    together with the paths of the main modules as ranks; the ranks bear on
    the order of the walk only, which is the order of [project h]. *)
Definition Search {St : Type} (h : LangHandler)
    (f : nat -> Package -> St -> outcome St) (st : St) : outcome St :=
  Search_from f 0 (project h) st.

(** ** [references.go] *)

Module References.
Section WithCollaborators.
Context `{Collaborators}.

Record ReferenceParams := {
  RefURI : string;
  RefPosition : Position;
  IncludeDeclaration : bool;
  XLimit : Z
}.

(** [x.Exported()] of [go/types] is [ast.IsExported(x.Name())]. *)
Definition Exported (x : Object) : bool := ast_IsExported (obj_name x).

Definition kind_tag (k : ObjKind) : nat :=
  match k with
  | KTypeName => 0 | KFunc _ => 1 | KVar _ _ => 2 | KConst => 3
  | KPkgName _ => 4 | KBuiltin => 5 | KLabel => 6 | KNil => 7
  end%nat.

(** [x == y] on interface values: same dynamic type, same pointer. *)
Definition same_pointer (x y : Object) : bool :=
  Nat.eqb (kind_tag (obj_kind x)) (kind_tag (obj_kind y))
  && Nat.eqb (obj_addr x) (obj_addr y).

Definition sameObj (x y : Object) : bool :=
  if same_pointer x y then true
  else if
    match obj_pkg x, obj_pkg y with
    | Some px, Some py =>
        String.eqb (tp_path px) (tp_path py)
        && String.eqb (obj_name x) (obj_name y)
        && Exported x && Exported y
    | _, _ => false
    end then true
  else if
    match obj_pkg x, obj_pkg y with
    | None, None => String.eqb (obj_name x) (obj_name y)
    | _, _ => false
    end then true
  else
    match obj_kind x, obj_kind y with
    | KPkgName ix, KPkgName iy => Nat.eqb (tp_addr ix) (tp_addr iy)
    | _, _ => false
    end.

Definition defPkgPath (queryObj : Object) : string :=
  match obj_pkg queryObj with
  | Some p => tp_path p
  | None => BuiltinPkg
  end.

(** The [for id, obj := range ... Uses] loop. *)
Definition matching_uses (queryObj : Object) (info : TypesInfo) : list Ident :=
  omap (fun '(id, obj) => if sameObj queryObj obj then Some id else None)
       (Uses info).

(** The closure [f] of [findReferences]; its captured variable is [refs]. *)
Definition findReferences_f (ctx : Context) (queryObj : Object)
    (i : nat) (pkg : Package) (refs : list Ident)
  : outcome (list Ident) :=
  match ctx_Err ctx i with
  | Some e => Returned refs (Some e)
  | None =>
      if negb (String.eqb (defPkgPath queryObj) BuiltinPkg)
         && (match GetImport pkg (defPkgPath queryObj) with
             | None => true | Some _ => false end)
         && negb (String.eqb (GetPkgPath pkg) (defPkgPath queryObj))
      then Returned refs None
      else
        match GetTypesInfo pkg with
        | None => Returned refs None
        | Some info => Returned (refs ++ matching_uses queryObj info) None
        end
  end.

Definition findReferences (ctx : Context) (h : LangHandler)
    (queryObj : Object) : outcome (list Ident) :=
  match Search h (findReferences_f ctx queryObj) [] with
  | Returned _ (Some e) => Returned [] (Some e)
  | r => r
  end.

Definition formatLocation (loc : Location) : string :=
  URI loc +:+ ":" +:+ Range_String (LocRange loc).

(** The loop of [refStreamAndCollect] over the first [l] references, with
    the [seen] map and the result slice. *)
Fixpoint collect (fset : nat) (refs : list Ident) (seen : gmap string bool)
    (locs : list Location) : list Location :=
  match refs with
  | [] => locs
  | n :: rest =>
      let loc := goRangeToLSPLocation fset (NamePos n) (IdentName n) in
      if String.eqb (URI loc) EmptyString then collect fset rest seen locs
      else
        let locStr := formatLocation loc in
        if default false (seen !! locStr) then collect fset rest seen locs
        else collect fset rest (<[locStr := true]> seen) (locs ++ [loc])
  end.

Definition refStreamAndCollect (fset : nat) (refs : list Ident) (limit : Z)
  : list Location :=
  let limit := if Z.eqb limit 0 then Z.of_nat (length refs) else limit in
  let l := Z.of_nat (length refs) in
  let l := if limit <? l then limit else l in
  collect fset (take (Z.to_nat l) refs) ∅ [].

Definition doHandleTextDocumentReferences (ctx : Context) (h : LangHandler)
    (params : ReferenceParams) : outcome (list Location) :=
  match typeCheck (RefURI params) (RefPosition params) with
  | inl err =>
      if is_InvalidNodeError err then Returned [] None
      else Returned [] (Some err)
  | inr (pkg, pos) =>
      match GetPathNodes pkg pos with
      | (_, Some err) => Returned [] (Some err)
      | ([], None) => Panicked
      | (firstNode :: _, None) =>
          let ident :=
            match firstNode with
            | NIdent node => Some node
            | NFuncDecl name => Some name
            | _ => None
            end in
          match ident with
          | None => Returned [] (Some InvalidNodeError)
          | Some ident =>
              match FindIdentObject pkg ident with
              | None =>
                  Returned [] (Some (ErrorString "references object not found"))
              | Some obj =>
                  if match obj_pkg obj, obj_kind obj with
                     | None, KBuiltin => false
                     | None, _ => true
                     | Some _, _ => false
                     end
                  then Returned [] (Some (ErrorString "no package found for object"))
                  else
                    match findReferences ctx h obj with
                    | Panicked => Panicked
                    | Returned _ (Some err) => Returned [] (Some err)
                    | Returned refs None =>
                        let refs :=
                          if IncludeDeclaration params
                          then refs ++ [ {| NamePos := obj_pos obj;
                                            IdentName := obj_name obj |} ]
                          else refs in
                        Returned
                          (refStreamAndCollect (GetFileSet pkg) refs
                             (XLimit params))
                          None
                    end
              end
          end
      end
  end.

(** [params.Position.Character--] on a Go [int]. *)
Definition decCharacter (p : Position) : Position :=
  {| Line := Line p; Character := GoInt.wrap (Character p - 1) |}.

Definition retryParams (params : ReferenceParams) : ReferenceParams :=
  {| RefURI := RefURI params;
     RefPosition := decCharacter (RefPosition params);
     IncludeDeclaration := IncludeDeclaration params;
     XLimit := XLimit params |}.

(** [handleTextDocumentReferences]; next to the result it records, in
    call order, the parameters of every call to
    [doHandleTextDocumentReferences]. *)
Definition handleTextDocumentReferences_calls (ctx : Context)
    (h : LangHandler) (params : ReferenceParams)
  : list ReferenceParams * outcome (list Location) :=
  match doHandleTextDocumentReferences ctx h params with
  | Returned locs (Some err) =>
      let params' := retryParams params in
      ([params; params'], doHandleTextDocumentReferences ctx h params')
  | r => ([params], r)
  end.

Definition handleTextDocumentReferences (ctx : Context) (h : LangHandler)
    (params : ReferenceParams) : outcome (list Location) :=
  snd (handleTextDocumentReferences_calls ctx h params).

Definition same_exported (x y : Object) : bool :=
  match obj_pkg x, obj_pkg y with
  | Some px, Some py =>
      String.eqb (tp_path px) (tp_path py)
      && String.eqb (obj_name x) (obj_name y)
      && Exported x && Exported y
  | _, _ => false
  end.

Definition same_unowned (x y : Object) : bool :=
  match obj_pkg x, obj_pkg y with
  | None, None => String.eqb (obj_name x) (obj_name y)
  | _, _ => false
  end.

Definition same_import (x y : Object) : bool :=
  match obj_kind x, obj_kind y with
  | KPkgName ix, KPkgName iy => Nat.eqb (tp_addr ix) (tp_addr iy)
  | _, _ => false
  end.

Definition uses_of (queryObj : Object) (pkg : Package) : list Ident :=
  match GetTypesInfo pkg with
  | Some info => matching_uses queryObj info
  | None => []
  end.

(** The filter as the specification words it: a package is scanned when
    the query is builtin, or the package imports [P], or it is [P]. *)
Definition scanned (P : string) (pkg : Package) : Prop :=
  P = BuiltinPkg \/ is_Some (GetImport pkg P) \/ GetPkgPath pkg = P.

Global Instance scanned_dec P pkg : Decision (scanned P pkg).
Proof. unfold scanned. apply _. Defined.

Definition spec_scan (queryObj : Object) (pkg : Package) : list Ident :=
  if decide (scanned (defPkgPath queryObj) pkg)
  then uses_of queryObj pkg else [].

Definition location_of (fset : nat) (n : Ident) : Location :=
  goRangeToLSPLocation fset (NamePos n) (IdentName n).

(** The locations of the references in discovery order; references
    without a file are dropped. *)
Definition discovered (fset : nat) (refs : list Ident) : list Location :=
  filter (fun loc => URI loc <> EmptyString) (location_of fset <$> refs).

(** De-duplication by key that keeps the first occurrence of each key. *)
Fixpoint dedup_first (ls : list Location) : list Location :=
  match ls with
  | [] => []
  | x :: r =>
      x :: filter (fun y => formatLocation y <> formatLocation x)
             (dedup_first r)
  end.

Definition unseen (seen : gmap string bool) (loc : Location) : Prop :=
  default false (seen !! formatLocation loc) = false.

Global Instance unseen_dec seen loc : Decision (unseen seen loc).
Proof. unfold unseen. apply _. Defined.

Definition not_ident_like (n : Node) : Prop :=
  match n with NIdent _ | NFuncDecl _ => False | _ => True end.

End WithCollaborators.
End References.

(** ** The definition file: [handleXDefinition] and [handleDefinition] *)

Module XDefinition.
Section WithCollaborators.
Context `{Collaborators}.

Record TextDocumentPositionParams := {
  DocURI : string;
  DocPosition : Position
}.

Record symbolLocationInformation := {
  SLLocation : Location;
  TypeLocation : Location;
  SLSymbol : SymbolDescriptor
}.

Record foundNode := {
  fn_ident : Ident;
  fn_typ : option Object
}.

Definition zeroLocation : Location :=
  {| URI := EmptyString;
     LocRange := {| Start := {| Line := 0; Character := 0 |};
                    End := {| Line := 0; Character := 0 |} |} |}.

(** The loop over [nodes] at the end of [lookupIdentDefinition]. *)
Definition locate (pkg : Package) (pathNodes : list Node) (found : foundNode)
  : symbolLocationInformation :=
  {| SLLocation :=
       goRangeToLSPLocation (GetFileSet pkg) (NamePos (fn_ident found))
         (IdentName (fn_ident found));
     TypeLocation :=
       match fn_typ found with
       | Some typ =>
           goRangeToLSPLocation (GetFileSet pkg) (obj_pos typ) (obj_name typ)
       | None => zeroLocation
       end;
     SLSymbol := DefSymbol pkg pathNodes (NamePos (fn_ident found)) |}.

Definition lookupIdentDefinition (pkg : Package) (pathNodes : list Node)
    (ident : Ident) : outcome (list symbolLocationInformation) :=
  match FindIdentObject pkg ident with
  | None => Returned [] (Some (ErrorString "definition not found"))
  | Some obj =>
      let obj :=
        match obj_kind obj, obj_type obj with
        | KVar _ true, Some (TNamed id) => named_Obj id
        | _, _ => obj
        end in
      let pos := obj_pos obj in
      if negb (Z.eqb pos 0) then
        Returned
          [ locate pkg pathNodes
              {| fn_ident := {| NamePos := pos; IdentName := obj_name obj |};
                 fn_typ := TypeLookup (TypeOfIdent pkg ident) |} ]
          None
      else
        match GetBuiltinPackage with
        | None => Returned [] None
        | Some bpkg =>
            match FindObject bpkg obj with
            | None => Returned [] None
            | Some bobj =>
                Returned
                  [ locate bpkg (GetObjectPathNode bpkg bobj)
                      {| fn_ident := {| NamePos := obj_pos bobj;
                                        IdentName := obj_name bobj |};
                         fn_typ := TypeLookup (obj_type bobj) |} ]
                  None
            end
        end
  end.

Definition lookupCallExprDefinition (pkg : Package) (pathNodes : list Node)
    (fn : Node) : outcome (list symbolLocationInformation) :=
  match fn with
  | NIdent ident => lookupIdentDefinition pkg pathNodes ident
  | NSelectorExpr sel => lookupIdentDefinition pkg pathNodes sel
  | _ => Returned [] (Some InvalidNodeError)
  end.

Definition doHandleXDefinition (params : TextDocumentPositionParams)
  : outcome (list symbolLocationInformation) :=
  match typeCheck (DocURI params) (DocPosition params) with
  | inl err =>
      if is_InvalidNodeError err then Returned [] None
      else Returned [] (Some err)
  | inr (pkg, pos) =>
      match GetPathNodes pkg pos with
      | (_, Some err) => Returned [] (Some err)
      | ([], None) => Panicked
      | (firstNode :: rest, None) =>
          let pathNodes := firstNode :: rest in
          match firstNode with
          | NIdent node => lookupIdentDefinition pkg pathNodes node
          | NTypeSpec name => lookupIdentDefinition pkg pathNodes name
          | NCallExpr fn => lookupCallExprDefinition pkg pathNodes fn
          | NSelectorExpr sel => lookupIdentDefinition pkg pathNodes sel
          | _ => Returned [] (Some InvalidNodeError)
          end
      end
  end.

Definition retryParams (params : TextDocumentPositionParams)
  : TextDocumentPositionParams :=
  {| DocURI := DocURI params;
     DocPosition := References.decCharacter (DocPosition params) |}.

(** [handleXDefinition], with the parameters of every call to
    [doHandleXDefinition] in call order. *)
Definition handleXDefinition_calls (params : TextDocumentPositionParams)
  : list TextDocumentPositionParams
    * outcome (list symbolLocationInformation) :=
  match doHandleXDefinition params with
  | Returned symbols (Some err) =>
      let params' := retryParams params in
      ([params; params'], doHandleXDefinition params')
  | r => ([params], r)
  end.

Definition handleXDefinition (params : TextDocumentPositionParams)
  : outcome (list symbolLocationInformation) :=
  snd (handleXDefinition_calls params).

Definition handleDefinition (params : TextDocumentPositionParams)
  : outcome (list Location) :=
  match handleXDefinition params with
  | Panicked => Panicked
  | Returned _ (Some err) => Returned [] (Some err)
  | Returned res None => Returned (SLLocation <$> res) None
  end.

Definition not_definable (n : Node) : Prop :=
  match n with
  | NIdent _ | NTypeSpec _ | NCallExpr _ | NSelectorExpr _ => False
  | _ => True
  end.

End WithCollaborators.
End XDefinition.

(** ** [implementation.go] *)

Module Implementation.
Section WithCollaborators.
Context `{Collaborators}.

Record ImplementationLocation := {
  ILocation : Location;
  IType : string;
  IPtr : bool;
  IMethod : bool
}.

(** The three result slices of the classification loop. *)
Record buckets := {
  to : list Typ;
  from : list Typ;
  fromPtr : list Typ
}.

Definition no_buckets : buckets := {| to := []; from := []; fromPtr := [] |}.

(** The body of [for _, U := range allNamed]. *)
Definition classify_one (T : Typ) (b : buckets) (U : Typ) : buckets :=
  if isInterface T then
    if Nat.eqb (MethodSet_Len T) 0 then b
    else if isInterface U then
      if Nat.eqb (MethodSet_Len U) 0 then b
      else if negb (Identical T U) then
        let to' := if AssignableTo U T then to b ++ [U] else to b in
        let from' := if AssignableTo T U then from b ++ [U] else from b in
        {| to := to'; from := from'; fromPtr := fromPtr b |}
      else b
    else if AssignableTo U T then
      {| to := to b ++ [U]; from := from b; fromPtr := fromPtr b |}
    else if AssignableTo (TPointer U) T then
      {| to := to b ++ [TPointer U]; from := from b; fromPtr := fromPtr b |}
    else b
  else if isInterface U then
    if Nat.eqb (MethodSet_Len U) 0 then b
    else if AssignableTo T U then
      {| to := to b; from := from b ++ [U]; fromPtr := fromPtr b |}
    else if AssignableTo (TPointer T) U then
      {| to := to b; from := from b; fromPtr := fromPtr b ++ [U] |}
    else b
  else b.

Definition classify (T : Typ) (allNamed : list nat) : buckets :=
  fold_left (fun b id => classify_one T b (TNamed id)) allNamed no_buckets.

Definition typesByString_Less (a b : Typ) : bool :=
  GoStrings.lt (Type_String a) (Type_String b).

(** The closure [f] passed to [project.Search]: the named types among the
    definitions of one package. *)
Definition named_defs (info : TypesInfo) : list nat :=
  omap (fun '(_, o) =>
          match o with
          | Some obj =>
              match obj_kind obj, obj_type obj with
              | KTypeName, Some (TNamed id) =>
                  if isAlias obj then None else Some id
              | _, _ => None
              end
          | None => None
          end)
       (Defs info).

Definition implements_f (i : nat) (p : Package) (allNamed : list nat)
  : outcome (list nat) :=
  match GetTypesInfo p with
  | None => Panicked
  | Some info => Returned (allNamed ++ named_defs info) None
  end.

(** The identity of an object as a key of the [seen] map. *)
Definition obj_key (o : Object) : nat * nat :=
  (References.kind_tag (obj_kind o), obj_addr o).

(** The closure [toLocation]; [seen] is threaded through. *)
Definition toLocation (pkg : Package) (seen : gset (nat * nat)) (t : Typ)
    (method : option Object)
  : gset (nat * nat) * option ImplementationLocation :=
  let found :=
    match method with
    | None =>
        match Deref t with
        | TNamed id => Some (named_Obj id, seen)
        | _ => None
        end
    | Some m =>
        match MethodSet_Lookup t (obj_pkg m) (obj_name m) with
        | None => None
        | Some obj =>
            if decide (obj_key obj ∈ seen) then None
            else Some (obj, {[ obj_key obj ]} ∪ seen)
        end
    end in
  match found with
  | None => (seen, None)
  | Some (obj, seen') =>
      (seen',
       Some {| ILocation :=
                 goRangeToLSPLocation (GetFileSet pkg) (obj_pos obj)
                   (obj_name obj);
               IType := EmptyString;
               IPtr := false;
               IMethod := match method with Some _ => true | None => false end
            |})
  end.

(** One of the three loops that turn a bucket into locations. *)
Definition locations (pkg : Package) (method : option Object)
    (typ : string) (ptr : bool) (ts : list Typ)
    (st : gset (nat * nat) * list ImplementationLocation)
  : gset (nat * nat) * list ImplementationLocation :=
  fold_left
    (fun '(seen, locs) t =>
       match toLocation pkg seen t method with
       | (seen', None) => (seen', locs)
       | (seen', Some loc) =>
           (seen',
            locs ++ [ {| ILocation := ILocation loc; IType := typ;
                         IPtr := ptr; IMethod := IMethod loc |} ])
       end)
    ts st.

Definition is_expr (n : Node) : bool :=
  match n with
  | NIdent _ | NCallExpr _ | NSelectorExpr _ | NBasicLit | NOtherExpr => true
  | _ => false
  end.

(** The [switch action] at the head of [implements]: the selected type
    and, for a method, its object. *)
Definition selected (pkg : Package) (path : list Node) (act : action)
  : outcome (option Typ * option Object) :=
  match act with
  | actionExpr =>
      match path with
      | [] => Panicked
      | first :: _ =>
          let expr_type :=
            if is_expr first
            then Returned (TypeOfNode pkg first, None) None
            else Panicked in
          match first with
          | NIdent id =>
              match ObjectOf pkg id with
              | Some obj =>
                  match obj_kind obj with
                  | KFunc None =>
                      Returned (None, None)
                        (Some (ErrorString "this function is not a method"))
                  | KFunc (Some recv) => Returned (Some recv, Some obj) None
                  | _ => expr_type
                  end
              | None => expr_type
              end
          | _ => expr_type
          end
      end
  | actionType =>
      match path with
      | [] => Panicked
      | first :: _ =>
          if is_expr first then Returned (TypeOfNode pkg first, None) None
          else Panicked
      end
  | _ => Returned (None, None) None
  end.

(** [implements] from the classification loop on. *)
Definition implements_from (pkg : Package) (T : Typ) (method : option Object)
    (allNamed : list nat) : list ImplementationLocation :=
  let b := classify T allNamed in
  let to' := sort_Sort Typ typesByString_Less (to b) in
  let from' := sort_Sort Typ typesByString_Less (from b) in
  let fromPtr' := sort_Sort Typ typesByString_Less (fromPtr b) in
  let st := locations pkg method "to" false to' (∅, []) in
  let st := locations pkg method "from" false from' st in
  let st := locations pkg method "from" true fromPtr' st in
  snd st.

Definition implements (h : LangHandler) (pkg : Package) (path : list Node)
    (act : action) : outcome (list ImplementationLocation) :=
  match GetTypesInfo pkg with
  | None =>
      match act with
      | actionExpr | actionType => Panicked
      | _ => Returned [] (Some (ErrorString "not a type, method, or value"))
      end
  | Some _ =>
      match selected pkg path act with
      | Panicked => Panicked
      | Returned _ (Some err) => Returned [] (Some err)
      | Returned (None, _) None =>
          Returned [] (Some (ErrorString "not a type, method, or value"))
      | Returned (Some T, method) None =>
          match Search h implements_f [] with
          | Panicked => Panicked
          | Returned _ (Some err) => Returned [] (Some err)
          | Returned allNamed None =>
              Returned
                (implements_from pkg T method (allNamed ++ [universe_error]))
                None
          end
      end
  end.


(** What one candidate [U] adds to the [to] bucket. *)
Definition to_contrib (T U : Typ) : list Typ :=
  if isInterface T then
    if Nat.eqb (MethodSet_Len T) 0 then []
    else if isInterface U then
      if Nat.eqb (MethodSet_Len U) 0 then []
      else if negb (Identical T U) && AssignableTo U T then [U] else []
    else if AssignableTo U T then [U]
    else if AssignableTo (TPointer U) T then [TPointer U]
    else []
  else [].

End WithCollaborators.
End Implementation.

(** ** [symbol.go]: scoring, collecting and ranking *)

Module SymbolSearch.
Import GoStrings Symbol.
Section WithCollaborators.
Context `{Collaborators}.

Record scoredSymbol := {
  score_of : Z;
  pair_of : symbolPair
}.

Definition sym_Name (s : symbolPair) : string := Name (info s).
Definition sym_Container (s : symbolPair) : string := ContainerName (info s).
Definition sym_URI (s : symbolPair) : string := URI (SymLocation (info s)).

(** [resultSorter.Less] on the two entries it indexes. *)
Definition Less (a b : scoredSymbol) : bool :=
  if Z.eqb (score_of a) (score_of b) then
    if String.eqb (sym_Container (pair_of a)) (sym_Container (pair_of b)) then
      if String.eqb (sym_Name (pair_of a)) (sym_Name (pair_of b)) then
        lt (sym_URI (pair_of a)) (sym_URI (pair_of b))
      else lt (sym_Name (pair_of a)) (sym_Name (pair_of b))
    else lt (sym_Container (pair_of a)) (sym_Container (pair_of b))
  else score_of b <? score_of a.

(** The per-token part of [score]; [last] tells whether the token is the
    last one of the query. *)
Definition score_token (name container filename : string) (last : bool)
    (tok : string) (scor : Z) : Z :=
  let tok := ToLower tok in
  let long := (3 <=? String.length tok)%nat in
  let scor := if HasPrefix container tok then scor + 2 else scor in
  let scor := if HasPrefix name tok then scor + 3 else scor in
  let scor := if Contains filename tok && long then scor + 1 else scor in
  let scor :=
    if HasPrefix (path_Base filename) tok && long then scor + 2 else scor in
  let scor :=
    if String.eqb tok name then (if last then scor + 50 else scor + 5)
    else scor in
  if String.eqb tok container then scor + 3 else scor.

Fixpoint score_tokens (name container filename : string)
    (toks : list string) (scor : Z) : Z :=
  match toks with
  | [] => scor
  | tok :: rest =>
      score_tokens name container filename rest
        (score_token name container filename
           (match rest with [] => true | _ => false end) tok scor)
  end.

Definition score (q : Query) (s : symbolPair) : Z :=
  if negb (Z.eqb (QKind q) 0) && negb (Z.eqb (QKind q) (Kind (info s)))
  then 0
  else if match Symbol q with
          | Some sym => negb (desc_Contains (desc s) sym)
          | None => false
          end
  then -1
  else
    let name := ToLower (sym_Name s) in
    let container := ToLower (sym_Container s) in
    if negb (util_IsURI (sym_URI s)) then 0
    else
      let filename := util_UriToPath (sym_URI s) in
      if negb (String.eqb (File q) EmptyString)
         && negb (String.eqb filename (File q))
      then 0
      else
        match Tokens q with
        | [] => 2
        | toks =>
            let scor := score_tokens name container filename toks 0 in
            let scor :=
              if (0 <? scor)
                 && negb (HasPrefix filename "vendor/"
                          || Contains filename "/vendor/")
              then scor + 5 else scor in
            if (0 <? scor) && ast_IsExported (sym_Name s)
            then scor + 1 else scor
        end.

(** [resultSorter.Collect] *)
Definition Collect (q : Query) (results : list scoredSymbol) (si : symbolPair)
  : list scoredSymbol :=
  let sc := score q si in
  if 0 <? sc then results ++ [ {| score_of := sc; pair_of := si |} ]
  else results.

(** [resultSorter.Results] *)
Definition Results (results : list scoredSymbol) : list SymbolInformation :=
  (fun s => info (pair_of s)) <$> results.

Definition isExported (sym : symbolPair) : bool :=
  if String.eqb (sym_Container sym) EmptyString
  then ast_IsExported (sym_Name sym)
  else ast_IsExported (sym_Container sym) && ast_IsExported (sym_Name sym).

Definition collectFromPkg (q : Query) (pkg : Package)
    (results : list scoredSymbol) : list scoredSymbol :=
  fold_left
    (fun results sym =>
       if String.eqb (Filter q) FilterExported && negb (isExported sym)
       then results
       else Collect q results sym)
    (astPkgToSymbols pkg) results.

(** The closure [f] of [handleSymbol]; its captured variable is
    [results.results]. *)
Definition handleSymbol_f (ctx : Context) (query : Query) (limit : Z)
    (i : nat) (pkg : Package) (results : list scoredSymbol)
  : outcome (list scoredSymbol) :=
  match ctx_Err ctx i with
  | Some e => Returned results (Some e)
  | None =>
      if negb (String.eqb (File query) EmptyString)
         && negb (existsb (fun file => util_PathEqual file (File query))
                          (GetFilenames pkg))
      then Returned results None
      else if String.eqb (Filter query) FilterDir
              && negb (util_PathEqual (GetPkgPath pkg) (Dir query))
      then Returned results None
      else if limit <=? Z.of_nat (length results)
      then Returned results None
      else Returned (collectFromPkg query pkg results) None
  end.

Definition handleSymbol (ctx : Context) (h : LangHandler) (query : Query)
    (limit : Z) : outcome (list SymbolInformation) :=
  match Search h (handleSymbol_f ctx query limit) [] with
  | Panicked => Panicked
  | Returned _ (Some err) => Returned [] (Some err)
  | Returned results None =>
      let results := sort_Sort scoredSymbol Less results in
      let results :=
        if (limit <? Z.of_nat (length results)) && (0 <? limit)
        then take (Z.to_nat limit) results else results in
      Returned (Results results) None
  end.

Record WorkspaceSymbolParams := {
  WSQuery : string;
  WSLimit : Z;
  WSSymbol : SymbolDescriptor
}.

(** [strings.SplitN(id, sep, 2)[0]]: the text before the first [sep]. *)
Fixpoint before_sep (s sep : string) : string :=
  if String.prefix sep s then EmptyString
  else match s with
       | EmptyString => EmptyString
       | String c r => String c (before_sep r sep)
       end.

Definition effective_limit (limit : Z) : Z :=
  if Z.eqb limit 0 then 50 else limit.

(** The query [handleWorkspaceSymbol] searches with; [None] is the panic
    of the type assertion [id.(string)] on an id that is no string. *)
Definition workspace_query (h : LangHandler) (params : WorkspaceSymbolParams)
  : option Query :=
  let q := ParseQuery (WSQuery params) in
  let q := setSymbol q (WSSymbol params) in
  let q :=
    if String.eqb (Filter q) FilterDir
    then setDir q (path_Join (RootImportPath h) (Dir q)) else q in
  match Symbol q with
  | Some sym =>
      match sym !! "id" with
      | Some id =>
          match assert_string id with
          | Some id => Some (setFilter (setDir q (before_sep id "/-/"))
                               FilterDir)
          | None => None
          end
      | None => Some q
      end
  | None => Some q
  end.

Definition handleWorkspaceSymbol (ctx : Context) (h : LangHandler)
    (params : WorkspaceSymbolParams) : outcome (list SymbolInformation) :=
  match workspace_query h params with
  | Some q => handleSymbol ctx h q (effective_limit (WSLimit params))
  | None => Panicked
  end.

(** The request carries an id that is no string. *)
Definition id_not_a_string (params : WorkspaceSymbolParams) : Prop :=
  exists sym tag, WSSymbol params = Some sym /\ sym !! "id" = Some (VOther tag).

(** [sort.Interface]: [Less] must describe a transitive ordering. *)
Definition transitive_ordering {A : Type} (less : A -> A -> bool) : Prop :=
  (forall a, less a a = false)
  /\ (forall a b c, less a b = true -> less b c = true -> less a c = true)
  /\ (forall a b c, less a b = false -> less b c = false -> less a c = false).

(** The lexicographic combination of an order on the first component with
    an order on the second. *)
Definition lex {A B : Type} (eqA ltA : A -> A -> bool) (ltB : B -> B -> bool)
    (x y : A * B) : bool :=
  if eqA (fst x) (fst y) then ltB (snd x) (snd y)
  else ltA (fst x) (fst y).

Definition rank_key (s : scoredSymbol) : Z * (string * (string * string)) :=
  (score_of s,
   (sym_Container (pair_of s), (sym_Name (pair_of s), sym_URI (pair_of s)))).

Definition key_less : Z * (string * (string * string))
                      -> Z * (string * (string * string)) -> bool :=
  lex Z.eqb (fun x y => y <? x) (lex String.eqb lt (lex String.eqb lt lt)).

(** The order of the result list in the words of the specification:
    higher score first; on equal scores the smaller container name first,
    then the smaller name, then the smaller URI. *)
Definition ranked_before (a b : scoredSymbol) : Prop :=
  score_of b < score_of a
  \/ (score_of a = score_of b
      /\ (lt (sym_Container (pair_of a)) (sym_Container (pair_of b)) = true
          \/ (sym_Container (pair_of a) = sym_Container (pair_of b)
              /\ (lt (sym_Name (pair_of a)) (sym_Name (pair_of b)) = true
                  \/ (sym_Name (pair_of a) = sym_Name (pair_of b)
                      /\ (lt (sym_URI (pair_of a)) (sym_URI (pair_of b)) = true
                          \/ sym_URI (pair_of a) = sym_URI (pair_of b))))))).

(** Every collected entry carries the score of its symbol, which is
    positive; under the [exported] filter its symbol passed [isExported];
    and nothing is collected for a limit that is not positive. *)
Definition collected_ok (q : Query) (limit : Z) (results : list scoredSymbol)
  : Prop :=
  Forall (fun s => score_of s = score q (pair_of s) /\ 0 < score_of s
                   /\ (Filter q = FilterExported ->
                       isExported (pair_of s) = true)) results
  /\ (limit <= 0 -> results = []).

End WithCollaborators.

(** What [sort.Sort] guarantees: the slice is permuted, and when [Less]
    is a transitive ordering no later element is less than an earlier
    one. *)
Class SortContract `{Collaborators} : Prop := {
  sort_Sort_perm :
    forall (A : Type) (less : A -> A -> bool) (l : list A),
      sort_Sort A less l ≡ₚ l;
  sort_Sort_sorted :
    forall (A : Type) (less : A -> A -> bool) (l : list A),
      transitive_ordering less ->
      StronglySorted (fun a b => less b a = false) (sort_Sort A less l)
}.

End SymbolSearch.

(** ** A small workspace on which the statements are run

    Package [example/a] declares the exported variable [X]; [example/b]
    imports it; [example/c] does not.  Line 1 of the document is the one on
    which the loader reports an [InvalidNodeError]; on line 2 the innermost
    node is a string literal. *)

Module Sample.
Import GoStrings.

Global Instance Typ_eq_dec : EqDecision Typ.
Proof. solve_decision. Defined.

Definition typesA : TypesPackage := {| tp_addr := 1; tp_path := "example/a" |}.
Definition typesA_test : TypesPackage :=
  {| tp_addr := 2; tp_path := "example/a" |}.

Definition objX : Object :=
  {| obj_addr := 10; obj_kind := KVar false false; obj_pkg := Some typesA;
     obj_name := "X"; obj_pos := 5; obj_type := Some (TOther 0) |}.
Definition objX_test : Object :=
  {| obj_addr := 11; obj_kind := KVar false false;
     obj_pkg := Some typesA_test;
     obj_name := "X"; obj_pos := 5; obj_type := Some (TOther 0) |}.
Definition obj_len : Object :=
  {| obj_addr := 12; obj_kind := KBuiltin; obj_pkg := None;
     obj_name := "len"; obj_pos := 0; obj_type := None |}.

Definition ident (pos : Z) (name : string) : Ident :=
  {| NamePos := pos; IdentName := name |}.

Definition pkgA : Package :=
  {| GetPkgPath := "example/a"; GetName := "a"; Imports := ∅;
     GetTypesInfo :=
       Some {| Defs := [(ident 5 "X", Some objX)];
               Uses := [(ident 20 "X", objX); (ident 25 "len", obj_len)] |};
     GetFilenames := ["/src/example/a/a.go"]; GetFileSet := 0 |}.
Definition pkgB : Package :=
  {| GetPkgPath := "example/b"; GetName := "b";
     Imports := {[ "example/a" := 0%nat ]};
     GetTypesInfo :=
       Some {| Defs := [];
               Uses := [(ident 30 "X", objX_test); (ident 30 "X", objX);
                        (ident 35 "len", obj_len)] |};
     GetFilenames := ["/src/example/b/b.go"]; GetFileSet := 0 |}.
Definition pkgC : Package :=
  {| GetPkgPath := "example/c"; GetName := "c"; Imports := ∅;
     GetTypesInfo :=
       Some {| Defs := []; Uses := [(ident 40 "X", objX_test)] |};
     GetFilenames := ["/src/example/c/c.go"]; GetFileSet := 0 |}.

Definition handler : LangHandler :=
  {| project := [pkgA; pkgB; pkgC]; RootImportPath := "example" |}.

Definition location (pos : Z) (name : string) : Location :=
  {| URI := if Z.eqb pos 0 then EmptyString else "file:///src/example.go";
     LocRange :=
       {| Start := {| Line := 0; Character := pos |};
          End := {| Line := 0; Character := pos + Z.of_nat (String.length name) |}
       |} |}.

Definition symbol (name container : string) (kind : SymbolKind) (pos : Z)
  : symbolPair :=
  {| info := {| Name := name; Kind := kind;
                SymLocation := location pos name;
                ContainerName := container |};
     desc := {| Vendor := false; Package_ := "example/a"; PackageName := "a";
                Recv := container; DescName := name; ID := name |} |}.

(** Type 100 is an interface with one method, type 101 the empty
    interface; type 1 implements 100, type 2 does so through its pointer. *)
Definition collaborators : Collaborators :=
  {| typeCheck := fun uri p =>
       if Z.eqb (Line p) 1 then inl InvalidNodeError
       else inr (pkgA, Line p * 100 + Character p);
     GetPathNodes := fun pkg pos =>
       if Z.eqb (pos / 100) 2 then ([NBasicLit], None)
       else ([NIdent (ident pos "X")], None);
     FindIdentObject := fun pkg id =>
       if Z.eqb (NamePos id) 5 then Some objX else None;
     FindObject := fun pkg obj => None;
     GetBuiltinPackage := None;
     GetObjectPathNode := fun pkg obj => [];
     findInterestingNode := fun pkg path => (path, actionExpr);
     goRangeToLSPLocation := fun fset pos name => location pos name;
     Range_String := fun r =>
       pretty (Line (Start r)) +:+ ":" +:+ pretty (Character (Start r))
       +:+ "-" +:+ pretty (Line (End r)) +:+ ":" +:+ pretty (Character (End r));
     DefSymbol := fun pkg path pos => None;
     named_Obj := fun id => objX;
     TypeOfIdent := fun pkg id => None;
     TypeOfNode := fun pkg n => Some (TNamed 100);
     ObjectOf := fun pkg id => None;
     TypeLookup := fun t => None;
     isAlias := fun obj => false;
     isInterface := fun t =>
       bool_decide (t = TNamed 100) || bool_decide (t = TNamed 101);
     MethodSet_Len := fun t => if decide (t = TNamed 100) then 1%nat else 0%nat;
     MethodSet_Lookup := fun t pkg name => None;
     Identical := fun a b => bool_decide (a = b);
     AssignableTo := fun u t =>
       bool_decide (t = TNamed 100)
       && (bool_decide (u = TNamed 1) || bool_decide (u = TPointer (TNamed 1))
           || bool_decide (u = TPointer (TNamed 2)));
     Type_String := fun t => EmptyString;
     universe_error := 102%nat;
     ast_IsExported := fun s =>
       match s with String c _ => is_upper c | EmptyString => false end;
     util_IsURI := fun uri => HasPrefix uri "file://";
     util_UriToPath := fun uri => TrimPrefix uri "file://";
     util_PathEqual := String.eqb;
     path_Base := fun p => p;
     path_Join := fun a b => a +:+ "/" +:+ b;
     desc_Contains := fun d m => true;
     astPkgToSymbols := fun pkg =>
       if String.eqb (GetPkgPath pkg) "example/a"
       then [symbol "Serve" EmptyString SKFunction 7;
             symbol "helper" EmptyString SKFunction 9;
             symbol "Addr" "Server" SKField 11;
             symbol "Port" "server" SKField 13]
       else [];
     Deref := fun t => match t with TPointer e => e | _ => t end;
     sort_Sort := fun A less =>
       @merge_sort A (fun a b => less b a = false)
         (fun a b => bool_eq_dec (less b a) false)
  |}.

Definition refParams (line char : Z) : References.ReferenceParams :=
  {| References.RefURI := "file:///src/example/a/a.go";
     References.RefPosition := {| Line := line; Character := char |};
     References.IncludeDeclaration := true;
     References.XLimit := 0 |}.

Definition docParams (line char : Z)
  : XDefinition.TextDocumentPositionParams :=
  {| XDefinition.DocURI := "file:///src/example/a/a.go";
     XDefinition.DocPosition := {| Line := line; Character := char |} |}.

Definition symbolParams (query : string) (limit : Z)
  : SymbolSearch.WorkspaceSymbolParams :=
  {| SymbolSearch.WSQuery := query; SymbolSearch.WSLimit := limit;
     SymbolSearch.WSSymbol := None |}.

Definition sample_refs : list Ident :=
  [ident 20 "X"; ident 20 "X"; ident 0 "nowhere"; ident 30 "X"; ident 40 "X"].

End Sample.

(** ** [implementation.go]: the [from] and [fromPtr] results *)

Module ImplementationBuckets.
Import Implementation.
Section WithCollaborators.
Context `{Collaborators}.

(** What one candidate [U] adds to the [from] bucket. *)
Definition from_contrib (T U : Typ) : list Typ :=
  if isInterface T then
    if Nat.eqb (MethodSet_Len T) 0 then []
    else if isInterface U then
      if Nat.eqb (MethodSet_Len U) 0 then []
      else if negb (Identical T U) && AssignableTo T U then [U] else []
    else []
  else if isInterface U then
    if Nat.eqb (MethodSet_Len U) 0 then []
    else if AssignableTo T U then [U] else []
  else [].

(** What one candidate [U] adds to the [fromPtr] bucket. *)
Definition fromPtr_contrib (T U : Typ) : list Typ :=
  if isInterface T then []
  else if isInterface U then
    if Nat.eqb (MethodSet_Len U) 0 then []
    else if AssignableTo T U then []
    else if AssignableTo (TPointer T) U then [U] else []
  else [].

(** The location [toLocation] reports for an object. *)
Definition object_location (pkg : Package) (obj : Object) : Location :=
  goRangeToLSPLocation (GetFileSet pkg) (obj_pos obj) (obj_name obj).

(** The state of the three result loops: the [seen] set, the locations
    appended so far and, beside them, the objects they were made from. *)
Definition reported_once (method : Object) (pkg : Package)
    (seen : gset (nat * nat)) (locs : list ImplementationLocation)
    (objs : list Object) : Prop :=
  ILocation <$> locs = object_location pkg <$> objs
  /\ NoDup (obj_key <$> objs)
  /\ (forall o, o ∈ objs -> obj_key o ∈ seen)
  /\ Forall (fun o => exists t,
               MethodSet_Lookup t (obj_pkg method) (obj_name method) = Some o)
            objs.

End WithCollaborators.
End ImplementationBuckets.

(** ** [symbol.go]: what a collected symbol has passed *)

Module SymbolFilters.
Import GoStrings Symbol SymbolSearch.
Section WithCollaborators.
Context `{Collaborators}.

(** What a symbol has passed when [score] gives it a positive score. *)
Definition passes_query (q : Query) (s : symbolPair) : Prop :=
  (QKind q <> 0 -> Kind (info s) = QKind q)
  /\ (forall sym, Symbol q = Some sym -> desc_Contains (desc s) sym = true)
  /\ util_IsURI (sym_URI s) = true
  /\ (File q <> EmptyString -> util_UriToPath (sym_URI s) = File q).

(** The tests of the closure of [handleSymbol] on the package. *)
Definition package_searched (q : Query) (pkg : Package) : Prop :=
  (File q <> EmptyString ->
   existsb (fun file => util_PathEqual file (File q)) (GetFilenames pkg) = true)
  /\ (Filter q = FilterDir -> util_PathEqual (GetPkgPath pkg) (Dir q) = true).

(** A collected entry stems from a package of [pkgs] that was searched. *)
Definition collected_from (q : Query) (pkgs : list Package) (s : scoredSymbol)
  : Prop :=
  exists pkg, pkg ∈ pkgs /\ pair_of s ∈ astPkgToSymbols pkg
              /\ package_searched q pkg
              /\ score_of s = score q (pair_of s) /\ 0 < score_of s.

End WithCollaborators.
End SymbolFilters.

(** ** [symbol.go]: the shape of parsed queries and of query strings *)

Module QueryShape.
Import GoStrings Symbol.

(** A string of one-byte runes (bytes below 128).  On these Go's
    [strings.ToLower], [strings.Fields], [strings.FieldsFunc] and
    [strings.TrimSpace] work byte by byte, as the functions of [GoStrings]
    do on every string. *)
Definition ascii_string (s : string) : Prop := all_chars is_ascii s = true.

(** A byte of a lower-cased field: no capital, no white space. *)
Definition field_char (c : ascii) : bool :=
  negb (is_upper c) && negb (is_space c).

(** A byte of a token: a field byte that is neither [.] nor [/]. *)
Definition token_char (c : ascii) : bool :=
  field_char c && negb (is_dot_or_slash c).

Definition parsed_token (t : string) : Prop :=
  t <> EmptyString /\ all_chars token_char t = true /\ keywords !! t = None.

(** What holds of every query [ParseQuery] builds. *)
Definition parsed (q : Query) : Prop :=
  (Filter q = EmptyString \/ Filter q = FilterExported \/ Filter q = FilterDir)
  /\ (Filter q = EmptyString -> Dir q = EmptyString)
  /\ all_chars field_char (Dir q) = true
  /\ (QKind q = 0 \/ exists kwd, keywords !! kwd = Some (QKind q))
  /\ File q = EmptyString
  /\ Symbol q = None
  /\ Forall parsed_token (Tokens q).

(** The tokens one field adds to the query. *)
Definition field_tokens (field : string) : list string :=
  if HasPrefix field "dir:" then []
  else if String.eqb field "is:exported" then []
  else filter (fun t => keywords !! t = None)
         (FieldsFunc field is_dot_or_slash).

(** A query with white space inside its directory and tokens. *)
Definition spaced_query : Query :=
  {| QKind := SKFunction; Filter := FilterDir; File := EmptyString;
     Dir := "net "; Tokens := [" a "; " b "]; Symbol := None |}.

(** No white space at either end. *)
Definition trimmed (s : string) : Prop :=
  (forall c r, s = String c r -> is_space c = false)
  /\ (forall r c, s = r +:+ String c EmptyString -> is_space c = false).

End QueryShape.

(** ** Hover: the text of a struct type as [types.TypeString] prints it *)

Module HoverStruct.
Import GoStrings Hover.

(** Text without any of the bytes the printer reacts to. *)
Definition plain (s : string) : bool :=
  all_chars (fun c => negb (is_special c)) s.

(** [f1; f2; ...] *)
Fixpoint field_list (fs : list string) : string :=
  match fs with
  | [] => EmptyString
  | [f] => f
  | f :: r => f +:+ "; " +:+ field_list r
  end.

(** [head{f1; f2; ...}], as in [struct{a int; b string}]. *)
Definition flat_struct (head : string) (fs : list string) : string :=
  head +:+ "{" +:+ field_list fs +:+ "}".

(** One line per field, each indented by four spaces. *)
Fixpoint field_lines (fs : list string) : string :=
  match fs with
  | [] => EmptyString
  | f :: r => String "010" ("    " +:+ f +:+ field_lines r)
  end.

End HoverStruct.

(** ** The definition file: [handleTypeDefinition] *)

Module TypeDefinition.
Import XDefinition.
Section WithCollaborators.
Context `{Collaborators}.

(** The loop of [handleTypeDefinition]: entries without a type location
    are left out. *)
Definition typeLocations (res : list symbolLocationInformation)
  : list Location :=
  omap (fun li =>
          if String.eqb (URI (TypeLocation li)) EmptyString then None
          else Some (TypeLocation li))
       res.

Definition handleTypeDefinition (params : TextDocumentPositionParams)
  : outcome (list Location) :=
  match handleXDefinition params with
  | Panicked => Panicked
  | Returned _ (Some err) => Returned [] (Some err)
  | Returned res None => Returned (typeLocations res) None
  end.

End WithCollaborators.
End TypeDefinition.

(** ** The project file: [needRebuild] and [update] *)

Module Rebuild.
Import GoStrings GoInt.
Section WithURIs.

(** [source.ToURI] *)
Variable ToURI : string -> string.

Definition goext : string := ".go".
Definition gomod : string := "go.mod".
Definition emacsLockPrefix : string := ".#".

(** The two fields of [Project] that [needRebuild] and [update] write;
    [lastBuildTime] is an instant in nanoseconds. *)
Record Project := {
  changedCount : Z;
  lastBuildTime : Z
}.

(** [needRebuild]; [files] are the URIs the view holds a file for, [now]
    is what [time.Now] returns. *)
Definition needRebuild (p : Project) (files : gset string) (now : Z)
    (eventName : string) : Project * bool :=
  if HasSuffix eventName gomod then (p, true)
  else if HasPrefix eventName emacsLockPrefix then (p, false)
  else if negb (HasSuffix eventName goext) then (p, false)
  else if bool_decide (ToURI eventName ∈ files) then (p, false)
  else
    let p := {| changedCount := wrap (changedCount p + 1);
                lastBuildTime := lastBuildTime p |} in
    if 20 <? changedCount p then
      ({| changedCount := 0; lastBuildTime := lastBuildTime p |}, true)
    else (p, 60 * Second <=? Time_Sub now (lastBuildTime p)).

(** One file system event as [update] sees it: the name, the files of the
    view at that moment, the clock when [needRebuild] reads it and the
    clock after the caches were rebuilt. *)
Record Event := {
  ev_name : string;
  ev_files : gset string;
  ev_now : Z;
  ev_done : Z
}.

(** What [rebuildGopapthCache] followed by [rebuildModuleCache] does to
    the two fields. *)
Variable rebuildCaches : Project -> string -> Project.

(** [update]; the result tells whether the caches were rebuilt. *)
Definition update (p : Project) (ev : Event) : Project * bool :=
  let '(p, need) := needRebuild p (ev_files ev) (ev_now ev) (ev_name ev) in
  if need
  then
    let p := rebuildCaches p (ev_name ev) in
    ({| changedCount := changedCount p; lastBuildTime := ev_done ev |}, true)
  else (p, false).

(** A sequence of events, with the answer to each. *)
Fixpoint updates (p : Project) (evs : list Event) : Project * list bool :=
  match evs with
  | [] => (p, [])
  | ev :: rest =>
      let '(p, r) := update p ev in
      let '(p, rs) := updates p rest in
      (p, r :: rs)
  end.

(** An event that reaches the counter: a [.go] file that is no lock file
    and that the view holds no file for. *)
Definition counted (ev : Event) : Prop :=
  HasSuffix (ev_name ev) gomod = false
  /\ HasPrefix (ev_name ev) emacsLockPrefix = false
  /\ HasSuffix (ev_name ev) goext = true
  /\ ToURI (ev_name ev) ∉ ev_files ev.

(** The cache rebuilds leave the change counter alone. *)
Definition keeps_count : Prop :=
  forall p name, changedCount (rebuildCaches p name) = changedCount p.

End WithURIs.
End Rebuild.

(** ** [symbol.go]: the symbol collector *)

Module Collector.
Import GoStrings.

(** The expressions a receiver type is made of; [ENil] is the nil
    interface value. *)
Inductive Expr :=
| EIdent (name : string)
| EStarExpr (x : Expr)
| EOther
| ENil.

Fixpoint recvString (recv : Expr) : string :=
  match recv with
  | EIdent name => name
  | EStarExpr x => "*" +:+ recvString x
  | _ => "BADRECV"
  end.

(** An [ast.Spec]; of an import only the position [declNamePos] returns
    for it is kept. *)
Inductive Spec :=
| ValueSpec (names : list Ident)
| ImportSpec (pos : Z)
| TypeSpecOf (name : Ident).

(** The keyword of a [GenDecl]. *)
Inductive Token := CONST | VAR | IMPORT | TYPE.

(** The type of a [TypeSpec]; a field list is kept as the [Names] of its
    fields. *)
Inductive TypeExpr :=
| StructType (fields : list (list Ident))
| InterfaceType (methods : list (list Ident))
| OtherType.

(** The nodes [Visit] tells apart.  [Recv] of a function declaration is
    nil ([None]) or the types of the fields of the receiver list. *)
Inductive AstNode :=
| ATypeSpec (name : Ident) (typ : TypeExpr)
| AGenDecl (tok : Token) (tokPos : Z) (specs : list Spec)
| AFuncDecl (recv : option (list Expr)) (name : Ident)
| AOtherNode.

(** [specNames]; the type assertion panics ([None]) on a spec that is no
    [ValueSpec]. *)
Fixpoint specNames (specs : list Spec) : option (list string) :=
  match specs with
  | [] => Some []
  | ValueSpec names :: rest =>
      match specNames rest with
      | Some more => Some ((IdentName <$> names) ++ more)
      | None => None
      end
  | _ :: _ => None
  end.

Fixpoint declNamePos_names (names : list Ident) (name : string) : option Z :=
  match names with
  | [] => None
  | specName :: rest =>
      if String.eqb (IdentName specName) name then Some (NamePos specName)
      else declNamePos_names rest name
  end.

Fixpoint declNamePos (specs : list Spec) (tokPos : Z) (name : string) : Z :=
  match specs with
  | [] => tokPos
  | ImportSpec pos :: _ => pos
  | TypeSpecOf n :: _ => NamePos n
  | ValueSpec names :: rest =>
      match declNamePos_names names name with
      | Some pos => pos
      | None => declNamePos rest tokPos name
      end
  end.

(** The identifiers a declaration declares, in source order. *)
Definition spec_idents (specs : list Spec) : list Ident :=
  flat_map (fun s => match s with ValueSpec names => names | _ => [] end)
           specs.

Section WithCollaborators.
Context `{Collaborators}.

(** [path.Clean] *)
Variable path_Clean : string -> string.

Definition toSym (name : string) (pkg : Package) (container recv : string)
    (kind : SymbolKind) (fs : nat) (pos : Z) : symbolPair :=
  let id :=
    if String.eqb container EmptyString
    then path_Clean (GetPkgPath pkg) +:+ "/-/" +:+ name
    else path_Clean (GetPkgPath pkg) +:+ "/-/" +:+ container +:+ "/" +:+ name
  in
  {| info := {| Name := name; Kind := kind;
                SymLocation := goRangeToLSPLocation fs pos name;
                ContainerName := container |};
     desc := {| Vendor := false;
                Package_ := path_Clean (GetPkgPath pkg);
                PackageName := GetName pkg;
                Recv := recv;
                DescName := name;
                ID := id |} |}.

(** The collector: its package and the symbols appended so far (its file
    set is the one of the package). *)
Record SymbolCollector := {
  pkgSyms : list symbolPair;
  pkg : Package
}.

(** [addSymbol] hands its [recv] to [toSym] as the container and its
    [container] as the receiver. *)
Definition addSymbol (c : SymbolCollector) (name recv container : string)
    (kind : SymbolKind) (pos : Z) : SymbolCollector :=
  {| pkgSyms :=
       pkgSyms c ++ [toSym name (pkg c) recv container kind
                       (GetFileSet (pkg c)) pos];
     pkg := pkg c |}.

Definition addFuncDecl (c : SymbolCollector) (recv : option (list Expr))
    (name : Ident) : SymbolCollector :=
  match recv with
  | Some list =>
      let typ := match list with [t] => t | _ => ENil end in
      let recvTypeName := recvString typ in
      addSymbol c (IdentName name) recvTypeName recvTypeName SKMethod
        (NamePos name)
  | None =>
      addSymbol c (IdentName name) EmptyString EmptyString SKFunction
        (NamePos name)
  end.

Definition addContainer (c : SymbolCollector) (containerName : string)
    (fields : list (list Ident)) (containerKind : SymbolKind)
    (containerPos : Z) : SymbolCollector :=
  let c :=
    fold_left
      (fun c names =>
         fold_left
           (fun c fieldName =>
              addSymbol c (IdentName fieldName) containerName EmptyString
                SKField (NamePos fieldName))
           names c)
      fields c in
  addSymbol c containerName EmptyString EmptyString containerKind containerPos.

(** [Visit]; [None] is a panic. *)
Definition Visit (c : SymbolCollector) (n : AstNode) : option SymbolCollector :=
  match n with
  | ATypeSpec name typ =>
      if negb (String.eqb (IdentName name) "_") then
        match typ with
        | StructType fields =>
            Some (addContainer c (IdentName name) fields SKClass (NamePos name))
        | InterfaceType methods =>
            Some (addContainer c (IdentName name) methods SKInterface
                    (NamePos name))
        | OtherType =>
            Some (addSymbol c (IdentName name) EmptyString EmptyString SKClass
                    (NamePos name))
        end
      else Some c
  | AGenDecl CONST tokPos specs =>
      match specNames specs with
      | None => None
      | Some names =>
          Some (fold_left
                  (fun c name =>
                     addSymbol c name EmptyString EmptyString SKConstant
                       (declNamePos specs tokPos name))
                  names c)
      end
  | AGenDecl VAR tokPos specs =>
      match specNames specs with
      | None => None
      | Some names =>
          Some (fold_left
                  (fun c name =>
                     if negb (String.eqb name "_")
                     then addSymbol c name EmptyString EmptyString SKVariable
                            (declNamePos specs tokPos name)
                     else c)
                  names c)
      end
  | AGenDecl _ _ _ => Some c
  | AFuncDecl recv name => Some (addFuncDecl c recv name)
  | AOtherNode => Some c
  end.

(** [ast.Walk] with a visitor that always returns itself calls [Visit] on
    every node of the tree, parents before children; [nodes] lists them in
    that order. *)
Fixpoint walk (c : SymbolCollector) (nodes : list AstNode)
  : option SymbolCollector :=
  match nodes with
  | [] => Some c
  | n :: rest =>
      match Visit c n with
      | Some c => walk c rest
      | None => None
      end
  end.

(** [astFileToSymbols], on the nodes of the file. *)
Definition astFileToSymbols (p : Package) (astFile : list AstNode)
  : option (list symbolPair) :=
  pkgSyms <$> walk {| pkgSyms := []; pkg := p |} astFile.

(** [astPkgToSymbols], on the nodes of each file of [GetSyntax]. *)
Definition astPkgToSymbols_walk (p : Package) (syntax : list (list AstNode))
  : option (list symbolPair) :=
  pkgSyms <$>
    fold_left
      (fun c src => match c with Some c => walk c src | None => None end)
      syntax (Some {| pkgSyms := []; pkg := p |}).

(** What every collected symbol looks like. *)
Definition collected (p : Package) (s : symbolPair) : Prop :=
  (exists pos,
      SymLocation (info s)
      = goRangeToLSPLocation (GetFileSet p) pos (Name (info s)))
  /\ Vendor (desc s) = false
  /\ Package_ (desc s) = path_Clean (GetPkgPath p)
  /\ PackageName (desc s) = GetName p
  /\ DescName (desc s) = Name (info s)
  /\ ID (desc s)
     = (if String.eqb (ContainerName (info s)) EmptyString
        then Package_ (desc s) +:+ "/-/" +:+ Name (info s)
        else Package_ (desc s) +:+ "/-/" +:+ ContainerName (info s)
             +:+ "/" +:+ Name (info s))
  /\ ((Kind (info s) = SKField /\ Recv (desc s) = EmptyString)
      \/ (Kind (info s) = SKMethod
          /\ Recv (desc s) = ContainerName (info s))
      \/ ((Kind (info s) = SKFunction \/ Kind (info s) = SKConstant)
          /\ ContainerName (info s) = EmptyString
          /\ Recv (desc s) = EmptyString)
      \/ ((Kind (info s) = SKClass \/ Kind (info s) = SKInterface
           \/ Kind (info s) = SKVariable)
          /\ ContainerName (info s) = EmptyString
          /\ Recv (desc s) = EmptyString
          /\ Name (info s) <> "_")).

(** The state of the collector during a walk over package [p]. *)
Definition all_collected (p : Package) (c : SymbolCollector) : Prop :=
  pkg c = p /\ Forall (collected p) (pkgSyms c).

End WithCollaborators.
End Collector.

(** ** The project file: [walkDir] and [findGoModFiles] *)

Module ProjectWalk.
Import GoStrings GoInt.
Section WithFiles.

(** [ioutil.ReadDir]: the entries of a directory in the order it returns
    them, each with its name and whether it is a directory; [None] is an
    error. *)
Variable ReadDir : string -> option (list (string * bool)).

(** [filepath.Join] of a directory and a name. *)
Variable filepath_Join : string -> string -> string.

Definition gomod : string := "go.mod".
Definition vendor : string := "vendor".

Definition defaultExcludeDir : list string :=
  [".git"; ".svn"; ".hg"; ".vscode"; ".idea"; vendor].

Definition isExclude (dir : string) : bool :=
  existsb (fun d => String.eqb d dir) defaultExcludeDir.

Section Walk.
Context {A : Type}.

(** The effect of [walkFunc] on what its closure captures. *)
Variable walkFunc : A -> string -> string -> A.

(** [walkDir]; [n] bounds the depth of the calls, and [None] says that
    the bound was too small.  The inner loop is the [for] over the
    entries, with [level] as the loop leaves it from entry to entry. *)
Fixpoint walkDir (n : nat) (rootDir : string) (level : Z) (acc : A)
  : option (A * option error) :=
  match n with
  | O => None
  | S n =>
      if 8 <? level then Some (acc, None)
      else
        match ReadDir rootDir with
        | None => Some (acc, None)
        | Some files =>
            (fix loop (files : list (string * bool)) (level : Z) (acc : A)
               : option (A * option error) :=
               match files with
               | [] => Some (acc, None)
               | (name, isDir) :: rest =>
                   if isExclude name then loop rest level acc
                   else if isDir then
                     let level := wrap (level + 1) in
                     match walkDir n (filepath_Join rootDir name) level acc with
                     | None => None
                     | Some (acc, Some err) => Some (acc, Some err)
                     | Some (acc, None) => loop rest (wrap (level - 1)) acc
                     end
                   else loop rest level (walkFunc acc rootDir name)
               end) files level acc
        end
  end.

End Walk.

(** The closure of [findGoModFiles]; it captures [gomodList]. *)
Definition collectGoMod (gomodList : list string) (path name : string)
  : list string :=
  if String.eqb name gomod then gomodList ++ [filepath_Join path name]
  else gomodList.

(** [findGoModFiles] for the root directory of the project; the error of
    [walkDir] is only logged. *)
Definition findGoModFiles (rootDir : string) : option (list string) :=
  fst <$> walkDir collectGoMod 10 rootDir 0 [].

(** The [go.mod] files below [dir] in at most [depth] levels of
    directories that can be read and are not excluded. *)
Fixpoint gomod_files (depth : nat) (dir : string) : list string :=
  match depth with
  | O => []
  | S depth =>
      match ReadDir dir with
      | None => []
      | Some files =>
          flat_map
            (fun entry : string * bool =>
               let '(name, isDir) := entry in
               if isExclude name then []
               else if isDir then gomod_files depth (filepath_Join dir name)
               else if String.eqb name gomod then [filepath_Join dir name]
               else [])
            files
      end
  end.

(** [reaches root dir k]: [dir] lies [k] levels below [root], and every
    directory on the way can be read and is not excluded. *)
Inductive reaches : string -> string -> nat -> Prop :=
| reaches_here dir : reaches dir dir 0
| reaches_down root files name dir k :
    ReadDir root = Some files ->
    (name, true) ∈ files ->
    isExclude name = false ->
    reaches (filepath_Join root name) dir k ->
    reaches root dir (S k).

End WithFiles.
End ProjectWalk.

(** ** The hover file: [findDocTarget], [inRange], [byDistance] *)

Module DocTarget.
Import GoInt.

(** A [token.Position], as far as the code reads it. *)
Record TokenPosition := {
  Filename : string;
  Offset : Z
}.

(** The declaration of a documented item: [Decl.Pos()] and [Decl.End()]. *)
Record Decl := {
  DeclPos : Z;
  DeclEnd : Z
}.

Record DocValue := { ValueDecl : Decl }.
Record DocFunc := { FuncDecl : Decl }.

Record DocType := {
  TypeDecl : Decl;
  TypeConsts : list DocValue;
  TypeVars : list DocValue;
  TypeFuncs : list DocFunc;
  TypeMethods : list DocFunc
}.

Record DocPackage := {
  PkgConsts : list DocValue;
  PkgTypes : list DocType;
  PkgVars : list DocValue;
  PkgFuncs : list DocFunc
}.

(** The dynamic type of the argument [in] of [findDocTarget]. *)
Inductive DocInput :=
| InPackage (v : DocPackage)
| InValue (v : DocValue)
| InType (v : DocType)
| InFunc (v : DocFunc)
| InOther.

(** What [findDocTarget] returns when it is not nil. *)
Inductive DocItem :=
| ItemValue (v : DocValue)
| ItemType (v : DocType)
| ItemFunc (v : DocFunc).

Definition item_Decl (x : DocItem) : Decl :=
  match x with
  | ItemValue v => ValueDecl v
  | ItemType v => TypeDecl v
  | ItemFunc v => FuncDecl v
  end.

(** [abs] on a Go [int]. *)
Definition abs (x : Z) : Z := if x <? 0 then wrap (- x) else x.

Section WithCollaborators.
Context `{Collaborators}.

(** [fset.Position] *)
Variable Position_of : Z -> TokenPosition.

Definition inRange (x a b : TokenPosition) : bool :=
  if negb (util_PathEqual (Filename x) (Filename a))
     || negb (util_PathEqual (Filename x) (Filename b))
  then false
  else (Offset a <=? Offset x) && (Offset x <=? Offset b).

Definition decl_inRange (target : TokenPosition) (d : Decl) : bool :=
  inRange target (Position_of (DeclPos d)) (Position_of (DeclEnd d)).

(** A [for] loop that returns the first result that is not nil. *)
Fixpoint first_found {X : Type} (find : X -> option DocItem) (xs : list X)
  : option DocItem :=
  match xs with
  | [] => None
  | x :: rest =>
      match find x with
      | Some r => Some r
      | None => first_found find rest
      end
  end.

(** The cases of [findDocTarget], one for each type of its argument; the
    recursive calls enter the case of the value they pass. *)
Definition findValue (target : TokenPosition) (v : DocValue)
  : option DocItem :=
  if decl_inRange target (ValueDecl v) then Some (ItemValue v) else None.

Definition findFunc (target : TokenPosition) (v : DocFunc) : option DocItem :=
  if decl_inRange target (FuncDecl v) then Some (ItemFunc v) else None.

Definition findType (target : TokenPosition) (v : DocType) : option DocItem :=
  if decl_inRange target (TypeDecl v) then Some (ItemType v)
  else
    match first_found (findValue target) (TypeConsts v) with
    | Some r => Some r
    | None =>
        match first_found (findValue target) (TypeVars v) with
        | Some r => Some r
        | None =>
            match first_found (findFunc target) (TypeFuncs v) with
            | Some r => Some r
            | None => first_found (findFunc target) (TypeMethods v)
            end
        end
    end.

Definition findPackage (target : TokenPosition) (v : DocPackage)
  : option DocItem :=
  match first_found (findValue target) (PkgConsts v) with
  | Some r => Some r
  | None =>
      match first_found (findType target) (PkgTypes v) with
      | Some r => Some r
      | None =>
          match first_found (findValue target) (PkgVars v) with
          | Some r => Some r
          | None => first_found (findFunc target) (PkgFuncs v)
          end
      end
  end.

(** [findDocTarget]: [None] is the panic of the [default] case, [Some
    None] the result nil. *)
Definition findDocTarget (target : TokenPosition) (input : DocInput)
  : option (option DocItem) :=
  match input with
  | InPackage v => Some (findPackage target v)
  | InValue v => Some (findValue target v)
  | InType v => Some (findType target v)
  | InFunc v => Some (findFunc target v)
  | InOther => None
  end.

(** The items of a type and of a package, at every level. *)
Definition type_items (v : DocType) : list DocItem :=
  ItemType v :: (ItemValue <$> TypeConsts v) ++ (ItemValue <$> TypeVars v)
  ++ (ItemFunc <$> TypeFuncs v) ++ (ItemFunc <$> TypeMethods v).

Definition package_items (v : DocPackage) : list DocItem :=
  (ItemValue <$> PkgConsts v) ++ flat_map type_items (PkgTypes v)
  ++ (ItemValue <$> PkgVars v) ++ (ItemFunc <$> PkgFuncs v).

(** A lookup that answers with an item of [items x] that encloses the
    target, and with nil only when no item of [items x] does. *)
Definition finds (target : TokenPosition) {X : Type}
    (find : X -> option DocItem) (items : X -> list DocItem) : Prop :=
  forall x,
    match find x with
    | Some r =>
        r ∈ items x /\ decl_inRange target (item_Decl r) = true
    | None =>
        forall y, y ∈ items x -> decl_inRange target (item_Decl y) = false
    end.

(** [byDistance.Less] on two specs, each given by its position. *)
Definition byDistance_Less (target : TokenPosition) (specPos1 specPos2 : Z)
  : bool :=
  let i := Position_of specPos1 in
  let j := Position_of specPos2 in
  abs (wrap (Offset target - Offset i)) <? abs (wrap (Offset target - Offset j)).

(** The first two statements of the [doc.Value] case of [fmtDocObject]:
    the specs are sorted by distance and the first one is taken; indexing
    an empty slice panics ([None]). *)
Definition nearest_spec (target : TokenPosition) (specs : list Z)
  : option Z :=
  head (sort_Sort Z (byDistance_Less target) specs).

End WithCollaborators.
End DocTarget.

(** ** The project file: [setCache] *)

Module SetCache.

(** A [*packages.Package] as [setOnePackage] reads it: its [ID], the
    length of [Syntax], and the values of the map [Imports] in the order
    [range] yields them.  A pointer is an address of the heap, or nil. *)
Record PackageNode := {
  pn_ID : string;
  pn_Syntax : nat;
  pn_Imports : list (option nat)
}.

Definition Heap := gmap nat PackageNode.

(** The [seen] map and, in order, the packages handed to the cache's
    [put]. *)
Definition State : Type := gset string * list nat.

(** A [for] loop that calls [f] on each package in turn; [None] is passed
    on. *)
Definition each (f : option nat -> State -> option State)
    (pkgs : list (option nat)) (st : option State) : option State :=
  fold_left
    (fun st pkg => match st with Some st => f pkg st | None => None end)
    pkgs st.

(** [setOnePackage]; [n] bounds the depth of the calls, and [None] says
    that the bound was too small.  An address outside the heap is treated
    like nil. *)
Fixpoint setOnePackage (n : nat) (heap : Heap) (pkg : option nat) (st : State)
  : option State :=
  match n with
  | O => None
  | S n =>
      match pkg with
      | None => Some st
      | Some a =>
          match heap !! a with
          | None => Some st
          | Some node =>
              if Nat.eqb (pn_Syntax node) 0 then Some st
              else if bool_decide (pn_ID node ∈ fst st) then Some st
              else
                each (setOnePackage n heap) (pn_Imports node)
                  (Some ({[ pn_ID node ]} ∪ fst st, snd st ++ [a]))
          end
      end
  end.

Definition setCache (n : nat) (heap : Heap) (pkgs : list (option nat))
  : option State :=
  each (setOnePackage n heap) pkgs (Some (∅, [])).

(** The IDs that occur in the heap. *)
Definition ids (heap : Heap) : gset string :=
  list_to_set ((fun kv => pn_ID kv.2) <$> map_to_list heap).

Definition id_of (heap : Heap) (a : nat) : string :=
  match heap !! a with
  | Some node => pn_ID node
  | None => EmptyString
  end.

(** [reach heap roots a]: the package at [a] is one of [roots] or is
    imported by a reached package that has syntax. *)
Inductive reach (heap : Heap) (roots : list (option nat)) : nat -> Prop :=
| reach_root a : Some a ∈ roots -> reach heap roots a
| reach_import a node b :
    reach heap roots a ->
    heap !! a = Some node ->
    pn_Syntax node <> 0%nat ->
    Some b ∈ pn_Imports node ->
    reach heap roots b.

(** What holds of the state all along: [seen] holds the IDs of the
    packages put, no ID was put twice, and every package put has syntax and
    was reached. *)
Definition cached_ok (heap : Heap) (roots : list (option nat)) (st : State)
  : Prop :=
  fst st = list_to_set (id_of heap <$> snd st)
  /\ NoDup (id_of heap <$> snd st)
  /\ Forall (fun a => exists node,
               heap !! a = Some node /\ pn_Syntax node <> 0%nat
               /\ reach heap roots a) (snd st).

End SetCache.

(** ** [symbol.go]: when a token of the query matches a symbol *)

Module TokenMatch.
Import GoStrings Symbol SymbolSearch.
Section WithCollaborators.
Context `{Collaborators}.

(** The tests of [score] that add to the score of a symbol for one token
    of the query. *)
Definition token_matches (s : symbolPair) (tok : string) : bool :=
  let tok := ToLower tok in
  let name := ToLower (sym_Name s) in
  let container := ToLower (sym_Container s) in
  let filename := util_UriToPath (sym_URI s) in
  let long := (3 <=? String.length tok)%nat in
  HasPrefix container tok
  || HasPrefix name tok
  || (Contains filename tok && long)
  || (HasPrefix (path_Base filename) tok && long)
  || String.eqb tok name
  || String.eqb tok container.

End WithCollaborators.
End TokenMatch.

(** ** More of the sample workspace

    A third variable [X] of the test variant of [example/a]; the syntax of
    [example/a] as the collector walks it; file system events; a documented
    package. *)

Module MoreSamples.
Import GoStrings Sample.

Definition objX_third : Object :=
  {| obj_addr := 13; obj_kind := KVar false false;
     obj_pkg := Some typesA_test;
     obj_name := "X"; obj_pos := 5; obj_type := Some (TOther 0) |}.

Definition scored (score : Z) (kind : SymbolKind) : SymbolSearch.scoredSymbol :=
  {| SymbolSearch.score_of := score;
     SymbolSearch.pair_of := symbol "Serve" EmptyString kind 7 |}.

(** [func (s *Server) Serve()], [type Server struct { Addr string }],
    [var _, debug = ...], [const _ = ...] *)
Definition sample_syntax : list (list Collector.AstNode) :=
  [ [ Collector.AFuncDecl
        (Some [Collector.EStarExpr (Collector.EIdent "Server")])
        (ident 50 "Serve");
      Collector.AOtherNode;
      Collector.ATypeSpec (ident 60 "Server")
        (Collector.StructType [[ident 61 "Addr"]]);
      Collector.AGenDecl Collector.VAR 70
        [Collector.ValueSpec [ident 71 "_"; ident 72 "debug"]];
      Collector.AGenDecl Collector.CONST 80
        [Collector.ValueSpec [ident 81 "_"]] ] ].

Definition path_Clean (p : string) : string := p.

Definition sample_syms : list symbolPair :=
  default []
    (@Collector.astPkgToSymbols_walk collaborators path_Clean pkgA
       sample_syntax).

(** The collaborators of [Sample], with the symbols of [example/a] taken
    from the collector. *)
Definition collaborators_walk : Collaborators :=
  {| typeCheck := @typeCheck collaborators;
     GetPathNodes := @GetPathNodes collaborators;
     FindIdentObject := @FindIdentObject collaborators;
     FindObject := @FindObject collaborators;
     GetBuiltinPackage := @GetBuiltinPackage collaborators;
     GetObjectPathNode := @GetObjectPathNode collaborators;
     findInterestingNode := @findInterestingNode collaborators;
     Deref := @Deref collaborators;
     goRangeToLSPLocation := @goRangeToLSPLocation collaborators;
     Range_String := @Range_String collaborators;
     DefSymbol := @DefSymbol collaborators;
     desc_Contains := @desc_Contains collaborators;
     named_Obj := @named_Obj collaborators;
     TypeOfIdent := @TypeOfIdent collaborators;
     TypeOfNode := @TypeOfNode collaborators;
     ObjectOf := @ObjectOf collaborators;
     TypeLookup := @TypeLookup collaborators;
     isAlias := @isAlias collaborators;
     isInterface := @isInterface collaborators;
     MethodSet_Len := @MethodSet_Len collaborators;
     MethodSet_Lookup := @MethodSet_Lookup collaborators;
     Identical := @Identical collaborators;
     AssignableTo := @AssignableTo collaborators;
     Type_String := @Type_String collaborators;
     universe_error := @universe_error collaborators;
     ast_IsExported := @ast_IsExported collaborators;
     astPkgToSymbols := fun pkg =>
       if String.eqb (GetPkgPath pkg) "example/a" then sample_syms else [];
     util_IsURI := @util_IsURI collaborators;
     util_UriToPath := @util_UriToPath collaborators;
     util_PathEqual := @util_PathEqual collaborators;
     path_Base := @path_Base collaborators;
     path_Join := @path_Join collaborators;
     sort_Sort := @sort_Sort collaborators |}.

Definition serve_method : symbolPair :=
  @Collector.toSym collaborators path_Clean "Serve" pkgA "*Server" "*Server"
    SKMethod 0 50.

Definition idParams : SymbolSearch.WorkspaceSymbolParams :=
  {| SymbolSearch.WSQuery := "serve"; SymbolSearch.WSLimit := 0;
     SymbolSearch.WSSymbol :=
       Some {[ "id" := VString (ID (desc serve_method)) ]} |}.

Definition ToURI (name : string) : string := "file://" +:+ name.

(** Cache rebuilds that touch neither field. *)
Definition rebuildCaches (p : Rebuild.Project) (name : string)
  : Rebuild.Project := p.

Definition fresh_project : Rebuild.Project :=
  {| Rebuild.changedCount := 0; Rebuild.lastBuildTime := 0 |}.

(** A change of [/src/a.go], which no editor holds, one second after the
    last build. *)
Definition go_event : Rebuild.Event :=
  {| Rebuild.ev_name := "/src/a.go"; Rebuild.ev_files := ∅;
     Rebuild.ev_now := 1000000000; Rebuild.ev_done := 1000000000 |}.

Definition gomod_event : Rebuild.Event :=
  {| Rebuild.ev_name := "/src/.#go.mod"; Rebuild.ev_files := ∅;
     Rebuild.ev_now := 1000000000; Rebuild.ev_done := 2000000000 |}.

Definition Position_of (pos : Z) : DocTarget.TokenPosition :=
  {| DocTarget.Filename := "a.go"; DocTarget.Offset := pos |}.

Definition decl (pos end_ : Z) : DocTarget.Decl :=
  {| DocTarget.DeclPos := pos; DocTarget.DeclEnd := end_ |}.

(** A type declared at 10..20 with a method at 30..40, and a function at
    50..60. *)
Definition doc_type : DocTarget.DocType :=
  {| DocTarget.TypeDecl := decl 10 20; DocTarget.TypeConsts := [];
     DocTarget.TypeVars := []; DocTarget.TypeFuncs := [];
     DocTarget.TypeMethods := [ {| DocTarget.FuncDecl := decl 30 40 |} ] |}.

Definition doc_package : DocTarget.DocPackage :=
  {| DocTarget.PkgConsts := []; DocTarget.PkgTypes := [doc_type];
     DocTarget.PkgVars := [];
     DocTarget.PkgFuncs := [ {| DocTarget.FuncDecl := decl 50 60 |} ] |}.

(** Packages 1 and 2 import each other; package 3 has the ID of package
    1; package 4 has no syntax. *)
Definition sample_heap : SetCache.Heap :=
  {[ 1%nat := {| SetCache.pn_ID := "a"; SetCache.pn_Syntax := 1;
                 SetCache.pn_Imports := [Some 2%nat] |};
     2%nat := {| SetCache.pn_ID := "b"; SetCache.pn_Syntax := 1;
                 SetCache.pn_Imports := [Some 1%nat; Some 3%nat] |};
     3%nat := {| SetCache.pn_ID := "a"; SetCache.pn_Syntax := 2;
                 SetCache.pn_Imports := [] |};
     4%nat := {| SetCache.pn_ID := "c"; SetCache.pn_Syntax := 0;
                 SetCache.pn_Imports := [Some 3%nat] |} ]}.

End MoreSamples.

(* ===================================================================== *)
(** * Part II: properties *)
(* ===================================================================== *)

(** Induction on strings by length, for loops that consume two bytes. *)
Lemma string_length_ind (P : string -> Prop) :
  (forall s, (forall t, (String.length t < String.length s)%nat -> P t) -> P s) ->
  forall s, P s.
Proof.
  intros step s.
  assert (H : forall n t, (String.length t < n)%nat -> P t).
  { induction n as [|n IH]; intros t Ht; [lia|].
    apply step. intros u Hu. apply IH. lia. }
  apply (H (S (String.length s))). lia.
Qed.

Lemma append_cons (x : ascii) (a b : string) :
  String x a +:+ b = String x (a +:+ b).
Proof. reflexivity. Qed.

Lemma append_assoc (a b c : string) : (a +:+ b) +:+ c = a +:+ (b +:+ c).
Proof.
  induction a as [|x a IH]; [reflexivity|].
  rewrite !append_cons. f_equal. exact IH.
Qed.

Lemma append_empty_r (a : string) : a +:+ EmptyString = a.
Proof.
  induction a as [|x a IH]; [reflexivity|].
  rewrite append_cons. f_equal. exact IH.
Qed.

Module HoverProps.
Import GoStrings Hover.

Example pp_struct_sample :
  prettyPrintTypesString struct_sample
  = "struct {" +:+ String "010" "    a int" +:+ String "010" "    b string"
    +:+ String "010" "}".
Proof. reflexivity. Qed.

Example pp_empty_struct : prettyPrintTypesString "struct{}" = EmptyString.
Proof. reflexivity. Qed.

(** On a passive string the loop copies every byte to the buffer. *)
Lemma pp_loop_passive (t : string) :
  forall depth inTag b,
    passive t = true -> pp_loop t depth inTag b = Some (b +:+ t).
Proof.
  induction t as [t IH] using string_length_ind.
  intros depth inTag b Hp.
  destruct t as [|c r]; simpl.
  { now rewrite append_empty_r. }
  simpl in Hp.
  destruct (Ascii.eqb c "{") eqn:Hbrace.
  - apply Ascii.eqb_eq in Hbrace. subst c. simpl.
    destruct r as [|n [|m r'']]; try discriminate.
    apply andb_prop in Hp. destruct Hp as [Hn Hp].
    rewrite Hn. apply Ascii.eqb_eq in Hn. subst n.
    rewrite IH by (simpl; lia || exact Hp).
    now rewrite append_assoc.
  - apply andb_prop in Hp. destruct Hp as [Hc Hp].
    unfold is_special in Hc. rewrite Hbrace in Hc.
    apply negb_true_iff in Hc.
    repeat (apply orb_false_elim in Hc; destruct Hc as [Hc ?]).
    repeat match goal with H : Ascii.eqb c _ = false |- _ => rewrite H; clear H end.
    rewrite IH by (simpl; lia || exact Hp).
    rewrite append_assoc. reflexivity.
Qed.

Lemma passive_no_brace_suffix (t : string) :
  passive t = true -> HasSuffix t "{}" = false.
Proof.
  induction t as [t IH] using string_length_ind. intros Hp.
  destruct t as [|c r]; [reflexivity|].
  simpl in Hp. destruct (Ascii.eqb c "{") eqn:Hbrace.
  - apply Ascii.eqb_eq in Hbrace. subst c.
    destruct r as [|n [|m r'']]; try discriminate.
    apply andb_prop in Hp. destruct Hp as [Hn Hp].
    apply Ascii.eqb_eq in Hn. subst n.
    assert (Hr : HasSuffix (String m r'') "{}" = false)
      by (apply IH; [simpl; lia | exact Hp]).
    change (HasSuffix (String "{" (String "}" (String m r''))) "{}")
      with (String.eqb (String "{" (String "}" (String m r''))) "{}"
            || (String.eqb (String "}" (String m r'')) "{}"
                || HasSuffix (String m r'') "{}")).
    rewrite Hr. reflexivity.
  - apply andb_prop in Hp. destruct Hp as [Hc Hp].
    assert (Hr : HasSuffix r "{}" = false) by (apply IH; [simpl; lia | exact Hp]).
    change (HasSuffix (String c r) "{}")
      with (String.eqb (String c r) "{}" || HasSuffix r "{}").
    rewrite Hr, orb_false_r.
    apply String.eqb_neq. intros E. inversion E. subst c. discriminate.
Qed.

(** Passive strings are fixed points of the printer. *)
Lemma pretty_passive_fixed (t : string) :
  passive t = true -> prettyPrintTypesString t = t.
Proof.
  intros Hp. unfold prettyPrintTypesString.
  rewrite (passive_no_brace_suffix t Hp), (pp_loop_passive t 0 false EmptyString Hp).
  reflexivity.
Qed.

(** C9 (as stated): on the printed form of a two-field struct a second
    run changes the text, also up to a terminal newline. *)
Lemma pretty_not_idempotent :
  ~ eq_mod_newline
      (prettyPrintTypesString (prettyPrintTypesString struct_sample))
      (prettyPrintTypesString struct_sample).
Proof. unfold eq_mod_newline. vm_compute. discriminate. Qed.

(** C9 (amended): when the printed form of [s] is passive (no [;], quote
    or backslash, braces only as [{}] followed by text), printing it again
    returns exactly the same string. *)
Theorem pretty_idempotent_on_passive (s : string) :
  passive (prettyPrintTypesString s) = true ->
  prettyPrintTypesString (prettyPrintTypesString s) = prettyPrintTypesString s.
Proof. intros Hp. now apply pretty_passive_fixed. Qed.

Lemma pretty_idempotent_on_passive_witness :
  passive (prettyPrintTypesString "var x interface{} = nil") = true
  /\ prettyPrintTypesString (prettyPrintTypesString "var x interface{} = nil")
     = prettyPrintTypesString "var x interface{} = nil".
Proof.
  split; [reflexivity|].
  apply (pretty_idempotent_on_passive "var x interface{} = nil"). reflexivity.
Defined.

End HoverProps.

(** ** Facts about the string functions *)

Module GoStringsFacts.
Import GoStrings.

Lemma all_chars_app P a b :
  all_chars P (a +:+ b) = all_chars P a && all_chars P b.
Proof.
  induction a as [|c a IH]; [reflexivity|].
  rewrite append_cons. simpl. rewrite IH. now rewrite andb_assoc.
Qed.

Lemma all_chars_impl (P Q : ascii -> bool) s :
  (forall c, P c = true -> Q c = true) ->
  all_chars P s = true -> all_chars Q s = true.
Proof.
  intros HPQ. induction s as [|c s IH]; simpl; [easy|].
  intros [Hc Hs]%andb_prop. rewrite (HPQ c Hc). now apply IH.
Qed.

Lemma ToLower_fixed s :
  all_chars (fun c => negb (is_upper c)) s = true -> ToLower s = s.
Proof.
  induction s as [|c s IH]; simpl; [easy|].
  intros [Hc Hs]%andb_prop. unfold to_lower.
  apply negb_true_iff in Hc. rewrite Hc. f_equal. now apply IH.
Qed.

Lemma trim_left_nospace c r :
  is_space c = false -> trim_left (String c r) = String c r.
Proof. intros H. simpl. now rewrite H. Qed.

Lemma trim_right_nospace s :
  all_chars (fun c => negb (is_space c)) s = true -> trim_right s = s.
Proof.
  induction s as [|c s IH]; simpl; [easy|].
  intros [Hc Hs]%andb_prop. rewrite (IH Hs).
  apply negb_true_iff in Hc. rewrite Hc. now destruct s.
Qed.

Lemma trim_right_app a e :
  e <> EmptyString ->
  all_chars (fun c => negb (is_space c)) e = true ->
  trim_right (a +:+ e) = a +:+ e.
Proof.
  intros Hne He. induction a as [|c a IH].
  - now apply trim_right_nospace.
  - rewrite append_cons. simpl. rewrite IH.
    destruct (a +:+ e) eqn:E; [|reflexivity].
    destruct a; [|discriminate]. now destruct e.
Qed.

Lemma substring_all s : String.substring 0 (String.length s) s = s.
Proof. induction s as [|c s IH]; simpl; [reflexivity | now rewrite IH]. Qed.

(** A run of non-separator bytes is read into the current field. *)
Lemma fields_from_run sep w rest cur :
  all_chars (fun c => negb (sep c)) w = true ->
  fields_from sep (w +:+ rest) cur = fields_from sep rest (cur +:+ w).
Proof.
  revert cur. induction w as [|c w IH]; intros cur Hw.
  - now rewrite append_empty_r.
  - simpl in Hw. apply andb_prop in Hw. destruct Hw as [Hc Hw].
    apply negb_true_iff in Hc. rewrite append_cons. simpl. rewrite Hc.
    rewrite IH by exact Hw. rewrite append_assoc. reflexivity.
Qed.

Lemma FieldsFunc_single sep w :
  w <> EmptyString ->
  all_chars (fun c => negb (sep c)) w = true ->
  FieldsFunc w sep = [w].
Proof.
  intros Hne Hw. unfold FieldsFunc.
  rewrite <- (append_empty_r w) at 1.
  rewrite fields_from_run by exact Hw. simpl. now destruct w.
Qed.

End GoStringsFacts.

(** ** The query DSL: [Query.String] and [ParseQuery] *)

Module QueryProps.
Import GoStrings GoStringsFacts Symbol.

Example parse_sample :
  ParseQuery "dir:x/y func Foo.Bar"
  = {| QKind := SKFunction; Filter := FilterDir; File := EmptyString;
       Dir := "x/y"; Tokens := ["foo"; "bar"]; Symbol := None |}.
Proof. vm_compute. reflexivity. Qed.

Example string_sample :
  Query_String canonical_sample = "dir:github.com/a/b func http serve".
Proof. vm_compute. reflexivity. Qed.

Lemma word_char_nospace c : word_char c = true -> negb (is_space c) = true.
Proof. unfold word_char. now intros [_ H]%andb_prop. Qed.

Lemma word_char_noupper c : word_char c = true -> negb (is_upper c) = true.
Proof. unfold word_char. now intros [[_ H]%andb_prop _]%andb_prop. Qed.

Lemma wordy_head w : wordy w -> exists c r, w = String c r /\ is_space c = false.
Proof.
  intros [Hne Hw]. destruct w as [|c r]; [easy|]. exists c, r. split; [easy|].
  simpl in Hw. apply andb_prop in Hw. destruct Hw as [Hc _].
  now apply word_char_nospace, negb_true_iff in Hc.
Qed.

Lemma queryJoin_first e : wordy e -> queryJoin EmptyString e = e.
Proof.
  intros He. destruct (wordy_head e He) as (c & r & -> & Hc).
  destruct He as [_ He]. unfold queryJoin, TrimSpace.
  change (EmptyString +:+ " " +:+ String c r) with (String " " (String c r)).
  change (trim_left (String " " (String c r))) with (trim_left (String c r)).
  rewrite trim_left_nospace by exact Hc.
  apply trim_right_nospace.
  eapply all_chars_impl; [apply word_char_nospace | exact He].
Qed.

Lemma queryJoin_next c r e :
  is_space c = false -> wordy e ->
  queryJoin (String c r) e = String c r +:+ String " " e.
Proof.
  intros Hc [Hne He]. unfold queryJoin, TrimSpace.
  rewrite append_cons, trim_left_nospace by exact Hc.
  rewrite <- append_cons.
  change (" " +:+ e) with ((String " " EmptyString) +:+ e).
  rewrite <- append_assoc.
  rewrite trim_right_app.
  - now rewrite append_assoc.
  - exact Hne.
  - eapply all_chars_impl; [apply word_char_nospace | exact He].
Qed.

Lemma fold_queryJoin_next ps : forall c r,
  is_space c = false -> Forall wordy ps ->
  fold_left queryJoin ps (String c r) = String c r +:+ tails ps.
Proof.
  induction ps as [|p ps IH]; intros c r Hc Hps.
  - simpl. now rewrite append_empty_r.
  - inversion Hps as [|? ? Hp Hps']; subst. simpl.
    rewrite queryJoin_next by assumption.
    rewrite append_cons, IH by assumption.
    rewrite <- append_cons, append_assoc. reflexivity.
Qed.

Lemma fold_queryJoin ps :
  Forall wordy ps -> fold_left queryJoin ps EmptyString = unwords ps.
Proof.
  destruct ps as [|p ps]; [reflexivity|]. intros Hps.
  inversion Hps as [|? ? Hp Hps']; subst. simpl.
  rewrite queryJoin_first by exact Hp.
  destruct (wordy_head p Hp) as (c & r & -> & Hc).
  now apply fold_queryJoin_next.
Qed.

Lemma tails_chars P ps :
  P " "%char = true -> Forall (fun p => all_chars P p = true) ps ->
  all_chars P (tails ps) = true.
Proof.
  intros Hsp. induction 1 as [|p ps Hp _ IH]; [reflexivity|].
  simpl. rewrite Hsp, all_chars_app, Hp, IH. reflexivity.
Qed.

Lemma ToLower_unwords ps :
  Forall wordy ps -> ToLower (unwords ps) = unwords ps.
Proof.
  intros Hps. apply ToLower_fixed.
  assert (H : Forall (fun p => all_chars (fun c => negb (is_upper c)) p = true) ps).
  { eapply Forall_impl; [exact Hps|]. intros p [_ Hp].
    eapply all_chars_impl; [apply word_char_noupper | exact Hp]. }
  destruct ps as [|p ps]; [reflexivity|].
  inversion H; subst. simpl. rewrite all_chars_app.
  rewrite tails_chars by (reflexivity || assumption).
  now rewrite andb_true_r.
Qed.

Lemma Fields_tails ps : forall w,
  wordy w -> Forall wordy ps ->
  fields_from is_space (tails ps) w = w :: ps.
Proof.
  induction ps as [|p ps IH]; intros w Hw Hps.
  - simpl. destruct Hw as [Hne _]. now destruct w.
  - inversion Hps as [|? ? Hp Hps']; subst.
    simpl. destruct w as [|c r]; [now destruct Hw|]. f_equal.
    rewrite fields_from_run.
    + apply IH; assumption.
    + destruct Hp as [_ Hp].
      eapply all_chars_impl; [apply word_char_nospace | exact Hp].
Qed.

Lemma Fields_unwords ps : Forall wordy ps -> Fields (unwords ps) = ps.
Proof.
  destruct ps as [|p ps]; [reflexivity|]. intros Hps.
  inversion Hps as [|? ? Hp Hps']; subst.
  unfold Fields, FieldsFunc. simpl.
  rewrite fields_from_run.
  - now apply Fields_tails.
  - destruct Hp as [_ Hp].
    eapply all_chars_impl; [apply word_char_nospace | exact Hp].
Qed.

Lemma String_kinds_words entries k : forall s,
  String_kinds entries k s = fold_left queryJoin (kind_words entries k) s.
Proof.
  unfold String_kinds, kind_words.
  induction entries as [|[kwd kind] entries IH]; intros s; [reflexivity|].
  simpl. destruct (Z.eqb kind k); simpl; apply IH.
Qed.

Lemma Query_String_parts entries q :
  Query_String_in entries q
  = fold_left queryJoin
      (filter_part q ++ kind_part entries (QKind q) ++ Tokens q) EmptyString.
Proof.
  unfold Query_String_in, filter_part, kind_part.
  rewrite !fold_left_app. f_equal.
  assert (Hf : (if String.eqb (Filter q) FilterExported
                then queryJoin EmptyString "is:exported"
                else if String.eqb (Filter q) FilterDir
                     then queryJoin EmptyString (Filter q +:+ ":" +:+ Dir q)
                     else EmptyString)
               = fold_left queryJoin
                   (if String.eqb (Filter q) FilterExported then ["is:exported"]
                    else if String.eqb (Filter q) FilterDir
                         then ["dir:" +:+ Dir q] else [])
                   EmptyString).
  { destruct (String.eqb (Filter q) FilterExported); [reflexivity|].
    destruct (String.eqb (Filter q) FilterDir) eqn:E; [|reflexivity].
    apply String.eqb_eq in E. rewrite E. reflexivity. }
  rewrite Hf. destruct (Z.eqb (QKind q) 0); [reflexivity|].
  now rewrite String_kinds_words.
Qed.

Lemma keyword_list_NoDup : NoDup (keyword_list.*1).
Proof. apply NoDup_ListNoDup. repeat constructor; simpl; intuition discriminate. Qed.

Lemma keywords_lookup kwd k :
  keywords !! kwd = Some k <-> (kwd, k) ∈ keyword_list.
Proof. symmetry. apply elem_of_list_to_map, keyword_list_NoDup. Qed.

Lemma keywords_range entries :
  entries ≡ₚ map_to_list keywords -> entries ≡ₚ keyword_list.
Proof.
  intros ->. unfold keywords. apply map_to_list_to_map, keyword_list_NoDup.
Qed.

(** Every kind has at most one keyword, so whatever the iteration order
    the loop over [keywords] emits exactly that keyword. *)
Lemma kind_words_perm l1 l2 k kwd :
  l1 ≡ₚ l2 -> kind_words l1 k = [kwd] -> kind_words l2 k = [kwd].
Proof.
  intros Hp H. assert (Hq : kind_words l1 k ≡ₚ kind_words l2 k).
  { unfold kind_words. now rewrite Hp. }
  rewrite H in Hq. symmetry in Hq. now apply Permutation_singleton_r in Hq.
Qed.

Lemma kind_words_keyword entries kwd k :
  entries ≡ₚ map_to_list keywords ->
  keywords !! kwd = Some k -> kind_words entries k = [kwd].
Proof.
  intros Hp%keywords_range Hk%keywords_lookup.
  apply (kind_words_perm keyword_list); [now symmetry|].
  unfold keyword_list in Hk.
  repeat (apply elem_of_cons in Hk; destruct Hk as [Hk|Hk];
          [injection Hk as -> ->; reflexivity|]).
  now apply elem_of_nil in Hk.
Qed.

(** What [parseField] does on each kind of piece. *)
Lemma keyword_wordy kwd k : keywords !! kwd = Some k -> wordy kwd.
Proof.
  intros Hk%keywords_lookup. unfold keyword_list in Hk.
  repeat (apply elem_of_cons in Hk; destruct Hk as [Hk|Hk];
          [injection Hk as -> ->; split; [discriminate | reflexivity]|]).
  now apply elem_of_nil in Hk.
Qed.

Lemma parseField_keyword qu kwd k :
  keywords !! kwd = Some k -> parseField qu kwd = setKind qu k.
Proof.
  intros Hk. assert (Hl := Hk). apply keywords_lookup in Hl.
  unfold keyword_list in Hl.
  assert (Hf : HasPrefix kwd "dir:" = false
               /\ String.eqb kwd "is:exported" = false
               /\ FieldsFunc kwd is_dot_or_slash = [kwd]).
  { repeat (apply elem_of_cons in Hl; destruct Hl as [Hl|Hl];
            [injection Hl as -> ->; repeat split; reflexivity|]).
    now apply elem_of_nil in Hl. }
  destruct Hf as (H1 & H2 & H3).
  unfold parseField. rewrite H1, H2, H3. simpl. unfold parseToken.
  now rewrite Hk.
Qed.

Lemma parseField_token qu t :
  token_ok t -> parseField qu t = addToken qu t.
Proof.
  intros (Hne & Hch & Hkw & Hex & Hdir).
  unfold parseField. rewrite Hdir.
  apply String.eqb_neq in Hex. rewrite Hex.
  rewrite FieldsFunc_single.
  - simpl. unfold parseToken. now rewrite Hkw.
  - exact Hne.
  - eapply all_chars_impl; [|exact Hch].
    intros c Hc. now apply andb_prop in Hc.
Qed.

Lemma parse_tokens ts : forall qu,
  Forall token_ok ts ->
  fold_left parseField ts qu
  = {| QKind := QKind qu; Filter := Filter qu; File := File qu;
       Dir := Dir qu; Tokens := Tokens qu ++ ts; Symbol := Symbol qu |}.
Proof.
  induction ts as [|t ts IH]; intros qu Hts.
  - simpl. rewrite app_nil_r. now destruct qu.
  - inversion Hts as [|? ? Ht Hts']; subst. simpl.
    rewrite parseField_token by exact Ht.
    rewrite IH by exact Hts'. unfold addToken. simpl.
    now rewrite <- app_assoc.
Qed.

Lemma parseField_dir qu d :
  parseField qu ("dir:" +:+ d) = setFilterDir qu d.
Proof.
  unfold parseField, TrimPrefix.
  change (HasPrefix ("dir:" +:+ d) "dir:") with (String.prefix EmptyString d).
  assert (Hp : String.prefix EmptyString d = true) by now destruct d.
  rewrite Hp.
  change (String.substring (String.length "dir:")
            (String.length ("dir:" +:+ d) - String.length "dir:")
            ("dir:" +:+ d))
    with (String.substring 0 (String.length d - 0) d).
  now rewrite Nat.sub_0_r, substring_all.
Qed.

Lemma token_ok_wordy t : token_ok t -> wordy t.
Proof.
  intros (Hne & Hch & _). split; [exact Hne|].
  eapply all_chars_impl; [|exact Hch]. intros c Hc. now apply andb_prop in Hc.
Qed.

Lemma parse_filter_part q :
  canonical q ->
  Forall wordy (filter_part q)
  /\ fold_left parseField (filter_part q) zeroQuery
     = {| QKind := 0; Filter := Filter q; File := EmptyString;
          Dir := Dir q; Tokens := []; Symbol := None |}.
Proof.
  intros (Hf & Hdir & Hnodir & _). unfold filter_part.
  destruct Hf as [Hf|[Hf|Hf]].
  - rewrite Hnodir by (rewrite Hf; discriminate). rewrite Hf. now split.
  - rewrite Hnodir by (rewrite Hf; discriminate). rewrite Hf. split.
    + repeat constructor. discriminate.
    + reflexivity.
  - specialize (Hdir Hf). rewrite Hf. simpl. split.
    + repeat constructor; [discriminate|].
      change ("dir:" +:+ Dir q)
        with (String "d" (String "i" (String "r" (String ":" (Dir q))))).
      simpl. exact Hdir.
    + now rewrite parseField_dir.
Qed.

Lemma parse_kind_part entries q qu :
  entries ≡ₚ map_to_list keywords -> canonical q -> QKind qu = 0 ->
  Forall wordy (kind_part entries (QKind q))
  /\ fold_left parseField (kind_part entries (QKind q)) qu
     = setKind qu (QKind q).
Proof.
  intros Hp (_ & _ & _ & Hk & _) Hqu. unfold kind_part.
  destruct (Z.eqb (QKind q) 0) eqn:E.
  - apply Z.eqb_eq in E. rewrite E. split; [constructor|].
    simpl. unfold setKind. rewrite <- Hqu. now destruct qu.
  - destruct Hk as [Hk|[kwd Hk]]; [rewrite Hk in E; discriminate|].
    rewrite (kind_words_keyword entries kwd _ Hp Hk). split.
    + constructor; [exact (keyword_wordy _ _ Hk) | constructor].
    + simpl. now apply parseField_keyword.
Qed.

(** C8 (as stated): the round trip loses information already on a query
    that [ParseQuery] itself produced (a sub-token spelled like a filter),
    on a token with a capital letter, and on a kind without a keyword. *)
Lemma query_roundtrip_fails :
  ~ same_query (ParseQuery (Query_String mixed_field_query)) mixed_field_query
  /\ ~ same_query (ParseQuery (Query_String capital_token_query))
                  capital_token_query
  /\ ~ same_query (ParseQuery (Query_String interface_kind_query))
                  interface_kind_query.
Proof.
  split; [|split].
  - intros (Hf & _). vm_compute in Hf. discriminate Hf.
  - intros (_ & _ & _ & Ht). vm_compute in Ht. discriminate Ht.
  - intros (_ & Hk & _). vm_compute in Hk. discriminate Hk.
Qed.

(** C8 (amended): for every canonical query - filter none, [exported] or
    [dir]; [Dir] set only under [dir] and made of lower-case ASCII bytes
    without spaces; kind 0 or one that has a keyword; tokens non-empty,
    lower-case ASCII without spaces, [.] or [/], not a keyword and not
    spelled like a filter - parsing the rendered query gives back the same
    [Filter], [Kind], [Dir] and the same [Tokens] in the same order,
    whatever order the keyword table is iterated in. *)
Theorem query_roundtrip_canonical entries q :
  entries ≡ₚ map_to_list keywords ->
  canonical q ->
  same_query (ParseQuery (Query_String_in entries q)) q.
Proof.
  intros Hp Hq.
  destruct (parse_filter_part q Hq) as [Wf Pf].
  destruct (parse_kind_part entries q
              {| QKind := 0; Filter := Filter q; File := EmptyString;
                 Dir := Dir q; Tokens := []; Symbol := None |}
              Hp Hq eq_refl) as [Wk Pk].
  assert (Ht : Forall token_ok (Tokens q)) by apply Hq.
  assert (Wt : Forall wordy (Tokens q)).
  { eapply Forall_impl; [exact Ht|]. apply token_ok_wordy. }
  rewrite Query_String_parts. unfold ParseQuery.
  assert (W : Forall wordy
                (filter_part q ++ kind_part entries (QKind q) ++ Tokens q)).
  { repeat (apply Forall_app; split); assumption. }
  rewrite fold_queryJoin, ToLower_unwords, Fields_unwords by exact W.
  rewrite !fold_left_app, Pf, Pk, parse_tokens by exact Ht.
  repeat split.
Qed.

Lemma canonical_sample_canonical : canonical canonical_sample.
Proof.
  unfold canonical. split; [|split; [|split; [|split]]].
  - right. right. reflexivity.
  - intros _. reflexivity.
  - intros H. exfalso. apply H. reflexivity.
  - right. exists "func". reflexivity.
  - repeat constructor; try discriminate; reflexivity.
Defined.

Lemma query_roundtrip_canonical_witness :
  canonical canonical_sample
  /\ same_query (ParseQuery (Query_String canonical_sample)) canonical_sample.
Proof.
  split; [exact canonical_sample_canonical|].
  apply (query_roundtrip_canonical (map_to_list keywords) canonical_sample).
  - reflexivity.
  - exact canonical_sample_canonical.
Defined.

End QueryProps.

(** ** Reference search: [sameObj], [findReferences], [refStreamAndCollect] *)

Module ReferencesProps.
Import GoStrings References.
Section WithCollaborators.
Context `{Collaborators}.

(** *** [sameObj] *)

Lemma sameObj_cases x y :
  sameObj x y
  = same_pointer x y || same_exported x y || same_unowned x y
    || same_import x y.
Proof.
  unfold sameObj. fold (same_exported x y) (same_unowned x y) (same_import x y).
  destruct (same_pointer x y), (same_exported x y), (same_unowned x y);
    reflexivity.
Qed.

Lemma same_pointer_sym x y : same_pointer x y = same_pointer y x.
Proof.
  unfold same_pointer.
  now rewrite (Nat.eqb_sym (kind_tag _)), (Nat.eqb_sym (obj_addr _)).
Qed.

Lemma same_exported_sym x y : same_exported x y = same_exported y x.
Proof.
  unfold same_exported. destruct (obj_pkg x), (obj_pkg y); try reflexivity.
  rewrite (String.eqb_sym (tp_path _)), (String.eqb_sym (obj_name x)).
  destruct (String.eqb _ _), (String.eqb _ _), (Exported x), (Exported y);
    reflexivity.
Qed.

Lemma same_unowned_sym x y : same_unowned x y = same_unowned y x.
Proof.
  unfold same_unowned. destruct (obj_pkg x), (obj_pkg y); try reflexivity.
  apply String.eqb_sym.
Qed.

Lemma same_import_sym x y : same_import x y = same_import y x.
Proof.
  unfold same_import. destruct (obj_kind x), (obj_kind y); try reflexivity.
  apply Nat.eqb_sym.
Qed.

(** C4: [sameObj] is reflexive and symmetric, and two objects match
    exactly when they are the same pointer, or both are package names
    importing the same package, or both have an owning package with the
    same path, the same name and are both exported, or both have no owning
    package and the same name. *)
Theorem sameObj_reflexive_symmetric (x y : Object) :
  sameObj x x = true
  /\ sameObj x y = sameObj y x
  /\ (sameObj x y = true <->
      same_pointer x y = true
      \/ (exists ix iy, obj_kind x = KPkgName ix /\ obj_kind y = KPkgName iy
                        /\ tp_addr ix = tp_addr iy)
      \/ (exists px py, obj_pkg x = Some px /\ obj_pkg y = Some py
                        /\ tp_path px = tp_path py
                        /\ obj_name x = obj_name y
                        /\ Exported x = true /\ Exported y = true)
      \/ (obj_pkg x = None /\ obj_pkg y = None /\ obj_name x = obj_name y)).
Proof.
  split; [|split].
  - unfold sameObj, same_pointer. now rewrite !Nat.eqb_refl.
  - rewrite !sameObj_cases.
    now rewrite same_pointer_sym, same_exported_sym, same_unowned_sym,
      same_import_sym.
  - rewrite sameObj_cases, !orb_true_iff.
    split.
    + intros [[[Hp|He]|Hu]|Hi].
      * now left.
      * right; right; left. unfold same_exported in He.
        destruct (obj_pkg x) as [px|], (obj_pkg y) as [py|]; try discriminate.
        apply andb_prop in He as [[[H1 H2]%andb_prop H3]%andb_prop H4].
        exists px, py. apply String.eqb_eq in H1, H2. now repeat split.
      * right; right; right. unfold same_unowned in Hu.
        destruct (obj_pkg x), (obj_pkg y); try discriminate.
        apply String.eqb_eq in Hu. now repeat split.
      * right; left. unfold same_import in Hi.
        destruct (obj_kind x) as [| | | |ix| | |], (obj_kind y) as [| | | |iy| | |];
          try discriminate.
        exists ix, iy. apply Nat.eqb_eq in Hi. now repeat split.
    + intros [Hp|[(ix & iy & Hx & Hy & Ha)|[(px & py & Hx & Hy & Hpa & Hn & Ex & Ey)
                                              |(Hx & Hy & Hn)]]].
      * now left; left; left.
      * right. unfold same_import. rewrite Hx, Hy. now apply Nat.eqb_eq.
      * left; left; right. unfold same_exported.
        rewrite Hx, Hy, Hpa, Hn, Ex, Ey, !String.eqb_refl. reflexivity.
      * left; right. unfold same_unowned. rewrite Hx, Hy, Hn.
        apply String.eqb_refl.
Qed.

(** *** [findReferences] *)

Lemma skip_iff_not_scanned q pkg :
  negb (String.eqb (defPkgPath q) BuiltinPkg)
  && (match GetImport pkg (defPkgPath q) with
      | None => true | Some _ => false end)
  && negb (String.eqb (GetPkgPath pkg) (defPkgPath q))
  = negb (bool_decide (scanned (defPkgPath q) pkg)).
Proof.
  destruct (String.eqb (defPkgPath q) BuiltinPkg) eqn:Eb; simpl.
  { apply String.eqb_eq in Eb. symmetry. apply negb_false_iff.
    apply bool_decide_eq_true. now left. }
  apply String.eqb_neq in Eb.
  destruct (GetImport pkg (defPkgPath q)) as [p|] eqn:Ei; simpl.
  { symmetry. apply negb_false_iff, bool_decide_eq_true.
    right; left. rewrite Ei. eauto. }
  destruct (String.eqb (GetPkgPath pkg) (defPkgPath q)) eqn:Ep; simpl.
  { apply String.eqb_eq in Ep. symmetry.
    apply negb_false_iff, bool_decide_eq_true. now right; right. }
  apply String.eqb_neq in Ep. symmetry.
  apply negb_true_iff, bool_decide_eq_false.
  intros [?|[[? Hs]|?]]; [easy| |easy]. rewrite Ei in Hs. discriminate.
Qed.

Lemma findReferences_f_live ctx q i pkg refs :
  ctx_Err ctx i = None ->
  findReferences_f ctx q i pkg refs = Returned (refs ++ spec_scan q pkg) None.
Proof.
  intros Hc. unfold findReferences_f, spec_scan, uses_of. rewrite Hc.
  rewrite skip_iff_not_scanned.
  destruct (decide (scanned (defPkgPath q) pkg)) as [Hs|Hs].
  - rewrite bool_decide_eq_true_2 by exact Hs. simpl.
    destruct (GetTypesInfo pkg); [reflexivity | now rewrite app_nil_r].
  - rewrite bool_decide_eq_false_2 by exact Hs. simpl.
    now rewrite app_nil_r.
Qed.

Lemma Search_findReferences ctx q pkgs : forall i refs,
  (forall j, (j < i + length pkgs)%nat -> ctx_Err ctx j = None) ->
  Search_from (findReferences_f ctx q) i pkgs refs
  = Returned (refs ++ flat_map (spec_scan q) pkgs) None.
Proof.
  induction pkgs as [|pkg pkgs IH]; intros i refs Hlive; simpl.
  - now rewrite app_nil_r.
  - rewrite findReferences_f_live by (apply Hlive; simpl; lia).
    rewrite IH by (intros j Hj; apply Hlive; simpl; lia).
    now rewrite <- app_assoc.
Qed.

(** While the request is not cancelled, [findReferences] returns the
    matching uses of the scanned packages, in walk order. *)
Lemma findReferences_live ctx h q :
  (forall j, (j < length (project h))%nat -> ctx_Err ctx j = None) ->
  findReferences ctx h q = Returned (flat_map (spec_scan q) (project h)) None.
Proof.
  intros Hlive. unfold findReferences, Search.
  now rewrite Search_findReferences.
Qed.

Lemma in_spec_scan q pkg id :
  id ∈ spec_scan q pkg ->
  scanned (defPkgPath q) pkg /\ id ∈ uses_of q pkg.
Proof.
  unfold spec_scan. destruct (decide _); [easy|]. now intros ?%elem_of_nil.
Qed.

(** C1: while the request is not cancelled [findReferences] returns, and
    when the defining package path [P] of the query is not the builtin
    sentinel every identifier it returns is a matching use of a cached
    package that imports [P] or is [P]; every such package contributes all
    its matching uses; for a query without owning package no package is
    filtered out. *)
Theorem findReferences_filter ctx h (queryObj : Object) :
  (forall j, (j < length (project h))%nat -> ctx_Err ctx j = None) ->
  exists refs,
    findReferences ctx h queryObj = Returned refs None
    /\ (defPkgPath queryObj <> BuiltinPkg ->
        (forall id, id ∈ refs ->
           exists pkg, pkg ∈ project h
             /\ (is_Some (GetImport pkg (defPkgPath queryObj))
                 \/ GetPkgPath pkg = defPkgPath queryObj)
             /\ id ∈ uses_of queryObj pkg)
        /\ (forall pkg id, pkg ∈ project h ->
              is_Some (GetImport pkg (defPkgPath queryObj))
              \/ GetPkgPath pkg = defPkgPath queryObj ->
              id ∈ uses_of queryObj pkg -> id ∈ refs))
    /\ (obj_pkg queryObj = None ->
        refs = flat_map (uses_of queryObj) (project h)).
Proof.
  intros Hlive. eexists. split; [now apply findReferences_live|]. split.
  - intros HP. split.
    + intros id Hid. apply list_elem_of_In, in_flat_map in Hid.
      destruct Hid as (pkg & Hpkg & Hid).
      apply list_elem_of_In, in_spec_scan in Hid.
      destruct Hid as [[?|Hs] Hid]; [easy|].
      exists pkg. split; [now apply list_elem_of_In|]. now split.
    + intros pkg id Hpkg Hs Hid. apply list_elem_of_In, in_flat_map.
      exists pkg. split; [now apply list_elem_of_In|].
      apply list_elem_of_In. unfold spec_scan.
      rewrite decide_True; [exact Hid | now right].
  - intros Hnil. clear Hlive.
    induction (project h) as [|pkg pkgs IH]; [reflexivity|]. simpl.
    rewrite IH. f_equal.
    unfold spec_scan. rewrite decide_True; [reflexivity|].
    left. unfold defPkgPath. now rewrite Hnil.
Qed.

End WithCollaborators.
End ReferencesProps.

Module CollectProps.
Import GoStrings References.
Section WithCollaborators.
Context `{Collaborators}.

Lemma collect_spec fset refs : forall seen locs,
  collect fset refs seen locs
  = locs ++ filter (unseen seen) (dedup_first (discovered fset refs)).
Proof.
  induction refs as [|n rest IH]; intros seen locs.
  { simpl. now rewrite app_nil_r. }
  simpl collect. fold (location_of fset n). unfold discovered.
  rewrite fmap_cons. fold (location_of fset n).
  destruct (String.eqb (URI (location_of fset n)) EmptyString) eqn:Eu.
  - apply String.eqb_eq in Eu.
    rewrite filter_cons_False by (intros E; now apply E).
    apply IH.
  - apply String.eqb_neq in Eu. rewrite filter_cons_True by exact Eu.
    fold (discovered fset rest). simpl dedup_first.
    destruct (default false (seen !! formatLocation (location_of fset n)))
      eqn:Es.
    + rewrite filter_cons_False by (unfold unseen; congruence).
      rewrite IH. f_equal. rewrite list_filter_filter.
      apply list_filter_iff. intros y. split; [|tauto].
      intros Hy. split; [exact Hy|]. unfold unseen in Hy. congruence.
    + rewrite filter_cons_True by exact Es.
      rewrite IH, <- app_assoc. simpl. do 2 f_equal.
      rewrite list_filter_filter. apply list_filter_iff.
      intros y. unfold unseen.
      destruct (decide (formatLocation (location_of fset n) = formatLocation y))
        as [E|E].
      * rewrite <- E, lookup_insert_eq. simpl. split; [discriminate|].
        intros [_ Hne]. now contradiction Hne.
      * rewrite lookup_insert_ne by exact E. split; [|tauto].
        intros Hy. split; [exact Hy | congruence].
Qed.

Lemma collect_fresh fset refs :
  collect fset refs ∅ [] = dedup_first (discovered fset refs).
Proof.
  rewrite collect_spec. simpl.
  induction (dedup_first _) as [|x l IH]; [reflexivity|].
  rewrite filter_cons_True by (unfold unseen; now rewrite lookup_empty).
  now f_equal.
Qed.

Lemma NoDup_keys_filter (P : Location -> Prop) `{!forall x, Decision (P x)} ls :
  NoDup (formatLocation <$> ls) -> NoDup (formatLocation <$> filter P ls).
Proof.
  induction ls as [|x r IH]; [easy|]. rewrite fmap_cons.
  intros [Hx Hr]%NoDup_cons. destruct (decide (P x)).
  - rewrite filter_cons_True, fmap_cons by assumption.
    apply NoDup_cons. split; [|now apply IH].
    intros (y & Ey & Hy)%list_elem_of_fmap. apply Hx.
    apply list_elem_of_fmap. exists y. split; [exact Ey|].
    now apply list_elem_of_filter in Hy.
  - rewrite filter_cons_False by assumption. now apply IH.
Qed.

Lemma dedup_first_NoDup ls : NoDup (formatLocation <$> dedup_first ls).
Proof.
  induction ls as [|x r IH]; [constructor|].
  simpl dedup_first. rewrite fmap_cons. apply NoDup_cons. split.
  - intros (y & Ey & Hy)%list_elem_of_fmap.
    apply list_elem_of_filter in Hy. destruct Hy as [Hne _]. now apply Hne.
  - now apply NoDup_keys_filter.
Qed.

Lemma dedup_first_length ls : (length (dedup_first ls) <= length ls)%nat.
Proof.
  induction ls as [|x r IH]; [easy|]. simpl.
  pose proof (length_filter
    (fun y => formatLocation y <> formatLocation x) (dedup_first r)). lia.
Qed.

Lemma dedup_first_app a b :
  dedup_first a `prefix_of` dedup_first (a ++ b).
Proof.
  induction a as [|x a IH]; [apply prefix_nil|].
  simpl. apply prefix_cons. destruct IH as [k Hk]. rewrite Hk, filter_app.
  now eexists.
Qed.

Lemma discovered_take fset refs n :
  dedup_first (discovered fset (take n refs))
  `prefix_of` dedup_first (discovered fset refs).
Proof.
  rewrite <- (take_drop n refs) at 2. unfold discovered.
  rewrite fmap_app, filter_app. apply dedup_first_app.
Qed.

Lemma discovered_length fset refs :
  (length (discovered fset refs) <= length refs)%nat.
Proof.
  unfold discovered.
  pose proof (length_filter (fun loc => URI loc <> EmptyString)
                (location_of fset <$> refs)) as Hl.
  now rewrite length_fmap in Hl.
Qed.

Lemma refStreamAndCollect_take fset refs limit :
  refStreamAndCollect fset refs limit
  = dedup_first (discovered fset
      (take (Z.to_nat
               (let limit' := if Z.eqb limit 0 then Z.of_nat (length refs)
                              else limit in
                if limit' <? Z.of_nat (length refs) then limit'
                else Z.of_nat (length refs)))
            refs)).
Proof. unfold refStreamAndCollect. now rewrite collect_fresh. Qed.

Lemma doHandleTextDocumentReferences_NoDup ctx h params locs err :
  doHandleTextDocumentReferences ctx h params = Returned locs err ->
  NoDup (formatLocation <$> locs).
Proof.
  unfold doHandleTextDocumentReferences.
  repeat case_match; intros [= <- <-]; try constructor.
  all: rewrite refStreamAndCollect_take; apply dedup_first_NoDup.
Qed.

(** C3: the list built by [refStreamAndCollect] has no two entries with
    the same [formatLocation] key; with [XLimit = 0] it is the whole
    de-duplicated list of discovered locations; with [XLimit > 0] it has at
    most [XLimit] entries and is an initial segment of that list, so it is
    in discovery order; every list the references request returns is free
    of duplicate keys. *)
Theorem references_deduplicated_and_limited fset refs limit :
  NoDup (formatLocation <$> refStreamAndCollect fset refs limit)
  /\ (limit = 0 ->
      refStreamAndCollect fset refs limit
      = dedup_first (discovered fset refs))
  /\ (0 < limit ->
      Z.of_nat (length (refStreamAndCollect fset refs limit)) <= limit
      /\ refStreamAndCollect fset refs limit
         `prefix_of` dedup_first (discovered fset refs))
  /\ (forall ctx h params locs err,
        handleTextDocumentReferences ctx h params = Returned locs err ->
        NoDup (formatLocation <$> locs)).
Proof.
  rewrite refStreamAndCollect_take. repeat split.
  - apply dedup_first_NoDup.
  - intros ->. simpl. rewrite Z.ltb_irrefl, Nat2Z.id.
    now rewrite firstn_all.
  - set (n := Z.to_nat _).
    assert (Hn : Z.of_nat n <= limit).
    { subst n. simpl. destruct (Z.eqb limit 0) eqn:E0.
      { apply Z.eqb_eq in E0. lia. }
      destruct (limit <? Z.of_nat (length refs)) eqn:El.
      - lia.
      - apply Z.ltb_ge in El. lia. }
    pose proof (dedup_first_length (discovered fset (take n refs))).
    pose proof (discovered_length fset (take n refs)).
    pose proof (length_take refs n). lia.
  - apply discovered_take.
  - intros ctx h params locs err.
    unfold handleTextDocumentReferences, handleTextDocumentReferences_calls.
    destruct (doHandleTextDocumentReferences ctx h params)
      as [locs1 [e|]|] eqn:E1; simpl.
    + apply doHandleTextDocumentReferences_NoDup.
    + intros [= <- <-]. now apply doHandleTextDocumentReferences_NoDup in E1.
    + discriminate.
Qed.

End WithCollaborators.
End CollectProps.

(** ** Implementation search: the classification loop *)

Module ImplementationProps.
Import Implementation SymbolSearch.
Section WithCollaborators.
Context `{Collaborators}.

Lemma classify_one_to T b U :
  to (classify_one T b U) = to b ++ to_contrib T U.
Proof.
  unfold classify_one, to_contrib.
  repeat (case_match; simpl; try discriminate);
    rewrite ?app_nil_r; reflexivity.
Qed.

Lemma classify_to_from T allNamed : forall b,
  to (fold_left (fun b id => classify_one T b (TNamed id)) allNamed b)
  = to b ++ flat_map (fun id => to_contrib T (TNamed id)) allNamed.
Proof.
  induction allNamed as [|id rest IH]; intros b; simpl.
  - now rewrite app_nil_r.
  - now rewrite IH, classify_one_to, <- app_assoc.
Qed.

Lemma classify_to T allNamed :
  to (classify T allNamed)
  = flat_map (fun id => to_contrib T (TNamed id)) allNamed.
Proof. unfold classify. now rewrite classify_to_from. Qed.

Lemma classify_one_empty_interface T b U :
  isInterface T = true -> MethodSet_Len T = 0%nat -> classify_one T b U = b.
Proof. intros Hi Hl. unfold classify_one. now rewrite Hi, Hl. Qed.

Lemma classify_empty_interface T allNamed :
  isInterface T = true -> MethodSet_Len T = 0%nat ->
  classify T allNamed = no_buckets.
Proof.
  intros Hi Hl. unfold classify. generalize no_buckets.
  induction allNamed as [|id rest IH]; intros b; simpl; [reflexivity|].
  now rewrite classify_one_empty_interface.
Qed.

Lemma sort_Sort_nil `{!SortContract} (A : Type) (less : A -> A -> bool) :
  sort_Sort A less [] = [].
Proof. apply Permutation_nil_r. apply sort_Sort_perm. Qed.

(** C6: for a non-empty interface [T] and a concrete candidate [U] among
    the named types, [U] is put into [to] when it is assignable to [T];
    otherwise [*U] is put into [to] when [*U] is assignable to [T]; a
    pointer form in [to] always stems from a concrete candidate that is not
    itself assignable.  For an empty interface [T] all three buckets stay
    empty and [implements] returns the empty list (provided the walk over
    the cache completes). *)
Theorem implements_interface_to_bucket `{!SortContract}
    (T : Typ) (allNamed : list nat) :
  (isInterface T = true -> MethodSet_Len T <> 0%nat ->
   (forall u, u ∈ allNamed -> isInterface (TNamed u) = false ->
      (AssignableTo (TNamed u) T = true ->
       TNamed u ∈ to (classify T allNamed))
      /\ (AssignableTo (TNamed u) T = false ->
          AssignableTo (TPointer (TNamed u)) T = true ->
          TPointer (TNamed u) ∈ to (classify T allNamed)))
   /\ (forall U, TPointer U ∈ to (classify T allNamed) ->
         exists u, U = TNamed u /\ u ∈ allNamed
           /\ isInterface U = false
           /\ AssignableTo U T = false
           /\ AssignableTo (TPointer U) T = true))
  /\ (isInterface T = true -> MethodSet_Len T = 0%nat ->
      classify T allNamed = no_buckets
      /\ (forall pkg method,
            implements_from pkg T method allNamed = [])
      /\ (forall h pkg path act method,
            GetTypesInfo pkg <> None ->
            selected pkg path act = Returned (Some T, method) None ->
            Forall (fun p => GetTypesInfo p <> None) (project h) ->
            implements h pkg path act = Returned [] None)).
Proof.
  split.
  - intros Hi Hl. apply Nat.eqb_neq in Hl. split.
    + intros u Hu Hc. split.
      * intros Ha. rewrite classify_to. apply list_elem_of_In, in_flat_map.
        exists u. split; [now apply list_elem_of_In|].
        unfold to_contrib. rewrite Hi, Hl, Hc, Ha. now left.
      * intros Ha Hp. rewrite classify_to. apply list_elem_of_In, in_flat_map.
        exists u. split; [now apply list_elem_of_In|].
        unfold to_contrib. rewrite Hi, Hl, Hc, Ha, Hp. now left.
    + intros U HU. rewrite classify_to in HU.
      apply list_elem_of_In, in_flat_map in HU. destruct HU as (u & Hu & HU).
      exists u. unfold to_contrib in HU. rewrite Hi, Hl in HU.
      destruct (isInterface (TNamed u)) eqn:Hc.
      { destruct (Nat.eqb (MethodSet_Len (TNamed u)) 0); [destruct HU|].
        destruct (negb (Identical T (TNamed u)) && AssignableTo (TNamed u) T);
          [|destruct HU].
        destruct HU as [HU|[]]. discriminate. }
      destruct (AssignableTo (TNamed u) T) eqn:Ha.
      { destruct HU as [HU|[]]. discriminate. }
      destruct (AssignableTo (TPointer (TNamed u)) T) eqn:Hp; [|destruct HU].
      destruct HU as [HU|[]]. injection HU as <-.
      repeat split; try assumption. now apply list_elem_of_In.
  - intros Hi Hl.
    assert (Hfrom : forall pkg method, implements_from pkg T method allNamed = []).
    { intros pkg method. unfold implements_from.
      rewrite classify_empty_interface by assumption. simpl.
      now rewrite !sort_Sort_nil. }
    split; [now apply classify_empty_interface|]. split; [exact Hfrom|].
    intros h pkg path act method Hinfo Hsel Hall.
    unfold implements. destruct (GetTypesInfo pkg); [|easy]. rewrite Hsel.
    assert (Hs : exists l, Search h implements_f [] = Returned l None).
    { unfold Search. generalize (@nil nat) 0%nat.
      induction Hall as [|p ps Hp _ IH]; intros l i; simpl; [eauto|].
      unfold implements_f at 1. destruct (GetTypesInfo p); [|easy]. apply IH. }
    destruct Hs as [l ->].
    unfold implements_from.
    rewrite classify_empty_interface by assumption. simpl.
    now rewrite !sort_Sort_nil.
Qed.

End WithCollaborators.
End ImplementationProps.

(** ** The off-by-one retry and the [InvalidNodeError] paths *)

Module RetryProps.
Import References XDefinition Implementation.
Section WithCollaborators.
Context `{Collaborators}.

Lemma references_invalid_typeCheck ctx h params :
  typeCheck (RefURI params) (RefPosition params) = inl InvalidNodeError ->
  doHandleTextDocumentReferences ctx h params = Returned [] None.
Proof. intros Ht. unfold doHandleTextDocumentReferences. now rewrite Ht. Qed.

Lemma references_invalid_node ctx h params pkg pos first rest :
  typeCheck (RefURI params) (RefPosition params) = inr (pkg, pos) ->
  GetPathNodes pkg pos = (first :: rest, None) ->
  not_ident_like first ->
  doHandleTextDocumentReferences ctx h params
  = Returned [] (Some InvalidNodeError).
Proof.
  intros Ht Hp Hn. unfold doHandleTextDocumentReferences. rewrite Ht, Hp.
  now destruct first.
Qed.

Lemma references_no_object ctx h params pkg pos id rest :
  typeCheck (RefURI params) (RefPosition params) = inr (pkg, pos) ->
  GetPathNodes pkg pos = (NIdent id :: rest, None) ->
  FindIdentObject pkg id = None ->
  doHandleTextDocumentReferences ctx h params
  = Returned [] (Some (ErrorString "references object not found")).
Proof.
  intros Ht Hp Ho. unfold doHandleTextDocumentReferences.
  now rewrite Ht, Hp, Ho.
Qed.

Lemma definition_invalid_typeCheck params :
  typeCheck (DocURI params) (DocPosition params) = inl InvalidNodeError ->
  doHandleXDefinition params = Returned [] None.
Proof. intros Ht. unfold doHandleXDefinition. now rewrite Ht. Qed.

Lemma definition_no_object params pkg pos id rest :
  typeCheck (DocURI params) (DocPosition params) = inr (pkg, pos) ->
  GetPathNodes pkg pos = (NIdent id :: rest, None) ->
  FindIdentObject pkg id = None ->
  doHandleXDefinition params
  = Returned [] (Some (ErrorString "definition not found")).
Proof.
  intros Ht Hp Ho. unfold doHandleXDefinition, lookupIdentDefinition.
  now rewrite Ht, Hp, Ho.
Qed.

Lemma definition_invalid_node params pkg pos first rest :
  typeCheck (DocURI params) (DocPosition params) = inr (pkg, pos) ->
  GetPathNodes pkg pos = (first :: rest, None) ->
  not_definable first ->
  doHandleXDefinition params = Returned [] (Some InvalidNodeError).
Proof.
  intros Ht Hp Hn. unfold doHandleXDefinition. rewrite Ht, Hp.
  now destruct first.
Qed.

Lemma wrap_dec (c : Z) :
  - 2 ^ 63 < c < 2 ^ 63 -> GoInt.wrap (c - 1) = c - 1.
Proof.
  intros Hc. unfold GoInt.wrap.
  replace (c - 1 + 2 ^ 63) with (c - 1 + 2 ^ 63 + 0 * 2 ^ 64) by lia.
  rewrite Z.mod_add by lia. rewrite Z.mod_small; lia.
Qed.

(** C2 (amended): the handlers of the references and the definition
    request retry exactly when the first call of their worker returns a
    non-nil error - as it does when no object is found for the identifier
    and when the innermost node is not identifier-like - and then call the
    worker exactly once more, on the same line with the character
    decremented by 1 as a Go [int] (for every character above the least
    [int], so for every position of a document, that is [character - 1];
    the least [int] wraps round to the greatest), and return what that call
    returns.  When the first call returns a nil error the result is
    returned unchanged after that single call; this includes the empty
    result into which the worker turns an [InvalidNodeError] reported by
    [typeCheck]. *)
Theorem retry_once_on_error ctx h :
  (forall params locs err,
      doHandleTextDocumentReferences ctx h params = Returned locs (Some err) ->
      handleTextDocumentReferences_calls ctx h params
      = ([params; References.retryParams params],
         doHandleTextDocumentReferences ctx h (References.retryParams params))
      /\ Character (RefPosition (References.retryParams params))
         = GoInt.wrap (Character (RefPosition params) - 1)
      /\ (- 2 ^ 63 < Character (RefPosition params) < 2 ^ 63 ->
          Character (RefPosition (References.retryParams params))
          = Character (RefPosition params) - 1)
      /\ Line (RefPosition (References.retryParams params))
         = Line (RefPosition params))
  /\ (forall params locs,
        doHandleTextDocumentReferences ctx h params = Returned locs None ->
        handleTextDocumentReferences_calls ctx h params
        = ([params], Returned locs None))
  /\ (forall params symbols err,
        doHandleXDefinition params = Returned symbols (Some err) ->
        handleXDefinition_calls params
        = ([params; XDefinition.retryParams params],
           doHandleXDefinition (XDefinition.retryParams params))
        /\ Character (DocPosition (XDefinition.retryParams params))
           = GoInt.wrap (Character (DocPosition params) - 1)
        /\ (- 2 ^ 63 < Character (DocPosition params) < 2 ^ 63 ->
            Character (DocPosition (XDefinition.retryParams params))
            = Character (DocPosition params) - 1)
        /\ Line (DocPosition (XDefinition.retryParams params))
           = Line (DocPosition params))
  /\ (forall params symbols,
        doHandleXDefinition params = Returned symbols None ->
        handleXDefinition_calls params = ([params], Returned symbols None))
  /\ (forall params,
        typeCheck (RefURI params) (RefPosition params) = inl InvalidNodeError ->
        handleTextDocumentReferences_calls ctx h params
        = ([params], Returned [] None))
  /\ (forall params,
        typeCheck (DocURI params) (DocPosition params) = inl InvalidNodeError ->
        handleXDefinition_calls params = ([params], Returned [] None))
  /\ (forall params pkg pos first rest,
        typeCheck (RefURI params) (RefPosition params) = inr (pkg, pos) ->
        GetPathNodes pkg pos = (first :: rest, None) ->
        not_ident_like first
        \/ (exists id, first = NIdent id /\ FindIdentObject pkg id = None) ->
        exists err,
          doHandleTextDocumentReferences ctx h params
          = Returned [] (Some err))
  /\ (forall params pkg pos first rest,
        typeCheck (DocURI params) (DocPosition params) = inr (pkg, pos) ->
        GetPathNodes pkg pos = (first :: rest, None) ->
        not_definable first
        \/ (exists id, first = NIdent id /\ FindIdentObject pkg id = None) ->
        exists err, doHandleXDefinition params = Returned [] (Some err)).
Proof.
  split; [|split; [|split; [|split; [|split; [|split; [|split]]]]]].
  - intros params locs err Hd. split; [|split; [reflexivity|split]].
    + unfold handleTextDocumentReferences_calls. now rewrite Hd.
    + intros Hr. exact (wrap_dec _ Hr).
    + reflexivity.
  - intros params locs Hd.
    unfold handleTextDocumentReferences_calls. now rewrite Hd.
  - intros params symbols err Hd. split; [|split; [reflexivity|split]].
    + unfold handleXDefinition_calls. now rewrite Hd.
    + intros Hr. exact (wrap_dec _ Hr).
    + reflexivity.
  - intros params symbols Hd.
    unfold handleXDefinition_calls. now rewrite Hd.
  - intros params Ht. unfold handleTextDocumentReferences_calls.
    now rewrite references_invalid_typeCheck.
  - intros params Ht. unfold handleXDefinition_calls.
    now rewrite definition_invalid_typeCheck.
  - intros params pkg pos first rest Ht Hp [Hn|(id & -> & Ho)].
    + eexists. now apply (references_invalid_node ctx h params pkg pos first rest).
    + eexists. now apply (references_no_object ctx h params pkg pos id rest).
  - intros params pkg pos first rest Ht Hp [Hn|(id & -> & Ho)].
    + eexists. now apply (definition_invalid_node params pkg pos first rest).
    + eexists. now apply (definition_no_object params pkg pos id rest).
Qed.


End WithCollaborators.
End RetryProps.

(** ** Orders: Go's string [<] and the lexicographic [Less] *)

Module OrderFacts.
Import GoStrings SymbolSearch.

Lemma lt_negb_leb a b : lt a b = negb (String.leb b a).
Proof.
  unfold lt, String.ltb, String.leb. rewrite (String.compare_antisym b a).
  now destruct (String.compare a b).
Qed.

Lemma leb_refl a : String.leb a a = true.
Proof. apply Is_true_true. exact (reflexivity (R := String.le) a). Qed.

Lemma leb_trans a b c :
  String.leb a b = true -> String.leb b c = true -> String.leb a c = true.
Proof.
  intros Hab%Is_true_true Hbc%Is_true_true. apply Is_true_true.
  exact (transitivity (R := String.le) Hab Hbc).
Qed.

Lemma lt_total a b : lt a b = false -> lt b a = false -> a = b.
Proof.
  rewrite !lt_negb_leb, !negb_false_iff. intros Hba Hab.
  now apply String.leb_antisym.
Qed.

Lemma lt_ordering : transitive_ordering lt.
Proof.
  split; [|split].
  - intros a. now rewrite lt_negb_leb, leb_refl.
  - intros a b c. rewrite !lt_negb_leb, !negb_true_iff. intros Hba Hcb.
    destruct (String.leb c a) eqn:Hca; [|reflexivity].
    destruct (String.leb_total a b) as [Hab|Hab]; [|congruence].
    rewrite (leb_trans c a b Hca Hab) in Hcb. discriminate.
  - intros a b c. rewrite !lt_negb_leb, !negb_false_iff. intros Hba Hcb.
    now apply (leb_trans c b a).
Qed.

Lemma gt_ordering : transitive_ordering (fun x y : Z => y <? x).
Proof.
  split; [|split].
  - intros a. apply Z.ltb_irrefl.
  - intros a b c Hab%Z.ltb_lt Hbc%Z.ltb_lt. apply Z.ltb_lt. lia.
  - intros a b c Hab%Z.ltb_ge Hbc%Z.ltb_ge. apply Z.ltb_ge. lia.
Qed.

Section Lex.
Context {A B : Type}.
Variables (eqA ltA : A -> A -> bool) (ltB : B -> B -> bool).
Hypothesis eqA_spec : forall a a', eqA a a' = true <-> a = a'.
Hypothesis ltA_ord : transitive_ordering ltA.
Hypothesis ltA_total :
  forall a a', ltA a a' = false -> ltA a' a = false -> a = a'.
Hypothesis ltB_ord : transitive_ordering ltB.

Lemma eqA_refl a : eqA a a = true.
Proof. now apply eqA_spec. Qed.

Lemma eqA_false a a' : a <> a' -> eqA a a' = false.
Proof.
  intros Hne. destruct (eqA a a') eqn:E; [|reflexivity].
  now apply eqA_spec in E.
Qed.

Lemma lex_ordering : transitive_ordering (lex eqA ltA ltB).
Proof.
  destruct ltA_ord as (Air & Atr & Ant), ltB_ord as (Bir & Btr & Bnt).
  unfold lex. split; [|split].
  - intros [a b]. simpl. now rewrite eqA_refl.
  - intros [a b] [a' b'] [a'' b'']. simpl.
    destruct (eqA a a') eqn:E1.
    + apply eqA_spec in E1. subst a'.
      destruct (eqA a a''); [apply Btr | easy].
    + destruct (eqA a' a'') eqn:E2.
      * apply eqA_spec in E2. subst a''. rewrite E1. easy.
      * intros H1 H2. destruct (eqA a a'') eqn:E3.
        { apply eqA_spec in E3. subst a''.
          pose proof (Atr _ _ _ H1 H2) as C. rewrite Air in C.
          discriminate. }
        now apply (Atr a a' a'').
  - intros [a b] [a' b'] [a'' b'']. simpl.
    destruct (eqA a a') eqn:E1.
    + apply eqA_spec in E1. subst a'.
      destruct (eqA a a''); [apply Bnt | easy].
    + destruct (eqA a' a'') eqn:E2.
      * apply eqA_spec in E2. subst a''. rewrite E1. easy.
      * intros H1 H2. destruct (eqA a a'') eqn:E3.
        { apply eqA_spec in E3. subst a''.
          rewrite (ltA_total a a' H1 H2), eqA_refl in E1. discriminate. }
        now apply (Ant a a' a'').
Qed.

End Lex.

Lemma ordering_by_key {A K : Type} (key : A -> K) (lessK : K -> K -> bool) :
  transitive_ordering lessK ->
  transitive_ordering (fun a b => lessK (key a) (key b)).
Proof.
  intros (Hir & Htr & Hnt). split; [|split].
  - intros a. apply Hir.
  - intros a b c. apply Htr.
  - intros a b c. apply Hnt.
Qed.

Lemma StronglySorted_weaken {A : Type} (R1 R2 : A -> A -> Prop) l :
  (forall a b, R1 a b -> R2 a b) ->
  StronglySorted R1 l -> StronglySorted R2 l.
Proof.
  intros HR. induction 1 as [|a l Hl IH Ha]; constructor; [exact IH|].
  eapply Forall_impl; [exact Ha|]. intros b. apply HR.
Qed.

Lemma StronglySorted_take {A : Type} (R : A -> A -> Prop) n l :
  StronglySorted R l -> StronglySorted R (take n l).
Proof.
  intros Hl. rewrite <- (take_drop n l) in Hl.
  now apply StronglySorted_app_1_l in Hl.
Qed.

End OrderFacts.

(** ** Workspace symbol search: ranking, limit and the export filter *)

Module SymbolSearchProps.
Import GoStrings Symbol SymbolSearch OrderFacts.
Section WithCollaborators.
Context `{Collaborators}.

Lemma Less_by_key a b : Less a b = key_less (rank_key a) (rank_key b).
Proof. reflexivity. Qed.

Lemma string_lex_ordering {B : Type} (ltB : B -> B -> bool) :
  transitive_ordering ltB ->
  transitive_ordering (lex String.eqb lt ltB).
Proof.
  intros HB. apply lex_ordering.
  - apply String.eqb_eq.
  - apply lt_ordering.
  - apply lt_total.
  - exact HB.
Qed.

Lemma Less_ordering : transitive_ordering Less.
Proof.
  apply (ordering_by_key rank_key key_less). unfold key_less.
  apply lex_ordering.
  - apply Z.eqb_eq.
  - apply gt_ordering.
  - intros a b Hab%Z.ltb_ge Hba%Z.ltb_ge. lia.
  - apply string_lex_ordering, string_lex_ordering, lt_ordering.
Qed.

Lemma lt_false_cases a b : lt b a = false -> lt a b = true \/ a = b.
Proof.
  intros Hba. destruct (lt a b) eqn:Hab; [now left|right].
  now apply lt_total.
Qed.

Lemma not_Less_ranked a b : Less b a = false -> ranked_before a b.
Proof.
  unfold Less, ranked_before.
  destruct (Z.eqb (score_of b) (score_of a)) eqn:Es.
  - apply Z.eqb_eq in Es. intros HL. right. split; [now symmetry|].
    destruct (String.eqb (sym_Container (pair_of b))
                         (sym_Container (pair_of a))) eqn:Ec.
    + apply String.eqb_eq in Ec. right. split; [now symmetry|].
      destruct (String.eqb (sym_Name (pair_of b)) (sym_Name (pair_of a)))
        eqn:En.
      * apply String.eqb_eq in En. right. split; [now symmetry|].
        now apply lt_false_cases.
      * apply String.eqb_neq in En.
        destruct (lt_false_cases _ _ HL) as [?|E]; [now left | congruence].
    + apply String.eqb_neq in Ec.
      destruct (lt_false_cases _ _ HL) as [?|E]; [now left | congruence].
  - apply Z.eqb_neq in Es. intros HL%Z.ltb_ge. left. lia.
Qed.

Lemma Collect_elem q results si s :
  s ∈ Collect q results si ->
  s ∈ results
  \/ (s = {| score_of := score q si; pair_of := si |} /\ 0 < score q si).
Proof.
  unfold Collect. destruct (0 <? score q si) eqn:E; [|now left].
  apply Z.ltb_lt in E. intros [Hs|Hs%list_elem_of_singleton]%elem_of_app;
    [now left | now right].
Qed.

Lemma collectFromPkg_elem q syms : forall results s,
  s ∈ fold_left
        (fun results sym =>
           if String.eqb (Filter q) FilterExported && negb (isExported sym)
           then results else Collect q results sym) syms results ->
  s ∈ results
  \/ (score_of s = score q (pair_of s) /\ 0 < score_of s
      /\ (Filter q = FilterExported -> isExported (pair_of s) = true)).
Proof.
  induction syms as [|sym syms IH]; intros results s; simpl; [now left|].
  intros Hs. apply IH in Hs. destruct Hs as [Hs|Hs]; [|now right].
  destruct (String.eqb (Filter q) FilterExported && negb (isExported sym))
    eqn:E; [now left|].
  apply Collect_elem in Hs. destruct Hs as [Hs|[-> Hpos]]; [now left|].
  right. simpl. repeat split; [exact Hpos|].
  intros Hf. apply andb_false_iff in E. destruct E as [E|E].
  - apply String.eqb_neq in E. contradiction.
  - now apply negb_false_iff in E.
Qed.

Lemma handleSymbol_f_ok ctx q limit i pkg results :
  collected_ok q limit results ->
  exists results' err,
    handleSymbol_f ctx q limit i pkg results = Returned results' err
    /\ collected_ok q limit results'.
Proof.
  intros Hok. unfold handleSymbol_f.
  destruct (ctx_Err ctx i); [eauto|].
  destruct (_ && _); [eauto|]. destruct (_ && _); [eauto|].
  destruct (limit <=? Z.of_nat (length results)) eqn:El; [eauto|].
  apply Z.leb_gt in El. do 2 eexists. split; [reflexivity|].
  destruct Hok as [Hall _]. split; [|lia].
  apply Forall_forall. intros s Hs. unfold collectFromPkg in Hs.
  apply collectFromPkg_elem in Hs. destruct Hs as [Hs|Hs]; [|exact Hs].
  now apply (proj1 (Forall_forall _ _) Hall).
Qed.

Lemma Search_handleSymbol ctx q limit pkgs : forall i results,
  collected_ok q limit results ->
  exists results' err,
    Search_from (handleSymbol_f ctx q limit) i pkgs results
    = Returned results' err
    /\ collected_ok q limit results'.
Proof.
  induction pkgs as [|pkg pkgs IH]; intros i results Hok; simpl; [eauto|].
  destruct (handleSymbol_f_ok ctx q limit i pkg results Hok)
    as (r & e & -> & Hr).
  destruct e; [eauto|]. now apply IH.
Qed.

(** The ranked list behind a response of [handleSymbol]. *)
Lemma handleSymbol_ranked `{!SortContract} ctx h q limit :
  exists ranked err,
    handleSymbol ctx h q limit = Returned (Results ranked) err
    /\ StronglySorted ranked_before ranked
    /\ Forall (fun s => score_of s = score q (pair_of s) /\ 0 < score_of s
                        /\ (Filter q = FilterExported ->
                            isExported (pair_of s) = true)) ranked
    /\ Z.of_nat (length ranked) <= Z.max 0 limit.
Proof.
  unfold handleSymbol, Search.
  destruct (Search_handleSymbol ctx q limit (project h) 0%nat [])
    as (results & e & -> & Hall & Hlim).
  { split; [constructor | reflexivity]. }
  destruct e as [e|].
  { exists [], (Some e). repeat split; try constructor. simpl. lia. }
  set (sorted := sort_Sort scoredSymbol Less results).
  assert (Hperm : sorted ≡ₚ results) by apply sort_Sort_perm.
  assert (Hsorted : StronglySorted ranked_before sorted).
  { apply (StronglySorted_weaken (fun a b => Less b a = false)).
    - apply not_Less_ranked.
    - apply sort_Sort_sorted, Less_ordering. }
  assert (Hall' : Forall (fun s => score_of s = score q (pair_of s)
                                   /\ 0 < score_of s
                                   /\ (Filter q = FilterExported ->
                                       isExported (pair_of s) = true)) sorted).
  { now rewrite Hperm. }
  assert (Hlen : length sorted = length results) by now rewrite Hperm.
  destruct ((limit <? Z.of_nat (length sorted)) && (0 <? limit)) eqn:Et.
  - apply andb_prop in Et. destruct Et as [Hlt%Z.ltb_lt Hpos%Z.ltb_lt].
    exists (take (Z.to_nat limit) sorted), None. repeat split.
    + now apply StronglySorted_take.
    + now apply Forall_take.
    + rewrite length_take. lia.
  - exists sorted, None. repeat split; try assumption.
    apply andb_false_iff in Et. destruct Et as [Hge%Z.ltb_ge|Hle%Z.ltb_ge].
    + lia.
    + rewrite Hlen, (Hlim Hle). simpl. lia.
Qed.

Lemma workspace_query_None h params :
  workspace_query h params = None <-> id_not_a_string params.
Proof.
  unfold workspace_query, id_not_a_string.
  set (q0 := setSymbol (ParseQuery (WSQuery params)) (WSSymbol params)).
  assert (Hs : Symbol (if String.eqb (Filter q0) FilterDir
                       then setDir q0 (path_Join (RootImportPath h) (Dir q0))
                       else q0) = WSSymbol params).
  { subst q0. now destruct (String.eqb _ FilterDir). }
  rewrite Hs. destruct (WSSymbol params) as [sym|].
  - destruct (sym !! "id") as [[id|tag]|] eqn:El; simpl.
    + split; [discriminate|]. intros (sym' & tag & [= <-] & E). congruence.
    + split; [|reflexivity]. intros _. now exists sym, tag.
    + split; [discriminate|]. intros (sym' & tag & [= <-] & E). congruence.
  - split; [discriminate|]. now intros (sym' & tag & [=] & _).
Qed.

(** C7: the workspace symbol request returns a response unless its symbol
    descriptor carries an id that is no string (the handler's type assertion
    panics on such an id, and on nothing else).  The response is the
    projection of a list that is ordered by score descending, then container
    name, symbol name and URI ascending, in which every entry carries the
    score of its symbol for the request's query; its length does not exceed
    the request limit, which is 50 when the request gives limit 0. *)
Theorem workspace_symbols_ranked_and_limited `{!SortContract} ctx h params :
  (handleWorkspaceSymbol ctx h params = Panicked <-> id_not_a_string params)
  /\ (~ id_not_a_string params ->
      exists q ranked err,
        workspace_query h params = Some q
        /\ handleWorkspaceSymbol ctx h params = Returned (Results ranked) err
        /\ StronglySorted ranked_before ranked
        /\ Forall (fun s => score_of s = score q (pair_of s)) ranked
        /\ Z.of_nat (length (Results ranked))
           <= Z.max 0 (if Z.eqb (WSLimit params) 0 then 50
                       else WSLimit params))
  /\ (forall res err,
        handleWorkspaceSymbol ctx h params = Returned res err ->
        exists ranked,
          res = Results ranked
          /\ StronglySorted ranked_before ranked
          /\ Z.of_nat (length res)
             <= Z.max 0 (if Z.eqb (WSLimit params) 0 then 50
                         else WSLimit params)).
Proof.
  pose proof (workspace_query_None h params) as Hnone.
  unfold handleWorkspaceSymbol.
  destruct (workspace_query h params) as [q|] eqn:Eq.
  - destruct (handleSymbol_ranked ctx h q (effective_limit (WSLimit params)))
      as (ranked & err & Hr & Hs & Hall & Hlen).
    assert (Hl : Z.of_nat (length (Results ranked))
                 <= Z.max 0 (if Z.eqb (WSLimit params) 0 then 50
                             else WSLimit params)).
    { unfold Results. rewrite length_fmap. exact Hlen. }
    split; [|split].
    + rewrite Hr. split; [discriminate|].
      intros Hid. apply Hnone in Hid. discriminate Hid.
    + intros _. exists q, ranked, err. repeat split; try assumption.
      eapply Forall_impl; [exact Hall|]. now intros s [? _].
    + intros res err' Hres. rewrite Hr in Hres. inversion Hres; subst.
      now exists ranked.
  - split; [|split].
    + split; [intros _; now apply Hnone | reflexivity].
    + intros Hid. destruct Hid. now apply Hnone.
    + discriminate.
Qed.

(** C10: under the [exported] filter every symbol in the response of the
    symbol search has an exported name and, when its container name is not
    empty, an exported container name; a symbol that fails this test is
    never added to the collected results. *)
Theorem exported_filter_only_exported `{!SortContract} ctx h q limit :
  Filter q = FilterExported ->
  (exists res err,
      handleSymbol ctx h q limit = Returned res err
      /\ Forall (fun si =>
                   ast_IsExported (Name si) = true
                   /\ (ContainerName si <> EmptyString ->
                       ast_IsExported (ContainerName si) = true)) res)
  /\ (forall pkg results s,
        s ∈ collectFromPkg q pkg results ->
        s ∈ results \/ isExported (pair_of s) = true).
Proof.
  intros Hf. split.
  - destruct (handleSymbol_ranked ctx h q limit)
      as (ranked & err & -> & _ & Hall & _).
    exists (Results ranked), err. split; [reflexivity|].
    unfold Results. apply Forall_fmap.
    eapply Forall_impl; [exact Hall|]. intros s (_ & _ & He). simpl.
    specialize (He Hf). unfold isExported, sym_Container, sym_Name in He.
    destruct (String.eqb (ContainerName (info (pair_of s))) EmptyString)
      eqn:Ec.
    + apply String.eqb_eq in Ec. split; [exact He|]. now rewrite Ec.
    + apply andb_prop in He. destruct He as [Hc Hn]. now split.
  - intros pkg results s Hs. unfold collectFromPkg in Hs.
    apply collectFromPkg_elem in Hs. destruct Hs as [Hs|(_ & _ & He)];
      [now left | right; now apply He].
Qed.

End WithCollaborators.
End SymbolSearchProps.

(** ** The statements on the sample workspace *)

Module SampleProps.
Import GoStrings Symbol SymbolSearch Sample.

Lemma sample_sort_contract : @SortContract collaborators.
Proof.
  split.
  - intros A less l. apply merge_sort_Permutation.
  - intros A less l (Hir & Htr & Hnt).
    apply (@StronglySorted_merge_sort A (fun a b => less b a = false)).
    + intros a b c Hab Hbc. now apply (Hnt c b a).
    + intros a b. destruct (less b a) eqn:Hba; [right | now left].
      destruct (less a b) eqn:Hab; [|reflexivity].
      pose proof (Htr _ _ _ Hab Hba) as C. now rewrite Hir in C.
Qed.

Example sample_references :
  @References.handleTextDocumentReferences collaborators None handler
    (refParams 0 5)
  = Returned [location 20 "X"; location 30 "X"; location 5 "X"] None.
Proof. vm_compute. reflexivity. Qed.

Example sample_symbols :
  @handleWorkspaceSymbol collaborators None handler
    (symbolParams "is:exported" 0)
  = Returned [info (symbol "Serve" EmptyString SKFunction 7);
              info (symbol "Addr" "Server" SKField 11)] None.
Proof. vm_compute. reflexivity. Qed.

Lemma findReferences_filter_witness :
  (forall j, (j < length (project handler))%nat -> ctx_Err None j = None)
  /\ exists refs,
       @References.findReferences collaborators None handler objX
       = Returned refs None
       /\ (@References.defPkgPath objX <> BuiltinPkg ->
           (forall id, id ∈ refs ->
              exists pkg, pkg ∈ project handler
                /\ (is_Some (GetImport pkg (References.defPkgPath objX))
                    \/ GetPkgPath pkg = References.defPkgPath objX)
                /\ id ∈ @References.uses_of collaborators objX pkg)
           /\ (forall pkg id, pkg ∈ project handler ->
                 is_Some (GetImport pkg (References.defPkgPath objX))
                 \/ GetPkgPath pkg = References.defPkgPath objX ->
                 id ∈ @References.uses_of collaborators objX pkg ->
                 id ∈ refs))
       /\ (obj_pkg objX = None ->
           refs = flat_map (@References.uses_of collaborators objX)
                    (project handler)).
Proof.
  split; [intros j _; reflexivity|].
  apply (@ReferencesProps.findReferences_filter collaborators None handler objX).
  intros j _. reflexivity.
Defined.

(** The package [example/c] uses [X] but neither imports [example/a] nor
    is it: its use at position 40 is not reported. *)
Example sample_findReferences :
  @References.findReferences collaborators None handler objX
  = Returned [ident 20 "X"; ident 30 "X"; ident 30 "X"] None.
Proof. vm_compute. reflexivity. Qed.

(** C2 (as stated): on line 1 the first resolution fails with the
    [InvalidNodeError] of [typeCheck], and neither handler retries: the
    worker is called once and the empty result is returned. *)
Lemma no_retry_on_invalid_node_from_typeCheck :
  @typeCheck collaborators "file:///src/example/a/a.go"
    {| Line := 1; Character := 3 |} = inl InvalidNodeError
  /\ @References.handleTextDocumentReferences_calls collaborators None
       handler (refParams 1 3)
     = ([refParams 1 3], Returned [] None)
  /\ @XDefinition.handleXDefinition_calls collaborators (docParams 1 3)
     = ([docParams 1 3], Returned [] None).
Proof. repeat split. Qed.

Lemma retry_once_on_error_witness :
  @References.handleTextDocumentReferences_calls collaborators None handler
    (refParams 0 6)
  = ([refParams 0 6; refParams 0 5],
     @References.doHandleTextDocumentReferences collaborators None handler
       (refParams 0 5))
  /\ @XDefinition.handleXDefinition_calls collaborators (docParams 0 6)
     = ([docParams 0 6; docParams 0 5],
        @XDefinition.doHandleXDefinition collaborators (docParams 0 5)).
Proof.
  destruct (@RetryProps.retry_once_on_error collaborators None handler)
    as (Href & _ & Hdef & _).
  split.
  - apply (Href (refParams 0 6) []
             (ErrorString "references object not found")). reflexivity.
  - apply (Hdef (docParams 0 6) [] (ErrorString "definition not found")).
    reflexivity.
Defined.

(** At the least [int] the decrement of the retry wraps round to the
    greatest. *)
Example retry_character_wraps :
  Character (References.decCharacter {| Line := 0; Character := - 2 ^ 63 |})
  = 2 ^ 63 - 1.
Proof. vm_compute. reflexivity. Qed.

(** The [InvalidNodeError] that the references worker builds itself, in
    the default case of its node switch, is an error of the worker: on
    line 2 [typeCheck] succeeds, the innermost node is a string literal at
    character 4 as at character 3, the handler retries and returns the
    error of the retry. *)
Example references_error_on_string_literal :
  @GetPathNodes collaborators pkgA 204 = ([NBasicLit], None)
  /\ @References.handleTextDocumentReferences collaborators None handler
       (refParams 2 4)
     = Returned [] (Some InvalidNodeError).
Proof. split; reflexivity. Qed.


Example sample_collect_unlimited :
  @References.refStreamAndCollect collaborators 0 sample_refs 0
  = [location 20 "X"; location 30 "X"; location 40 "X"].
Proof. vm_compute. reflexivity. Qed.

(** The limit cuts the references before duplicates are dropped. *)
Example sample_collect_limit_2 :
  @References.refStreamAndCollect collaborators 0 sample_refs 2
  = [location 20 "X"].
Proof. vm_compute. reflexivity. Qed.

Lemma references_deduplicated_and_limited_witness :
  NoDup (@References.formatLocation collaborators
           <$> @References.refStreamAndCollect collaborators 0 sample_refs 2)
  /\ Z.of_nat (length (@References.refStreamAndCollect collaborators 0
                         sample_refs 2)) <= 2
  /\ @References.refStreamAndCollect collaborators 0 sample_refs 2
     `prefix_of` @References.dedup_first collaborators
                   (@References.discovered collaborators 0 sample_refs).
Proof.
  destruct (@CollectProps.references_deduplicated_and_limited collaborators
              0%nat sample_refs 2) as (Hnd & _ & Hlim & _).
  split; [exact Hnd|]. apply Hlim. reflexivity.
Defined.

Lemma implements_interface_to_bucket_witness :
  (TNamed 1 ∈ Implementation.to
                (@Implementation.classify collaborators (TNamed 100)
                   [1; 2; 100; 101]%nat)
   /\ TPointer (TNamed 2)
      ∈ Implementation.to
          (@Implementation.classify collaborators (TNamed 100)
             [1; 2; 100; 101]%nat))
  /\ @Implementation.classify collaborators (TNamed 101)
       [1; 2; 100; 101]%nat
     = Implementation.no_buckets.
Proof.
  destruct (@ImplementationProps.implements_interface_to_bucket collaborators
              sample_sort_contract (TNamed 100) [1; 2; 100; 101]%nat)
    as (Hto & _).
  destruct (@ImplementationProps.implements_interface_to_bucket collaborators
              sample_sort_contract (TNamed 101) [1; 2; 100; 101]%nat)
    as (_ & Hempty).
  destruct (Hto eq_refl ltac:(discriminate)) as (Hrec & _).
  split; [split|].
  - apply (Hrec 1%nat); [apply list_elem_of_In; simpl; tauto | reflexivity..].
  - apply (Hrec 2%nat); [apply list_elem_of_In; simpl; tauto | reflexivity..].
  - apply (Hempty eq_refl eq_refl).
Defined.

Example sample_classify :
  @Implementation.classify collaborators (TNamed 100) [1; 2; 100; 101]%nat
  = {| Implementation.to := [TNamed 1; TPointer (TNamed 2)];
       Implementation.from := []; Implementation.fromPtr := [] |}.
Proof. vm_compute. reflexivity. Qed.

Lemma workspace_symbols_ranked_and_limited_witness :
  ~ id_not_a_string (symbolParams "a" 1)
  /\ exists q ranked err,
       @workspace_query collaborators handler (symbolParams "a" 1) = Some q
       /\ @handleWorkspaceSymbol collaborators None handler
            (symbolParams "a" 1)
          = Returned (Results ranked) err
       /\ StronglySorted ranked_before ranked
       /\ Forall (fun s => score_of s = @score collaborators q (pair_of s))
            ranked
       /\ Z.of_nat (length (Results ranked))
          <= Z.max 0 (if Z.eqb (WSLimit (symbolParams "a" 1)) 0 then 50
                      else WSLimit (symbolParams "a" 1)).
Proof.
  assert (Hid : ~ id_not_a_string (symbolParams "a" 1)).
  { intros (sym & tag & Hsym & _). discriminate Hsym. }
  split; [exact Hid|].
  exact (proj1 (proj2
           (@SymbolSearchProps.workspace_symbols_ranked_and_limited
              collaborators sample_sort_contract None handler
              (symbolParams "a" 1))) Hid).
Defined.

(** An id that is a number makes the handler panic. *)
Example sample_symbols_id_not_a_string :
  @handleWorkspaceSymbol collaborators None handler
    {| WSQuery := "a"; WSLimit := 1;
       WSSymbol := Some {[ "id" := VOther 0 ]} |}
  = Panicked.
Proof. reflexivity. Qed.

Example sample_symbols_limit_1 :
  @handleWorkspaceSymbol collaborators None handler (symbolParams "a" 1)
  = Returned [info (symbol "Addr" "Server" SKField 11)] None.
Proof. vm_compute. reflexivity. Qed.

Lemma exported_filter_only_exported_witness :
  Filter (ParseQuery "is:exported") = FilterExported
  /\ exists res err,
       @handleSymbol collaborators None handler (ParseQuery "is:exported") 50
       = Returned res err
       /\ Forall (fun si =>
                    @ast_IsExported collaborators (Name si) = true
                    /\ (ContainerName si <> EmptyString ->
                        @ast_IsExported collaborators (ContainerName si)
                        = true)) res.
Proof.
  split; [reflexivity|].
  apply (@SymbolSearchProps.exported_filter_only_exported collaborators
           sample_sort_contract None handler (ParseQuery "is:exported") 50).
  reflexivity.
Defined.

End SampleProps.

(** ** More on [references.go] *)

Module ReferencesMore.
Import GoStrings References ReferencesProps CollectProps.
Section WithCollaborators.
Context `{Collaborators}.

Lemma same_exported_trans x y z :
  same_exported x y = true -> same_exported y z = true ->
  same_exported x z = true.
Proof.
  unfold same_exported.
  destruct (obj_pkg x) as [px|], (obj_pkg y) as [py|], (obj_pkg z) as [pz|];
    try discriminate.
  intros [[[H1 H2]%andb_prop H3]%andb_prop H4]%andb_prop
         [[[H5 H6]%andb_prop H7]%andb_prop H8]%andb_prop.
  apply String.eqb_eq in H1, H2, H5, H6.
  rewrite H1, H5, H2, H6, !String.eqb_refl, H3, H8. reflexivity.
Qed.

Lemma same_unowned_trans x y z :
  same_unowned x y = true -> same_unowned y z = true ->
  same_unowned x z = true.
Proof.
  unfold same_unowned.
  destruct (obj_pkg x), (obj_pkg y), (obj_pkg z); try discriminate.
  intros H1%String.eqb_eq H2%String.eqb_eq. rewrite H1, H2.
  apply String.eqb_refl.
Qed.

Lemma same_exported_owned x y :
  same_exported x y = true -> obj_pkg x <> None /\ obj_pkg y <> None.
Proof.
  unfold same_exported. destruct (obj_pkg x), (obj_pkg y); easy.
Qed.

Lemma same_unowned_None x y :
  same_unowned x y = true -> obj_pkg x = None /\ obj_pkg y = None.
Proof.
  unfold same_unowned. destruct (obj_pkg x), (obj_pkg y); easy.
Qed.

Lemma same_import_kind x y :
  same_import x y = true ->
  (exists i, obj_kind x = KPkgName i) /\ (exists i, obj_kind y = KPkgName i).
Proof.
  unfold same_import.
  destruct (obj_kind x), (obj_kind y); try discriminate. eauto.
Qed.

(** X1: [sameObj] is transitive through an object that is not a package
    name, on a heap where one address holds one object: if [x] matches [y]
    and [y] matches [z], then [x] matches [z]. *)
Theorem sameObj_transitive_through_non_import (x y z : Object) :
  (same_pointer x y = true -> x = y) ->
  (same_pointer y z = true -> y = z) ->
  (forall i, obj_kind y <> KPkgName i) ->
  sameObj x y = true -> sameObj y z = true -> sameObj x z = true.
Proof.
  intros Hxy Hyz Hk. rewrite (sameObj_cases x y), (sameObj_cases y z).
  rewrite !orb_true_iff.
  intros [[[Hp|He]|Hu]|Hi] Hz.
  - rewrite (Hxy Hp), sameObj_cases, !orb_true_iff. exact Hz.
  - destruct Hz as [[[Hp'|He']|Hu']|Hi'].
    + rewrite <- (Hyz Hp'), sameObj_cases, He.
      now rewrite orb_true_r.
    + rewrite sameObj_cases, (same_exported_trans _ _ _ He He').
      now rewrite orb_true_r.
    + apply same_exported_owned in He. apply same_unowned_None in Hu'.
      now destruct He, Hu'.
    + apply same_import_kind in Hi'. destruct Hi' as [[i Hi'] _].
      now destruct (Hk i).
  - destruct Hz as [[[Hp'|He']|Hu']|Hi'].
    + rewrite <- (Hyz Hp'), sameObj_cases, Hu.
      now rewrite orb_true_r.
    + apply same_exported_owned in He'. apply same_unowned_None in Hu.
      now destruct He', Hu.
    + rewrite sameObj_cases, (same_unowned_trans _ _ _ Hu Hu').
      now rewrite orb_true_r.
    + apply same_import_kind in Hi'. destruct Hi' as [[i Hi'] _].
      now destruct (Hk i).
  - apply same_import_kind in Hi. destruct Hi as [_ [i Hi]].
    now destruct (Hk i).
Qed.

Lemma Search_findReferences_cancelled q n pkgs : forall i refs,
  (i <= n)%nat -> (n < i + length pkgs)%nat ->
  exists refs',
    Search_from (findReferences_f (Some n) q) i pkgs refs
    = Returned refs' (Some ContextCanceled).
Proof.
  induction pkgs as [|pkg pkgs IH]; intros i refs Hle Hlt; simpl in *; [lia|].
  destruct (decide (i = n)) as [->|Hne].
  - unfold findReferences_f at 1, ctx_Err. rewrite Nat.leb_refl. eauto.
  - rewrite findReferences_f_live.
    + apply IH; lia.
    + unfold ctx_Err. destruct (n <=? i)%nat eqn:E; [|reflexivity].
      apply Nat.leb_le in E. lia.
Qed.

(** X2: when the request context is cancelled before the walk has polled
    every cached package, [findReferences] returns the context's error and
    no references at all, also not those of the packages scanned before
    the cancellation. *)
Theorem findReferences_cancelled_midway h (queryObj : Object) (n : nat) :
  (n < length (project h))%nat ->
  findReferences (Some n) h queryObj = Returned [] (Some ContextCanceled).
Proof.
  intros Hn. unfold findReferences, Search.
  destruct (Search_findReferences_cancelled queryObj n (project h) 0%nat [])
    as [refs' ->]; [lia | lia | reflexivity].
Qed.

Lemma dedup_first_elem ls x : x ∈ dedup_first ls -> x ∈ ls.
Proof.
  revert x. induction ls as [|y r IH]; intros x; simpl; [easy|].
  intros [->|Hx]%elem_of_cons; [left|right].
  apply list_elem_of_filter in Hx. now apply IH.
Qed.

Lemma dedup_first_keys ls x :
  x ∈ ls -> formatLocation x ∈ formatLocation <$> dedup_first ls.
Proof.
  induction ls as [|y r IH]; [now intros ?%elem_of_nil|].
  simpl dedup_first. rewrite fmap_cons.
  destruct (decide (formatLocation x = formatLocation y)) as [E|E].
  { intros _. rewrite E. left. }
  intros [->|Hx]%elem_of_cons; [easy|]. right.
  apply IH, list_elem_of_fmap in Hx. destruct Hx as (w & Ew & Hw).
  apply list_elem_of_fmap. exists w. split; [exact Ew|].
  apply list_elem_of_filter. split; [congruence | exact Hw].
Qed.

Lemma discovered_elem fset refs loc :
  loc ∈ discovered fset refs
  <-> URI loc <> EmptyString /\ exists n, n ∈ refs /\ loc = location_of fset n.
Proof.
  unfold discovered. rewrite list_elem_of_filter, list_elem_of_fmap.
  split.
  - intros [Hu (n & -> & Hn)]. eauto.
  - intros [Hu (n & Hn & ->)]. eauto.
Qed.

(** X3: every location [refStreamAndCollect] returns has a file URI and is
    the location of one of the references it was given; without a limit
    every reference that has a file is represented in the result by a
    location with its key; with a negative limit nothing is returned. *)
Theorem references_collected_sound_and_complete fset refs limit :
  (forall loc, loc ∈ refStreamAndCollect fset refs limit ->
     URI loc <> EmptyString
     /\ exists n, n ∈ refs /\ loc = location_of fset n)
  /\ (limit = 0 ->
      forall n, n ∈ refs -> URI (location_of fset n) <> EmptyString ->
        formatLocation (location_of fset n)
        ∈ formatLocation <$> refStreamAndCollect fset refs limit)
  /\ (limit < 0 -> refStreamAndCollect fset refs limit = []).
Proof.
  rewrite refStreamAndCollect_take. split; [|split].
  - intros loc Hloc. apply dedup_first_elem, discovered_elem in Hloc.
    destruct Hloc as [Hu (n & Hn & ->)]. split; [exact Hu|].
    exists n. split; [|reflexivity].
    eapply subseteq_take, Hn.
  - intros -> n Hn Hu. simpl. rewrite Z.ltb_irrefl, Nat2Z.id, firstn_all.
    apply dedup_first_keys, discovered_elem. eauto.
  - intros Hneg. simpl. rewrite (proj2 (Z.eqb_neq limit 0)) by lia.
    rewrite (proj2 (Z.ltb_lt limit _)) by lia.
    replace (Z.to_nat limit) with 0%nat by lia. reflexivity.
Qed.

End WithCollaborators.
End ReferencesMore.

(** ** More on [implementation.go] *)

Module ImplementationMore.
Import Implementation ImplementationBuckets SymbolSearch ImplementationProps.
Section WithCollaborators.
Context `{Collaborators}.

Lemma classify_one_from T b U :
  from (classify_one T b U) = from b ++ from_contrib T U.
Proof.
  unfold classify_one, from_contrib.
  repeat (case_match; simpl in *; try discriminate);
    rewrite ?app_nil_r; reflexivity.
Qed.

Lemma classify_one_fromPtr T b U :
  fromPtr (classify_one T b U) = fromPtr b ++ fromPtr_contrib T U.
Proof.
  unfold classify_one, fromPtr_contrib.
  repeat (case_match; simpl in *; try discriminate);
    rewrite ?app_nil_r; reflexivity.
Qed.

Lemma classify_from T allNamed :
  from (classify T allNamed)
  = flat_map (fun id => from_contrib T (TNamed id)) allNamed.
Proof.
  unfold classify. change (flat_map _ allNamed)
    with (from no_buckets ++ flat_map (fun id => from_contrib T (TNamed id))
                               allNamed).
  generalize no_buckets.
  induction allNamed as [|id rest IH]; intros b; simpl.
  - now rewrite app_nil_r.
  - now rewrite IH, classify_one_from, <- app_assoc.
Qed.

Lemma classify_fromPtr T allNamed :
  fromPtr (classify T allNamed)
  = flat_map (fun id => fromPtr_contrib T (TNamed id)) allNamed.
Proof.
  unfold classify. change (flat_map _ allNamed)
    with (fromPtr no_buckets
          ++ flat_map (fun id => fromPtr_contrib T (TNamed id)) allNamed).
  generalize no_buckets.
  induction allNamed as [|id rest IH]; intros b; simpl.
  - now rewrite app_nil_r.
  - now rewrite IH, classify_one_fromPtr, <- app_assoc.
Qed.

Lemma flat_map_nil {A B : Type} (f : A -> list B) l :
  (forall a, f a = []) -> flat_map f l = [].
Proof. intros Hf. induction l as [|a l IH]; simpl; [|rewrite Hf]; easy. Qed.

(** X4: for a concrete selected type [T] the classification loop never
    fills [to]; a candidate [U] is put into [from] exactly when it is a
    non-empty interface that [T] is assignable to, and into [fromPtr]
    exactly when it is a non-empty interface that [T] is not assignable to
    but [*T] is; so no type is in both.  For an interface [T] the bucket
    [fromPtr] stays empty. *)
Theorem implements_concrete_from_buckets (T : Typ) (allNamed : list nat) :
  (isInterface T = false ->
   to (classify T allNamed) = []
   /\ (forall U, U ∈ from (classify T allNamed) <->
         exists u, U = TNamed u /\ u ∈ allNamed
           /\ isInterface U = true /\ MethodSet_Len U <> 0%nat
           /\ AssignableTo T U = true)
   /\ (forall U, U ∈ fromPtr (classify T allNamed) <->
         exists u, U = TNamed u /\ u ∈ allNamed
           /\ isInterface U = true /\ MethodSet_Len U <> 0%nat
           /\ AssignableTo T U = false
           /\ AssignableTo (TPointer T) U = true)
   /\ (forall U, U ∈ from (classify T allNamed) ->
         U ∉ fromPtr (classify T allNamed)))
  /\ (isInterface T = true -> fromPtr (classify T allNamed) = []).
Proof.
  assert (Hfrom : isInterface T = false ->
    forall U, U ∈ from (classify T allNamed) <->
         exists u, U = TNamed u /\ u ∈ allNamed
           /\ isInterface U = true /\ MethodSet_Len U <> 0%nat
           /\ AssignableTo T U = true).
  { intros Hc U. rewrite classify_from, list_elem_of_In, in_flat_map.
    unfold from_contrib. rewrite Hc. split.
    - intros (u & Hu & HU). exists u.
      destruct (isInterface (TNamed u)) eqn:Hi; [|destruct HU].
      destruct (Nat.eqb (MethodSet_Len (TNamed u)) 0) eqn:Hl; [destruct HU|].
      destruct (AssignableTo T (TNamed u)) eqn:Ha; [|destruct HU].
      destruct HU as [<-|[]]. apply Nat.eqb_neq in Hl.
      repeat split; try assumption. now apply list_elem_of_In.
    - intros (u & -> & Hu & Hi & Hl & Ha). exists u.
      split; [now apply list_elem_of_In|].
      apply Nat.eqb_neq in Hl. rewrite Hi, Hl, Ha. now left. }
  assert (HfromPtr : isInterface T = false ->
    forall U, U ∈ fromPtr (classify T allNamed) <->
         exists u, U = TNamed u /\ u ∈ allNamed
           /\ isInterface U = true /\ MethodSet_Len U <> 0%nat
           /\ AssignableTo T U = false
           /\ AssignableTo (TPointer T) U = true).
  { intros Hc U. rewrite classify_fromPtr, list_elem_of_In, in_flat_map.
    unfold fromPtr_contrib. rewrite Hc. split.
    - intros (u & Hu & HU). exists u.
      destruct (isInterface (TNamed u)) eqn:Hi; [|destruct HU].
      destruct (Nat.eqb (MethodSet_Len (TNamed u)) 0) eqn:Hl; [destruct HU|].
      destruct (AssignableTo T (TNamed u)) eqn:Ha; [destruct HU|].
      destruct (AssignableTo (TPointer T) (TNamed u)) eqn:Hp; [|destruct HU].
      destruct HU as [<-|[]]. apply Nat.eqb_neq in Hl.
      repeat split; try assumption. now apply list_elem_of_In.
    - intros (u & -> & Hu & Hi & Hl & Ha & Hp). exists u.
      split; [now apply list_elem_of_In|].
      apply Nat.eqb_neq in Hl. rewrite Hi, Hl, Ha, Hp. now left. }
  split.
  - intros Hc. split; [|split; [|split]].
    + rewrite classify_to. apply flat_map_nil. intros u.
      unfold to_contrib. now rewrite Hc.
    + now apply Hfrom.
    + now apply HfromPtr.
    + intros U HU HP. apply (Hfrom Hc) in HU. apply (HfromPtr Hc) in HP.
      destruct HU as (u & -> & _ & _ & _ & Ha).
      destruct HP as (u' & _ & _ & _ & _ & Ha' & _). congruence.
  - intros Hi. rewrite classify_fromPtr. apply flat_map_nil. intros u.
    unfold fromPtr_contrib. now rewrite Hi.
Qed.

(** One result loop: what it appends carries the loop's [Type] and [Ptr]
    and tells whether a method was asked for; at most one entry per type
    of the bucket. *)
Lemma locations_appends pkg method typ ptr ts : forall seen locs,
  exists new,
    snd (locations pkg method typ ptr ts (seen, locs)) = locs ++ new
    /\ Forall (fun l => IType l = typ /\ IPtr l = ptr
                        /\ IMethod l = bool_decide (method <> None)) new
    /\ (length new <= length ts)%nat.
Proof.
  unfold locations.
  induction ts as [|t ts IH]; intros seen locs; simpl.
  - exists []. rewrite app_nil_r.
    split; [reflexivity|]. split; [constructor | simpl; lia].
  - destruct (toLocation pkg seen t method) as [seen' [loc|]] eqn:E.
    + destruct (IH seen' (locs ++ [ {| ILocation := ILocation loc; IType := typ;
                                       IPtr := ptr; IMethod := IMethod loc |} ]))
        as (new & -> & Hall & Hlen).
      eexists (_ :: new). rewrite <- app_assoc. split; [reflexivity|].
      split; [|simpl; lia]. constructor; [|exact Hall]. simpl.
      split; [reflexivity|]. split; [reflexivity|]. unfold toLocation in E.
      destruct method as [m|].
      * destruct (MethodSet_Lookup t (obj_pkg m) (obj_name m)); [|discriminate].
        destruct (decide _); [discriminate|]. now injection E as <- <-.
      * destruct (Deref t); try discriminate. now injection E as <- <-.
    + destruct (IH seen' locs) as (new & -> & Hall & Hlen).
      exists new. split; [reflexivity|]. split; [exact Hall | lia].
Qed.

(** X5: the result of [implements] lists the [to] locations first, then
    the [from] locations, then the [from] locations reached through the
    pointer, each group no longer than its bucket; [Ptr] is set on the last
    group only and [Method] on every entry exactly when a method was
    selected. *)
Theorem implements_result_layout `{!SortContract} pkg (T : Typ)
    (method : option Object) (allNamed : list nat) :
  exists tos froms fromPtrs,
    implements_from pkg T method allNamed = tos ++ froms ++ fromPtrs
    /\ Forall (fun l => IType l = "to" /\ IPtr l = false) tos
    /\ Forall (fun l => IType l = "from" /\ IPtr l = false) froms
    /\ Forall (fun l => IType l = "from" /\ IPtr l = true) fromPtrs
    /\ Forall (fun l => IMethod l = bool_decide (method <> None))
         (implements_from pkg T method allNamed)
    /\ (length tos <= length (to (classify T allNamed)))%nat
    /\ (length froms <= length (from (classify T allNamed)))%nat
    /\ (length fromPtrs <= length (fromPtr (classify T allNamed)))%nat.
Proof.
  unfold implements_from.
  set (b := classify T allNamed).
  set (to' := sort_Sort Typ typesByString_Less (to b)).
  set (from' := sort_Sort Typ typesByString_Less (from b)).
  set (fromPtr' := sort_Sort Typ typesByString_Less (fromPtr b)).
  assert (Hlt : length to' = length (to b))
    by (subst to'; now rewrite sort_Sort_perm).
  assert (Hlf : length from' = length (from b))
    by (subst from'; now rewrite sort_Sort_perm).
  assert (Hlp : length fromPtr' = length (fromPtr b))
    by (subst fromPtr'; now rewrite sort_Sort_perm).
  destruct (locations pkg method "to" false to' (∅, [])) as [s1 l1] eqn:E1.
  destruct (locations_appends pkg method "to" false to' ∅ [])
    as (tos & H1 & A1 & L1).
  rewrite E1 in H1. simpl in H1. subst l1.
  destruct (locations pkg method "from" false from' (s1, tos))
    as [s2 l2] eqn:E2.
  destruct (locations_appends pkg method "from" false from' s1 tos)
    as (froms & H2 & A2 & L2).
  rewrite E2 in H2. simpl in H2. subst l2.
  destruct (locations_appends pkg method "from" true fromPtr' s2 (tos ++ froms))
    as (fromPtrs & H3 & A3 & L3).
  rewrite H3. exists tos, froms, fromPtrs. rewrite <- app_assoc.
  split; [reflexivity|].
  split; [eapply Forall_impl; [exact A1 | now intros l (? & ? & _)]|].
  split; [eapply Forall_impl; [exact A2 | now intros l (? & ? & _)]|].
  split; [eapply Forall_impl; [exact A3 | now intros l (? & ? & _)]|].
  split; [|lia].
  rewrite !Forall_app. repeat split.
  - eapply Forall_impl; [exact A1 | now intros l (_ & _ & ?)].
  - eapply Forall_impl; [exact A2 | now intros l (_ & _ & ?)].
  - eapply Forall_impl; [exact A3 | now intros l (_ & _ & ?)].
Qed.

Lemma locations_reported_once pkg m typ ptr ts : forall seen locs objs,
  reported_once m pkg seen locs objs ->
  exists objs',
    reported_once m pkg
      (fst (locations pkg (Some m) typ ptr ts (seen, locs)))
      (snd (locations pkg (Some m) typ ptr ts (seen, locs))) objs'.
Proof.
  unfold locations.
  induction ts as [|t ts IH]; intros seen locs objs Hinv; simpl; [eauto|].
  destruct (toLocation pkg seen t (Some m)) as [seen' [loc|]] eqn:E;
    unfold toLocation in E;
    destruct (MethodSet_Lookup t (obj_pkg m) (obj_name m)) as [obj|] eqn:El;
    try destruct (decide (obj_key obj ∈ seen)) as [Hs|Hs];
    try discriminate E; inversion E; subst; clear E;
    try (eapply IH; exact Hinv).
  simpl.
  apply (IH _ _ (objs ++ [obj])).
  destruct Hinv as (Hloc & Hnd & Hseen & Hall).
  split; [|split; [|split]].
  - rewrite !fmap_app, Hloc. reflexivity.
  - rewrite fmap_app. apply NoDup_app. split; [exact Hnd|]. split.
    + intros k (o & -> & Ho)%list_elem_of_fmap Hk.
      apply list_elem_of_singleton in Hk. apply Hs. rewrite <- Hk.
      now apply Hseen.
    + apply NoDup_singleton.
  - intros o [Ho| ->%list_elem_of_singleton]%elem_of_app.
    + apply elem_of_union_r. now apply Hseen.
    + apply elem_of_union_l. now apply elem_of_singleton.
  - apply Forall_app. split; [exact Hall|]. constructor; [eauto | constructor].
Qed.

(** X6: when a method is selected, the locations [implements] returns are
    those of method objects found by [MethodSet.Lookup], and no method
    object is reported twice, also not across the three groups. *)
Theorem implements_methods_reported_once pkg (T : Typ) (m : Object)
    (allNamed : list nat) :
  exists objs,
    ILocation <$> implements_from pkg T (Some m) allNamed
    = object_location pkg <$> objs
    /\ NoDup (obj_key <$> objs)
    /\ Forall (fun o => exists t,
                 MethodSet_Lookup t (obj_pkg m) (obj_name m) = Some o) objs.
Proof.
  unfold implements_from.
  generalize (sort_Sort Typ typesByString_Less (to (classify T allNamed))),
    (sort_Sort Typ typesByString_Less (from (classify T allNamed))),
    (sort_Sort Typ typesByString_Less (fromPtr (classify T allNamed))).
  intros to' from' fromPtr'.
  destruct (locations_reported_once pkg m "to" false to' ∅ [] [])
    as (o1 & H1).
  { split; [reflexivity|]. split; [constructor|].
    split; [now intros o ?%elem_of_nil | constructor]. }
  destruct (locations pkg (Some m) "to" false to' (∅, [])) as [s1 l1].
  destruct (locations_reported_once pkg m "from" false from' s1 l1 o1 H1)
    as (o2 & H2).
  destruct (locations pkg (Some m) "from" false from' (s1, l1)) as [s2 l2].
  destruct (locations_reported_once pkg m "from" true fromPtr' s2 l2 o2 H2)
    as (o3 & H3 & H4 & _ & H5).
  exists o3. split; [exact H3|]. split; [exact H4 | exact H5].
Qed.

End WithCollaborators.
End ImplementationMore.

(** ** More on the symbol search *)

Module SymbolSearchMore.
Import GoStrings Symbol SymbolSearch SymbolFilters OrderFacts SymbolSearchProps.
Section WithCollaborators.
Context `{Collaborators}.

Lemma score_positive q s : 0 < score q s -> passes_query q s.
Proof.
  unfold score, passes_query.
  destruct (Z.eqb (QKind q) 0) eqn:Ek0; simpl.
  - apply Z.eqb_eq in Ek0.
    destruct (Symbol q) as [sym|] eqn:Es.
    + destruct (desc_Contains (desc s) sym) eqn:Ed; simpl; [|lia].
      destruct (util_IsURI (sym_URI s)) eqn:Eu; simpl; [|lia].
      destruct (String.eqb (File q) EmptyString) eqn:Ef; simpl.
      * apply String.eqb_eq in Ef. intros _.
        split; [easy|]. split; [now intros ? [= <-]|]. now split.
      * destruct (String.eqb (util_UriToPath (sym_URI s)) (File q)) eqn:Ep;
          simpl; [|lia].
        apply String.eqb_eq in Ep. intros _.
        split; [easy|]. split; [now intros ? [= <-]|]. now split.
    + destruct (util_IsURI (sym_URI s)) eqn:Eu; simpl; [|lia].
      destruct (String.eqb (File q) EmptyString) eqn:Ef; simpl.
      * apply String.eqb_eq in Ef. intros _.
        split; [easy|]. split; [discriminate|]. now split.
      * destruct (String.eqb (util_UriToPath (sym_URI s)) (File q)) eqn:Ep;
          simpl; [|lia].
        apply String.eqb_eq in Ep. intros _.
        split; [easy|]. split; [discriminate|]. now split.
  - destruct (Z.eqb (QKind q) (Kind (info s))) eqn:Ek; simpl; [|lia].
    apply Z.eqb_eq in Ek.
    destruct (Symbol q) as [sym|] eqn:Es.
    + destruct (desc_Contains (desc s) sym) eqn:Ed; simpl; [|lia].
      destruct (util_IsURI (sym_URI s)) eqn:Eu; simpl; [|lia].
      destruct (String.eqb (File q) EmptyString) eqn:Ef; simpl.
      * apply String.eqb_eq in Ef. intros _.
        split; [easy|]. split; [now intros ? [= <-]|]. now split.
      * destruct (String.eqb (util_UriToPath (sym_URI s)) (File q)) eqn:Ep;
          simpl; [|lia].
        apply String.eqb_eq in Ep. intros _.
        split; [easy|]. split; [now intros ? [= <-]|]. now split.
    + destruct (util_IsURI (sym_URI s)) eqn:Eu; simpl; [|lia].
      destruct (String.eqb (File q) EmptyString) eqn:Ef; simpl.
      * apply String.eqb_eq in Ef. intros _.
        split; [easy|]. split; [discriminate|]. now split.
      * destruct (String.eqb (util_UriToPath (sym_URI s)) (File q)) eqn:Ep;
          simpl; [|lia].
        apply String.eqb_eq in Ep. intros _.
        split; [easy|]. split; [discriminate|]. now split.
Qed.

Lemma collectFromPkg_from q pkgs pkg results :
  pkg ∈ pkgs -> package_searched q pkg ->
  Forall (collected_from q pkgs) results ->
  Forall (collected_from q pkgs) (collectFromPkg q pkg results).
Proof.
  intros Hpkg Hsearched. unfold collectFromPkg.
  assert (Hsub : forall sym, sym ∈ astPkgToSymbols pkg ->
                             sym ∈ astPkgToSymbols pkg) by easy.
  revert Hsub results. generalize (astPkgToSymbols pkg) at 1 3.
  intros syms. induction syms as [|sym syms IH]; intros Hsub results Hall;
    simpl; [exact Hall|].
  apply IH; [intros x Hx; apply Hsub; now right|].
  destruct (String.eqb (Filter q) FilterExported && negb (isExported sym));
    [exact Hall|].
  unfold Collect. destruct (0 <? score q sym) eqn:E; [|exact Hall].
  apply Z.ltb_lt in E. apply Forall_app. split; [exact Hall|].
  constructor; [|constructor]. exists pkg. simpl.
  repeat split; try assumption; try apply Hsearched. apply Hsub. left.
Qed.

Lemma Search_handleSymbol_from ctx q limit all pkgs : forall i results,
  (forall p, p ∈ pkgs -> p ∈ all) ->
  Forall (collected_from q all) results ->
  exists results' err,
    Search_from (handleSymbol_f ctx q limit) i pkgs results
    = Returned results' err
    /\ Forall (collected_from q all) results'.
Proof.
  induction pkgs as [|pkg pkgs IH]; intros i results Hsub Hall; simpl;
    [eauto|].
  assert (Hnext : forall r,
            Forall (collected_from q all) r ->
            exists results' err,
              Search_from (handleSymbol_f ctx q limit) (S i) pkgs r
              = Returned results' err
              /\ Forall (collected_from q all) results').
  { intros r Hr. apply IH; [|exact Hr]. intros p Hp. apply Hsub. now right. }
  unfold handleSymbol_f at 1.
  destruct (ctx_Err ctx i); [eauto|].
  destruct (negb (String.eqb (File q) EmptyString)
            && negb (existsb (fun file => util_PathEqual file (File q))
                             (GetFilenames pkg))) eqn:Ef; [now apply Hnext|].
  destruct (String.eqb (Filter q) FilterDir
            && negb (util_PathEqual (GetPkgPath pkg) (Dir q))) eqn:Ed;
    [now apply Hnext|].
  destruct (limit <=? Z.of_nat (length results)); [now apply Hnext|].
  apply Hnext. apply collectFromPkg_from; [apply Hsub; left| |exact Hall].
  split.
  - intros Hfile. apply andb_false_iff in Ef. destruct Ef as [Ef|Ef].
    + apply negb_false_iff, String.eqb_eq in Ef. contradiction.
    + now apply negb_false_iff in Ef.
  - intros Hdir. apply andb_false_iff in Ed. destruct Ed as [Ed|Ed].
    + apply String.eqb_neq in Ed. contradiction.
    + now apply negb_false_iff in Ed.
Qed.

Lemma handleSymbol_from `{!SortContract} ctx h q limit :
  exists ranked err,
    handleSymbol ctx h q limit = Returned (Results ranked) err
    /\ Forall (collected_from q (project h)) ranked.
Proof.
  unfold handleSymbol, Search.
  destruct (Search_handleSymbol_from ctx q limit (project h) (project h)
              0%nat []) as (results & e & -> & Hall);
    [easy | constructor |].
  destruct e as [e|].
  { exists [], (Some e). split; [reflexivity | constructor]. }
  set (sorted := sort_Sort scoredSymbol Less results).
  assert (Hall' : Forall (collected_from q (project h)) sorted).
  { subst sorted. now rewrite sort_Sort_perm. }
  destruct ((limit <? Z.of_nat (length sorted)) && (0 <? limit)).
  - exists (take (Z.to_nat limit) sorted), None.
    split; [reflexivity | now apply Forall_take].
  - exists sorted, None. now split.
Qed.

(** X7: every symbol the symbol search returns has passed the tests of
    the query: it has the query's kind when one is asked for, its
    descriptor contains the query's symbol descriptor when one is given,
    its location is a URI, and the path of that URI is the query's file
    when one is given. *)
Theorem symbol_results_pass_query `{!SortContract} ctx h q limit :
  exists ranked err,
    handleSymbol ctx h q limit = Returned (Results ranked) err
    /\ Forall (fun s => passes_query q (pair_of s)) ranked
    /\ Forall (fun si =>
                 (QKind q <> 0 -> Kind si = QKind q)
                 /\ util_IsURI (URI (SymLocation si)) = true
                 /\ (File q <> EmptyString ->
                     util_UriToPath (URI (SymLocation si)) = File q))
         (Results ranked).
Proof.
  destruct (handleSymbol_from ctx h q limit) as (ranked & err & -> & Hall).
  assert (Hpass : Forall (fun s => passes_query q (pair_of s)) ranked).
  { eapply Forall_impl; [exact Hall|].
    intros s (pkg & _ & _ & _ & Hs & Hpos). apply score_positive.
    now rewrite <- Hs. }
  exists ranked, err. split; [reflexivity|]. split; [exact Hpass|].
  unfold Results. apply Forall_fmap.
  eapply Forall_impl; [exact Hpass|].
  intros s (Hk & _ & Hu & Hf). simpl. now repeat split.
Qed.

(** X8: every symbol the symbol search returns was extracted from a
    package of the cache; under the [dir] filter that package's path equals
    the query's directory, and when the query names a file the package
    contains that file. *)
Theorem symbol_results_from_searched_packages `{!SortContract} ctx h q limit :
  exists ranked err,
    handleSymbol ctx h q limit = Returned (Results ranked) err
    /\ Forall (fun s =>
                 exists pkg, pkg ∈ project h
                   /\ pair_of s ∈ astPkgToSymbols pkg
                   /\ (Filter q = FilterDir ->
                       util_PathEqual (GetPkgPath pkg) (Dir q) = true)
                   /\ (File q <> EmptyString ->
                       exists file, file ∈ GetFilenames pkg
                         /\ util_PathEqual file (File q) = true)) ranked.
Proof.
  destruct (handleSymbol_from ctx h q limit) as (ranked & err & -> & Hall).
  exists ranked, err. split; [reflexivity|].
  eapply Forall_impl; [exact Hall|].
  intros s (pkg & Hpkg & Hs & [Hfile Hdir] & _). exists pkg.
  repeat split; try assumption.
  intros Hf. apply Hfile, existsb_exists in Hf.
  destruct Hf as (file & Hin & Heq). exists file.
  split; [now apply list_elem_of_In | exact Heq].
Qed.

(** X9: [resultSorter.Less] never orders two entries both ways, and two
    entries that it leaves unordered agree in score, container name, name
    and URI. *)
Theorem Less_ties_agree_on_all_keys (a b : scoredSymbol) :
  (Less a b = true -> Less b a = false)
  /\ (Less a b = false -> Less b a = false ->
      score_of a = score_of b
      /\ ContainerName (info (pair_of a)) = ContainerName (info (pair_of b))
      /\ Name (info (pair_of a)) = Name (info (pair_of b))
      /\ URI (SymLocation (info (pair_of a)))
         = URI (SymLocation (info (pair_of b)))).
Proof.
  destruct Less_ordering as (Hir & Htr & _). split.
  - intros Hab. destruct (Less b a) eqn:Hba; [|reflexivity].
    pose proof (Htr _ _ _ Hab Hba) as C. now rewrite Hir in C.
  - unfold Less.
    fold (sym_Container (pair_of a)) (sym_Container (pair_of b))
         (sym_Name (pair_of a)) (sym_Name (pair_of b)).
    rewrite (Z.eqb_sym (score_of b)), (String.eqb_sym (sym_Container (pair_of b))),
      (String.eqb_sym (sym_Name (pair_of b))).
    destruct (Z.eqb (score_of a) (score_of b)) eqn:Es.
    + apply Z.eqb_eq in Es.
      destruct (String.eqb (sym_Container (pair_of a))
                           (sym_Container (pair_of b))) eqn:Ec.
      * apply String.eqb_eq in Ec.
        destruct (String.eqb (sym_Name (pair_of a)) (sym_Name (pair_of b)))
          eqn:En.
        -- apply String.eqb_eq in En. intros H1 H2.
           repeat split; try assumption. now apply lt_total.
        -- apply String.eqb_neq in En. intros H1 H2.
           now destruct En; apply lt_total.
      * apply String.eqb_neq in Ec. intros H1 H2.
        now destruct Ec; apply lt_total.
    + apply Z.eqb_neq in Es. intros H1%Z.ltb_ge H2%Z.ltb_ge. lia.
Qed.

End WithCollaborators.
End SymbolSearchMore.

(** ** More on the query DSL *)

Module QueryMore.
Import GoStrings GoStringsFacts Symbol QueryShape QueryProps.

Lemma to_lower_not_upper c : is_upper (to_lower c) = false.
Proof.
  destruct c as [[] [] [] [] [] [] [] []]; reflexivity.
Qed.

Lemma ToLower_lower s :
  all_chars (fun c => negb (is_upper c)) (ToLower s) = true.
Proof.
  induction s as [|c s IH]; simpl; [reflexivity|].
  now rewrite to_lower_not_upper, IH.
Qed.

Lemma ToLower_app a b : ToLower (a +:+ b) = ToLower a +:+ ToLower b.
Proof.
  induction a as [|c a IH]; [reflexivity|].
  rewrite append_cons. simpl. rewrite IH. now rewrite append_cons.
Qed.

(** Every field that [FieldsFunc] cuts out is not empty, has no separator
    byte, and consists of bytes of the input. *)
Lemma fields_from_chars (P sep : ascii -> bool) s : forall cur,
  all_chars P s = true -> all_chars P cur = true ->
  all_chars (fun c => negb (sep c)) cur = true ->
  Forall (fun f => f <> EmptyString /\ all_chars P f = true
                   /\ all_chars (fun c => negb (sep c)) f = true)
         (fields_from sep s cur).
Proof.
  induction s as [|c s IH]; intros cur Hs Hcur Hsep; simpl.
  - destruct cur; [constructor|].
    constructor; [|constructor]. now repeat split.
  - simpl in Hs. apply andb_prop in Hs. destruct Hs as [Hc Hs].
    destruct (sep c) eqn:Esep.
    + destruct cur.
      * now apply IH.
      * constructor; [now repeat split | now apply IH].
    + apply IH; [exact Hs| |].
      * rewrite all_chars_app, Hcur. simpl. now rewrite Hc.
      * rewrite all_chars_app, Hsep. simpl. now rewrite Esep.
Qed.

Lemma all_chars_substring P s : forall n m,
  all_chars P s = true -> all_chars P (String.substring n m s) = true.
Proof.
  induction s as [|c s IH]; intros n m Hs.
  - now destruct n, m.
  - simpl in Hs. apply andb_prop in Hs. destruct Hs as [Hc Hs].
    destruct n as [|n]; simpl.
    + destruct m as [|m]; [reflexivity|]. simpl. rewrite Hc. now apply IH.
    + now apply IH.
Qed.

Lemma parsed_zero : parsed zeroQuery.
Proof.
  unfold parsed. simpl. repeat split; try tauto; try constructor.
Qed.

Lemma parseToken_parsed qu tok :
  parsed qu -> tok <> EmptyString -> all_chars token_char tok = true ->
  parsed (parseToken qu tok).
Proof.
  intros (Hf & Hd & Hdc & Hk & Hfile & Hsym & Htok) Hne Hch.
  unfold parseToken. destruct (keywords !! tok) as [kind|] eqn:Ek.
  - unfold parsed. simpl. repeat split; try assumption. right. eauto.
  - unfold parsed. simpl. repeat split; try assumption.
    apply Forall_app. split; [exact Htok|].
    constructor; [|constructor]. now repeat split.
Qed.

Lemma parseField_parsed qu field :
  parsed qu -> all_chars field_char field = true ->
  parsed (parseField qu field).
Proof.
  intros Hq Hch. unfold parseField.
  destruct (HasPrefix field "dir:").
  { destruct Hq as (Hf & Hd & Hdc & Hk & Hfile & Hsym & Htok).
    unfold parsed. simpl. repeat split; try assumption.
    - now right; right.
    - discriminate.
    - unfold TrimPrefix. destruct (HasPrefix field "dir:"); [|exact Hch].
      now apply all_chars_substring. }
  destruct (String.eqb field "is:exported").
  { destruct Hq as (Hf & Hd & Hdc & Hk & Hfile & Hsym & Htok).
    unfold parsed. simpl. repeat split; try assumption.
    - now right; left.
    - discriminate. }
  pose proof (fields_from_chars field_char is_dot_or_slash field EmptyString
                Hch eq_refl eq_refl) as Htoks.
  unfold FieldsFunc. revert qu Hq.
  induction Htoks as [|tok toks (Hne & Hp & Hs) _ IH]; intros qu Hq; simpl;
    [exact Hq|].
  apply IH, parseToken_parsed; [exact Hq | exact Hne|].
  clear -Hp Hs. induction tok as [|c tok IHt]; [reflexivity|].
  simpl in *. apply andb_prop in Hp. destruct Hp as [Hc Hp].
  apply andb_prop in Hs. destruct Hs as [Hd Hs].
  unfold token_char at 1. rewrite Hc, Hd. simpl. now apply IHt.
Qed.

(** X10: whatever the ASCII input, the query [ParseQuery] builds has one
    of the three filters, a directory only together with a filter, a kind
    that is zero or has a keyword, no file and no symbol descriptor; its
    tokens are not empty, are no keywords, and contain no capital letter,
    white space, dot or slash. *)
Theorem ParseQuery_shape (s : string) :
  ascii_string s -> parsed (ParseQuery s).
Proof.
  intros _. unfold ParseQuery.
  assert (Hfs : Forall (fun f => all_chars field_char f = true)
                       (Fields (ToLower s))).
  { pose proof (fields_from_chars (fun c => negb (is_upper c)) is_space
                  (ToLower s) EmptyString (ToLower_lower s) eq_refl eq_refl)
      as Hf.
    eapply Forall_impl; [exact Hf|]. intros f (_ & Hu & Hsp).
    clear -Hu Hsp. induction f as [|c f IH]; [reflexivity|].
    simpl in *. apply andb_prop in Hu. destruct Hu as [Hc Hu].
    apply andb_prop in Hsp. destruct Hsp as [Hd Hsp].
    unfold field_char at 1. rewrite Hc, Hd. simpl. now apply IH. }
  pose proof parsed_zero as Hq. revert Hq. generalize zeroQuery.
  induction Hfs as [|f fs Hf _ IH]; intros qu Hq; simpl; [exact Hq|].
  now apply IH, parseField_parsed.
Qed.

Lemma ParseQuery_shape_witness :
  ascii_string "dir:Net/HTTP  Func Serve.Mux is:exported"
  /\ parsed (ParseQuery "dir:Net/HTTP  Func Serve.Mux is:exported").
Proof.
  split; [reflexivity|].
  apply (ParseQuery_shape "dir:Net/HTTP  Func Serve.Mux is:exported").
  reflexivity.
Defined.

Lemma fields_from_sep_app sep a c b : forall cur,
  sep c = true ->
  fields_from sep (a +:+ String c b) cur
  = fields_from sep a cur ++ fields_from sep b EmptyString.
Proof.
  induction a as [|x a IH]; intros cur Hc.
  - simpl. rewrite Hc. now destruct cur.
  - rewrite append_cons. simpl. destruct (sep x).
    + destruct cur; rewrite IH by exact Hc; reflexivity.
    + now apply IH.
Qed.

Lemma Fields_app_space a b :
  Fields (a +:+ " " +:+ b) = Fields a ++ Fields b.
Proof.
  unfold Fields, FieldsFunc.
  change (" " +:+ b) with (String " " b).
  now apply fields_from_sep_app.
Qed.

Lemma parseToken_tokens toks : forall qu,
  Tokens (fold_left parseToken toks qu)
  = Tokens qu ++ filter (fun t => keywords !! t = None) toks.
Proof.
  induction toks as [|t toks IH]; intros qu; simpl.
  - now rewrite app_nil_r.
  - rewrite IH. unfold parseToken.
    destruct (keywords !! t) eqn:E.
    + rewrite filter_cons_False by (rewrite E; discriminate). reflexivity.
    + rewrite filter_cons_True by exact E. simpl. now rewrite <- app_assoc.
Qed.

Lemma parseField_tokens qu field :
  Tokens (parseField qu field) = Tokens qu ++ field_tokens field.
Proof.
  unfold parseField, field_tokens.
  destruct (HasPrefix field "dir:"); [simpl; now rewrite app_nil_r|].
  destruct (String.eqb field "is:exported"); [simpl; now rewrite app_nil_r|].
  apply parseToken_tokens.
Qed.

Lemma parseFields_tokens fs : forall qu,
  Tokens (fold_left parseField fs qu)
  = Tokens qu ++ flat_map field_tokens fs.
Proof.
  induction fs as [|f fs IH]; intros qu; simpl.
  - now rewrite app_nil_r.
  - now rewrite IH, parseField_tokens, <- app_assoc.
Qed.

(** X11: parsing two ASCII query strings joined by a space is parsing the
    second on top of the result of the first; in particular the tokens of
    the joined query are the tokens of the first followed by the tokens of
    the second, and lower-casing the input first changes nothing. *)
Theorem ParseQuery_of_joined (a b : string) :
  ascii_string a -> ascii_string b ->
  ParseQuery (a +:+ " " +:+ b)
  = fold_left parseField (Fields (ToLower b)) (ParseQuery a)
  /\ Tokens (ParseQuery (a +:+ " " +:+ b))
     = Tokens (ParseQuery a) ++ Tokens (ParseQuery b)
  /\ ParseQuery (ToLower a) = ParseQuery a.
Proof.
  intros _ _.
  assert (H1 : ParseQuery (a +:+ " " +:+ b)
               = fold_left parseField (Fields (ToLower b)) (ParseQuery a)).
  { unfold ParseQuery. rewrite ToLower_app.
    change (ToLower (" " +:+ b)) with (" " +:+ ToLower b).
    now rewrite Fields_app_space, fold_left_app. }
  split; [exact H1|]. split.
  - rewrite H1, parseFields_tokens. f_equal.
    unfold ParseQuery. now rewrite parseFields_tokens.
  - unfold ParseQuery. now rewrite (ToLower_fixed _ (ToLower_lower a)).
Qed.

Lemma ParseQuery_of_joined_witness :
  Tokens (ParseQuery ("Foo.bar" +:+ " " +:+ "is:exported Baz"))
  = Tokens (ParseQuery "Foo.bar") ++ Tokens (ParseQuery "is:exported Baz").
Proof.
  apply (ParseQuery_of_joined "Foo.bar" "is:exported Baz"); reflexivity.
Defined.

Lemma trim_left_head s c r : trim_left s = String c r -> is_space c = false.
Proof.
  induction s as [|x s IH]; [discriminate|]. simpl.
  destruct (is_space x) eqn:E; [exact IH|]. now intros [= <- _].
Qed.

Lemma trim_right_head c r :
  is_space c = false -> exists r', trim_right (String c r) = String c r'.
Proof.
  intros Hc. simpl. rewrite Hc. destruct (trim_right r); eauto.
Qed.

Lemma trim_right_last s : forall r c,
  trim_right s = r +:+ String c EmptyString -> is_space c = false.
Proof.
  induction s as [|x s IH]; intros r c; simpl.
  - now destruct r.
  - destruct (trim_right s) as [|y t] eqn:E.
    + destruct (is_space x) eqn:Ex; [now destruct r|].
      destruct r as [|z r]; [now intros [= <-]|].
      rewrite append_cons. intros [= _ Hr]. now destruct r.
    + destruct r as [|z r]; [discriminate|].
      rewrite append_cons. intros [= _ Hr]. now apply (IH r c).
Qed.

Lemma TrimSpace_trimmed s : trimmed (TrimSpace s).
Proof.
  unfold TrimSpace. split.
  - intros c r E. destruct (trim_left s) as [|x t] eqn:El; [discriminate|].
    pose proof (trim_left_head _ _ _ El) as Hx.
    destruct (trim_right_head x t Hx) as [r' Hr]. rewrite Hr in E.
    now injection E as <- _.
  - intros r c. apply trim_right_last.
Qed.

Lemma string_last s :
  s <> EmptyString -> exists r c, s = r +:+ String c EmptyString.
Proof.
  induction s as [|x s IH]; [easy|]. intros _.
  destruct s as [|y s].
  - now exists EmptyString, x.
  - destruct IH as (r & c & E); [discriminate|].
    exists (String x r), c. rewrite append_cons. now rewrite <- E.
Qed.

Lemma trimmed_fixed s : trimmed s -> TrimSpace s = s.
Proof.
  intros [Hh Hl]. destruct s as [|c s]; [reflexivity|].
  unfold TrimSpace. rewrite trim_left_nospace by now apply (Hh c s).
  destruct (string_last (String c s)) as (r & d & E); [discriminate|].
  rewrite E. apply trim_right_app; [discriminate|].
  simpl. now rewrite (Hl r d E).
Qed.

Lemma queryJoin_trimmed s e : trimmed (queryJoin s e).
Proof. apply TrimSpace_trimmed. Qed.

Lemma fold_queryJoin_trimmed ps : forall s,
  trimmed s -> trimmed (fold_left queryJoin ps s).
Proof.
  induction ps as [|p ps IH]; intros s Hs; simpl; [exact Hs|].
  apply IH, queryJoin_trimmed.
Qed.

(** X12: the string of a query whose directory and tokens are ASCII never
    begins or ends with white space, whatever else the query holds and
    whatever order the keyword map is iterated in; so [strings.TrimSpace]
    leaves it unchanged. *)
Theorem Query_String_has_no_outer_space entries (q : Query) :
  entries ≡ₚ map_to_list keywords ->
  ascii_string (Dir q) ->
  Forall ascii_string (Tokens q) ->
  trimmed (Query_String_in entries q)
  /\ TrimSpace (Query_String_in entries q) = Query_String_in entries q.
Proof.
  intros _ _ _.
  assert (H : trimmed (Query_String_in entries q)).
  { rewrite Query_String_parts. apply fold_queryJoin_trimmed.
    split; [discriminate|]. intros r c E. now destruct r. }
  split; [exact H | now apply trimmed_fixed].
Qed.

Lemma Query_String_has_no_outer_space_witness :
  trimmed (Query_String spaced_query)
  /\ TrimSpace (Query_String spaced_query) = Query_String spaced_query.
Proof.
  apply (Query_String_has_no_outer_space (map_to_list keywords) spaced_query).
  - reflexivity.
  - reflexivity.
  - repeat constructor.
Defined.

Example spaced_query_string :
  Query_String spaced_query = "dir:net func  a  b".
Proof. vm_compute. reflexivity. Qed.

End QueryMore.

(** ** More on the hover printer *)

Module HoverMore.
Import GoStrings GoStringsFacts Hover HoverStruct.

Lemma not_special c :
  negb (is_special c) = true ->
  Ascii.eqb c ";" = false /\ Ascii.eqb c "034" = false
  /\ Ascii.eqb c "092" = false /\ Ascii.eqb c "{" = false
  /\ Ascii.eqb c "}" = false.
Proof.
  unfold is_special. intros Hc. apply negb_true_iff in Hc.
  repeat (apply orb_false_elim in Hc; destruct Hc as [Hc ?]). now repeat split.
Qed.

(** Plain text is copied to the buffer byte for byte. *)
Lemma pp_loop_plain w : forall rest depth inTag b,
  plain w = true ->
  pp_loop (w +:+ rest) depth inTag b = pp_loop rest depth inTag (b +:+ w).
Proof.
  induction w as [|c w IH]; intros rest depth inTag b Hw.
  - now rewrite append_empty_r.
  - unfold plain in Hw. simpl in Hw. apply andb_prop in Hw.
    destruct Hw as [Hc Hw]. apply not_special in Hc.
    destruct Hc as (H1 & H2 & H3 & H4 & H5).
    rewrite append_cons. simpl. rewrite H1, H2, H3, H4, H5.
    rewrite IH by exact Hw. now rewrite append_assoc.
Qed.

(** The fields after the first one, up to the closing brace. *)
Lemma pp_loop_fields fs : forall f b,
  Forall (fun f => plain f = true) (f :: fs) ->
  pp_loop (field_list (f :: fs) +:+ "}") 1 false b
  = Some (b +:+ f +:+ field_lines fs +:+ String "010" "}").
Proof.
  induction fs as [|g fs IH]; intros f b Hall.
  - inversion Hall as [|? ? Hf _]; subst. simpl field_list.
    rewrite pp_loop_plain by exact Hf. simpl.
    now rewrite !append_assoc.
  - inversion Hall as [|? ? Hf Hrest]; subst.
    change (field_list (f :: g :: fs))
      with (f +:+ "; " +:+ field_list (g :: fs)).
    rewrite !append_assoc. rewrite pp_loop_plain by exact Hf.
    change ("; " +:+ field_list (g :: fs) +:+ "}")
      with (String ";" (String " " (field_list (g :: fs) +:+ "}"))).
    remember (field_list (g :: fs) +:+ "}") as body eqn:Eb.
    simpl pp_loop at 1. subst body.
    rewrite IH by exact Hrest. f_equal.
    change (indent 1) with "    ". simpl field_lines.
    rewrite !append_assoc. do 2 f_equal.
    transitivity (String "010" (("    " +:+ g +:+ field_lines fs)
                                +:+ String "010" "}")); [|reflexivity].
    rewrite !append_assoc. reflexivity.
Qed.

Lemma field_line_append f rest z :
  String "010" ("    " +:+ f +:+ rest) +:+ z
  = String "010" EmptyString +:+ "    " +:+ f +:+ rest +:+ z.
Proof.
  transitivity (String "010" (("    " +:+ f +:+ rest) +:+ z)); [reflexivity|].
  rewrite !append_assoc. reflexivity.
Qed.

Lemma pp_loop_open n r depth inTag b :
  Ascii.eqb n "}" = false ->
  pp_loop (String "{" (String n r)) depth inTag b
  = pp_loop (String n r) (depth + 1) inTag
      (b +:+ " {" +:+ String "010" EmptyString +:+ indent (depth + 1)).
Proof.
  intros Hn. remember (String n r) as rest eqn:E.
  simpl. rewrite E at 1. now rewrite Hn.
Qed.

Lemma HasSuffix_cons c s p :
  HasSuffix (String c s) p = String.eqb (String c s) p || HasSuffix s p.
Proof. reflexivity. Qed.

Lemma length_append a b :
  String.length (a +:+ b) = (String.length a + String.length b)%nat.
Proof.
  induction a as [|c a IH]; [reflexivity|].
  rewrite append_cons. simpl. now rewrite IH.
Qed.

(** A text whose last byte before the closing brace is no opening brace
    does not end in the empty pair. *)
Lemma no_empty_braces_suffix x c :
  Ascii.eqb c "{" = false ->
  HasSuffix (x +:+ String c "}") "{}" = false.
Proof.
  intros Hc. induction x as [|a x IH].
  - change (EmptyString +:+ String c "}") with (String c "}").
    rewrite !HasSuffix_cons. simpl. rewrite Hc. reflexivity.
  - rewrite append_cons, HasSuffix_cons, IH, orb_false_r.
    apply String.eqb_neq. intros E.
    apply (f_equal String.length) in E. simpl in E.
    rewrite length_append in E. simpl in E. lia.
Qed.

Lemma plain_last w :
  w <> EmptyString -> plain w = true ->
  exists r c, w = r +:+ String c EmptyString /\ Ascii.eqb c "{" = false.
Proof.
  intros Hne Hw. induction w as [|x w IH]; [easy|].
  unfold plain in Hw. simpl in Hw. apply andb_prop in Hw.
  destruct Hw as [Hx Hw]. destruct w as [|y w].
  - exists EmptyString, x. split; [reflexivity|]. now apply not_special in Hx.
  - destruct IH as (r & c & E & Hc); [discriminate | exact Hw|].
    exists (String x r), c. rewrite append_cons, <- E. now split.
Qed.

Lemma field_list_last fs :
  fs <> [] -> Forall (fun f => f <> EmptyString /\ plain f = true) fs ->
  exists r c, field_list fs = r +:+ String c EmptyString
              /\ Ascii.eqb c "{" = false.
Proof.
  intros Hne Hall. induction Hall as [|f fs [Hf Hp] Hrest IH]; [easy|].
  destruct fs as [|g fs].
  - now apply plain_last.
  - destruct IH as (r & c & E & Hc); [discriminate|].
    exists (f +:+ "; " +:+ r), c.
    change (field_list (f :: g :: fs))
      with (f +:+ "; " +:+ field_list (g :: fs)).
    rewrite E, !append_assoc. now split.
Qed.

(** X13: the printer lays out a struct type with plain, non-empty fields
    as the head, an opening brace, one line per field indented by four
    spaces, and the closing brace on a line of its own. *)
Theorem pretty_struct_one_field_per_line (head : string) (fs : list string) :
  plain head = true ->
  fs <> [] ->
  Forall (fun f => f <> EmptyString /\ plain f = true) fs ->
  prettyPrintTypesString (flat_struct head fs)
  = head +:+ " {" +:+ field_lines fs +:+ String "010" "}".
Proof.
  intros Hh Hne Hall. unfold prettyPrintTypesString, flat_struct.
  destruct (field_list_last fs Hne Hall) as (r & c & E & Hc).
  assert (Hsuf : HasSuffix (head +:+ "{" +:+ field_list fs +:+ "}") "{}"
                 = false).
  { rewrite E, <- !append_assoc, (append_assoc _ (String c EmptyString)).
    now apply no_empty_braces_suffix. }
  rewrite Hsuf. rewrite pp_loop_plain by exact Hh.
  destruct fs as [|f fs]; [easy|].
  assert (Hplain : Forall (fun f => plain f = true) (f :: fs)).
  { eapply Forall_impl; [exact Hall | now intros ? [_ ?]]. }
  inversion Hall as [|? ? [Hf Hp] _]; subst.
  assert (Hfirst : exists x t, field_list (f :: fs) +:+ "}" = String x t
                               /\ Ascii.eqb x "}" = false).
  { destruct f as [|x f]; [easy|]. unfold plain in Hp. simpl in Hp.
    apply andb_prop in Hp. destruct Hp as [Hx _]. apply not_special in Hx.
    destruct fs as [|g fs].
    - exists x, (f +:+ "}"). now split.
    - exists x, (f +:+ "; " +:+ field_list (g :: fs) +:+ "}").
      change (field_list (String x f :: g :: fs))
        with (String x f +:+ "; " +:+ field_list (g :: fs)).
      rewrite !append_assoc, append_cons. now split. }
  destruct Hfirst as (x & t & Ex & Hx).
  change ("{" +:+ field_list (f :: fs) +:+ "}")
    with (String "{" (field_list (f :: fs) +:+ "}")).
  rewrite Ex, pp_loop_open by exact Hx. rewrite <- Ex.
  rewrite (pp_loop_fields fs f) by exact Hplain.
  change (indent (0 + 1)) with "    ". simpl field_lines.
  change (EmptyString +:+ head) with head.
  rewrite field_line_append, !append_assoc. reflexivity.
Qed.

End HoverMore.

(** ** The definition requests *)

Module DefinitionMore.
Import XDefinition TypeDefinition.
Section WithCollaborators.
Context `{Collaborators}.

Lemma lookupIdentDefinition_short pkg pathNodes ident res err :
  lookupIdentDefinition pkg pathNodes ident = Returned res err ->
  (length res <= 1)%nat /\ (err <> None -> res = []).
Proof.
  unfold lookupIdentDefinition.
  repeat case_match; intros [= <- <-]; simpl; split; (lia || easy).
Qed.

Lemma doHandleXDefinition_short params res err :
  doHandleXDefinition params = Returned res err ->
  (length res <= 1)%nat /\ (err <> None -> res = []).
Proof.
  unfold doHandleXDefinition, lookupCallExprDefinition.
  repeat case_match; subst;
    try (intros [= <- <-]; simpl; split; (lia || easy));
    try apply lookupIdentDefinition_short.
Qed.

Lemma handleXDefinition_short params res err :
  handleXDefinition params = Returned res err ->
  (length res <= 1)%nat /\ (err <> None -> res = []).
Proof.
  unfold handleXDefinition, handleXDefinition_calls.
  destruct (doHandleXDefinition params) as [r [e|]|] eqn:E; simpl.
  - apply doHandleXDefinition_short.
  - intros [= <- <-]. now apply doHandleXDefinition_short in E.
  - discriminate.
Qed.

Lemma typeLocations_spec res :
  (length (typeLocations res) <= length res)%nat
  /\ Forall (fun l => URI l <> EmptyString) (typeLocations res)
  /\ (forall l, l ∈ typeLocations res ->
        exists li, li ∈ res /\ l = TypeLocation li).
Proof.
  unfold typeLocations, omap.
  induction res as [|li res (IH1 & IH2 & IH3)]; simpl.
  - split; [lia|]. split; [constructor|]. now intros l ?%elem_of_nil.
  - destruct (String.eqb (URI (TypeLocation li)) EmptyString) eqn:E; simpl.
    + split; [lia|]. split; [exact IH2|].
      intros l Hl. destruct (IH3 l Hl) as (li' & ? & ?). exists li'.
      split; [now right | assumption].
    + apply String.eqb_neq in E. split; [lia|].
      split; [now constructor|].
      intros l [->|Hl]%elem_of_cons.
      * exists li. split; [left | reflexivity].
      * destruct (IH3 l Hl) as (li' & ? & ?). exists li'.
        split; [now right | assumption].
Qed.

(** X14: a definition request and a type definition request on the same
    position end the same way (both panic, both fail with the same error,
    or both succeed); each returns at most one location and none together
    with an error; and every type location returned has a file URI. *)
Theorem definition_requests_return_at_most_one
    (params : TextDocumentPositionParams) :
  (handleDefinition params = Panicked <->
   handleTypeDefinition params = Panicked)
  /\ (forall e, (exists locs, handleDefinition params = Returned locs (Some e))
                <-> (exists locs,
                       handleTypeDefinition params = Returned locs (Some e)))
  /\ (forall locs err, handleDefinition params = Returned locs err ->
        (length locs <= 1)%nat /\ (err <> None -> locs = []))
  /\ (forall locs err, handleTypeDefinition params = Returned locs err ->
        (length locs <= 1)%nat /\ (err <> None -> locs = [])
        /\ Forall (fun l => URI l <> EmptyString) locs).
Proof.
  unfold handleDefinition, handleTypeDefinition.
  destruct (handleXDefinition params) as [res [e|]|] eqn:E.
  - split; [easy|]. split.
    { intros e'. split; intros [locs [= <- <-]]; eauto. }
    split; intros locs err [= <- <-]; simpl; repeat split;
      try lia; try easy; constructor.
  - apply handleXDefinition_short in E. destruct E as [Hlen _].
    destruct (typeLocations_spec res) as (Hl & Hu & _).
    split; [easy|]. split.
    { intros e'. split; intros [locs [=]]. }
    split; intros locs err [= <- <-].
    + rewrite length_fmap. now split.
    + split; [lia|]. now split.
  - split; [easy|]. split.
    { intros e'. split; intros [locs [=]]. }
    split; intros locs err [=].
Qed.

End WithCollaborators.
End DefinitionMore.

(** ** The rebuild policy of the project cache *)

Module RebuildProps.
Import GoStrings GoInt Rebuild.
Section WithURIs.
Variable ToURI : string -> string.
Variable rebuildCaches : Project -> string -> Project.

Lemma wrap_small z : in_range z -> wrap z = z.
Proof.
  unfold wrap, in_range. intros Hz.
  rewrite Z.mod_small by lia. lia.
Qed.

(** What [update] does with an event that reaches the counter. *)
Lemma update_counted p ev :
  keeps_count rebuildCaches ->
  counted ToURI ev -> 0 <= changedCount p <= 20 ->
  update ToURI rebuildCaches p ev
  = if Z.eqb (changedCount p) 20
    then ({| changedCount := 0; lastBuildTime := ev_done ev |}, true)
    else if 60 * Second <=? Time_Sub (ev_now ev) (lastBuildTime p)
         then ({| changedCount := changedCount p + 1;
                  lastBuildTime := ev_done ev |}, true)
         else ({| changedCount := changedCount p + 1;
                  lastBuildTime := lastBuildTime p |}, false).
Proof.
  intros Hk (Hm & Hl & Hg & Hf) Hc. unfold update, needRebuild.
  rewrite Hm, Hl, Hg. simpl.
  rewrite bool_decide_eq_false_2 by exact Hf.
  rewrite wrap_small by (unfold in_range; lia).
  destruct (Z.eqb (changedCount p) 20) eqn:E.
  - apply Z.eqb_eq in E. rewrite (proj2 (Z.ltb_lt 20 _)) by lia.
    now rewrite Hk.
  - apply Z.eqb_neq in E. rewrite (proj2 (Z.ltb_ge 20 _)) by lia.
    destruct (60 * Second <=? _); [|reflexivity]. now rewrite Hk.
Qed.

Lemma update_bounded p ev :
  keeps_count rebuildCaches ->
  0 <= changedCount p <= 20 ->
  0 <= changedCount (fst (update ToURI rebuildCaches p ev)) <= 20.
Proof.
  intros Hk Hc. unfold update, needRebuild.
  destruct (HasSuffix (ev_name ev) gomod); [simpl; now rewrite Hk|].
  destruct (HasPrefix (ev_name ev) emacsLockPrefix); [exact Hc|].
  destruct (negb (HasSuffix (ev_name ev) goext)); [exact Hc|].
  destruct (bool_decide _); [exact Hc|]. simpl.
  rewrite wrap_small by (unfold in_range; lia).
  destruct (20 <? changedCount p + 1) eqn:E; simpl; [rewrite Hk; simpl; lia|].
  apply Z.ltb_ge in E. destruct (60 * Second <=? _); simpl;
    rewrite ?Hk; simpl; lia.
Qed.

Lemma updates_bounded evs : forall p,
  keeps_count rebuildCaches ->
  0 <= changedCount p <= 20 ->
  0 <= changedCount (fst (updates ToURI rebuildCaches p evs)) <= 20.
Proof.
  induction evs as [|ev evs IH]; intros p Hk Hc; simpl; [exact Hc|].
  pose proof (update_bounded p ev Hk Hc) as Hu.
  destruct (update ToURI rebuildCaches p ev) as [p1 r]. simpl in Hu.
  specialize (IH p1 Hk Hu).
  destruct (updates ToURI rebuildCaches p1 evs) as [p2 rs]. exact IH.
Qed.

Lemma updates_rebuild evs : forall p,
  keeps_count rebuildCaches ->
  0 <= changedCount p <= 20 ->
  Forall (counted ToURI) evs ->
  21 - changedCount p <= Z.of_nat (length evs) ->
  true ∈ snd (updates ToURI rebuildCaches p evs).
Proof.
  induction evs as [|ev evs IH]; intros p Hk Hc Hall Hlen; simpl in *; [lia|].
  inversion Hall as [|? ? Hev Hrest]; subst.
  pose proof (update_counted p ev Hk Hev Hc) as Hu.
  destruct (update ToURI rebuildCaches p ev) as [p1 r].
  destruct (Z.eqb (changedCount p) 20) eqn:E.
  { injection Hu as -> ->. destruct (updates ToURI rebuildCaches _ evs). left. }
  apply Z.eqb_neq in E.
  destruct (60 * Second <=? _).
  { injection Hu as -> ->. destruct (updates ToURI rebuildCaches _ evs). left. }
  injection Hu as -> ->.
  specialize (IH {| changedCount := changedCount p + 1;
                    lastBuildTime := lastBuildTime p |} Hk).
  destruct (updates ToURI rebuildCaches _ evs) as [p2 rs]. simpl in *. right.
  apply IH; [lia | exact Hrest | lia].
Qed.

(** X15: provided the cache rebuilds leave the change counter alone, over
    any sequence of file system events the counter stays between 0 and 20,
    and of any 21 events in a row that reach the counter ([.go] files that
    are no lock files and not held by the view) at least one rebuilds the
    caches, however little time has passed. *)
Theorem rebuild_at_least_every_21_changes (p : Project) (evs : list Event) :
  (forall p name, changedCount (rebuildCaches p name) = changedCount p) ->
  0 <= changedCount p <= 20 ->
  0 <= changedCount (fst (updates ToURI rebuildCaches p evs)) <= 20
  /\ (Forall (counted ToURI) evs -> (21 <= length evs)%nat ->
      true ∈ snd (updates ToURI rebuildCaches p evs)).
Proof.
  intros Hk Hc. split; [now apply updates_bounded|].
  intros Hall Hlen. apply updates_rebuild; [exact Hk|exact Hc|exact Hall|lia].
Qed.

(** X16: an event whose name ends in [go.mod] always rebuilds the caches,
    also when it is a lock file, and [needRebuild] leaves the change
    counter as it is; an event that is a lock file, or is no [.go] file, or
    names a file the view holds, rebuilds nothing and changes nothing; an
    event that reaches the counter rebuilds exactly when it is the 21st
    since the counter was reset or at least 60 seconds have passed since
    the last build. *)
Theorem rebuild_decision (p : Project) (ev : Event) :
  (forall p name, changedCount (rebuildCaches p name) = changedCount p) ->
  0 <= changedCount p <= 20 ->
  (HasSuffix (ev_name ev) gomod = true ->
   needRebuild ToURI p (ev_files ev) (ev_now ev) (ev_name ev) = (p, true)
   /\ update ToURI rebuildCaches p ev
      = ({| changedCount := changedCount p; lastBuildTime := ev_done ev |},
         true))
  /\ (HasSuffix (ev_name ev) gomod = false ->
      HasPrefix (ev_name ev) emacsLockPrefix = true
      \/ HasSuffix (ev_name ev) goext = false
      \/ ToURI (ev_name ev) ∈ ev_files ev ->
      update ToURI rebuildCaches p ev = (p, false))
  /\ (counted ToURI ev ->
      (snd (update ToURI rebuildCaches p ev) = true <->
       changedCount p = 20
       \/ 60 * Second <= ev_now ev - lastBuildTime p)).
Proof.
  intros Hk Hc. split; [|split].
  - intros Hm. unfold update, needRebuild. rewrite Hm.
    split; [reflexivity|]. now rewrite Hk.
  - intros Hm Hskip. unfold update, needRebuild. rewrite Hm.
    destruct (HasPrefix (ev_name ev) emacsLockPrefix); [reflexivity|].
    destruct (HasSuffix (ev_name ev) goext); simpl; [|reflexivity].
    destruct Hskip as [?|[?|Hf]]; try discriminate.
    now rewrite bool_decide_eq_true_2.
  - intros Hev. rewrite update_counted by assumption.
    destruct (Z.eqb (changedCount p) 20) eqn:E.
    { apply Z.eqb_eq in E. simpl. tauto. }
    apply Z.eqb_neq in E.
    destruct (60 * Second <=? Time_Sub (ev_now ev) (lastBuildTime p)) eqn:Et;
      simpl.
    + apply Z.leb_le in Et. split; [|reflexivity]. intros _. right.
      unfold Time_Sub, Second in *. lia.
    + apply Z.leb_gt in Et. split; [discriminate|].
      intros [?|Ht]; [contradiction|]. unfold Time_Sub, Second in *. lia.
Qed.

End WithURIs.
End RebuildProps.

(** ** The symbol collector *)

Module CollectorProps.
Import GoStrings Symbol SymbolSearch SymbolFilters Collector.
Section WithCollaborators.
Context `{Collaborators}.
Variable path_Clean : string -> string.

Lemma addSymbol_collected p c name recv container kind pos :
  all_collected path_Clean p c ->
  (kind = SKField /\ container = EmptyString)
  \/ (kind = SKMethod /\ container = recv)
  \/ ((kind = SKFunction \/ kind = SKConstant)
      /\ recv = EmptyString /\ container = EmptyString)
  \/ ((kind = SKClass \/ kind = SKInterface \/ kind = SKVariable)
      /\ recv = EmptyString /\ container = EmptyString /\ name <> "_") ->
  all_collected path_Clean p (addSymbol path_Clean c name recv container kind pos).
Proof.
  intros [Hp Hall] Hkind. split; [exact Hp|]. simpl.
  apply Forall_app. split; [exact Hall|]. constructor; [|constructor].
  rewrite Hp. unfold collected, toSym. simpl.
  split; [eauto|]. do 5 (split; [reflexivity|]).
  destruct Hkind as [[-> ->]|[[-> ->]|[(Hk & -> & ->)|(Hk & -> & -> & Hn)]]].
  - now left.
  - now right; left.
  - now right; right; left.
  - now right; right; right.
Qed.

Lemma addContainer_collected p c containerName fields kind pos :
  all_collected path_Clean p c ->
  kind = SKClass \/ kind = SKInterface -> containerName <> "_" ->
  all_collected path_Clean p (addContainer path_Clean c containerName fields kind pos).
Proof.
  intros Hc Hk Hn. unfold addContainer.
  apply addSymbol_collected; [|right; right; right; tauto].
  revert c Hc. induction fields as [|names fields IH]; intros c Hc; simpl;
    [exact Hc|].
  apply IH. clear IH. revert c Hc.
  induction names as [|fieldName names IH]; intros c Hc; simpl; [exact Hc|].
  apply IH, addSymbol_collected; [exact Hc | now left].
Qed.

Lemma Visit_collected p c n c' :
  all_collected path_Clean p c -> Visit path_Clean c n = Some c' -> all_collected path_Clean p c'.
Proof.
  intros Hc. destruct n as [name typ|tok tokPos specs|recv name|]; simpl.
  - destruct (String.eqb (IdentName name) "_") eqn:E; simpl;
      [now intros [= <-]|].
    apply String.eqb_neq in E.
    destruct typ; intros [= <-].
    + apply addContainer_collected; [exact Hc | now left | exact E].
    + apply addContainer_collected; [exact Hc | now right | exact E].
    + apply addSymbol_collected; [exact Hc|]. right; right; right. tauto.
  - destruct tok; try (now intros [= <-]);
      destruct (specNames specs) as [names|]; try discriminate;
      intros [= <-]; revert c Hc;
      induction names as [|name names IH]; intros c Hc; simpl;
      try exact Hc; apply IH.
    + apply addSymbol_collected; [exact Hc|]. right; right; left. tauto.
    + destruct (String.eqb name "_") eqn:E; simpl; [exact Hc|].
      apply String.eqb_neq in E.
      apply addSymbol_collected; [exact Hc|]. right; right; right. tauto.
  - intros [= <-]. unfold addFuncDecl. destruct recv as [list|].
    + apply addSymbol_collected; [exact Hc|]. right; left. tauto.
    + apply addSymbol_collected; [exact Hc|]. right; right; left. tauto.
  - now intros [= <-].
Qed.

Lemma walk_collected p nodes : forall c c',
  all_collected path_Clean p c -> walk path_Clean c nodes = Some c' ->
  all_collected path_Clean p c'.
Proof.
  induction nodes as [|n nodes IH]; intros c c' Hc; simpl.
  - now intros [= <-].
  - destruct (Visit path_Clean c n) as [c1|] eqn:E; [|discriminate].
    apply IH. now apply (Visit_collected p c n).
Qed.

Lemma walks_collected p syntax : forall c c',
  all_collected path_Clean p c ->
  fold_left
    (fun c src => match c with
                  | Some c => walk path_Clean c src
                  | None => None
                  end) syntax (Some c) = Some c' ->
  all_collected path_Clean p c'.
Proof.
  induction syntax as [|src syntax IH]; intros c c' Hc; simpl.
  - now intros [= <-].
  - destruct (walk path_Clean c src) as [c1|] eqn:E.
    + apply IH. now apply (walk_collected p src c).
    + intros Hf. exfalso. clear -Hf.
      induction syntax as [|s syntax IH]; [discriminate | now apply IH].
Qed.

Lemma astPkgToSymbols_walk_collected p syntax syms :
  astPkgToSymbols_walk path_Clean p syntax = Some syms ->
  Forall (collected path_Clean p) syms.
Proof.
  unfold astPkgToSymbols_walk.
  destruct (fold_left _ syntax _) as [c|] eqn:E; [|discriminate].
  intros [= <-]. apply (walks_collected p syntax _ c) in E; [apply E|].
  split; [reflexivity | constructor].
Qed.

Lemma astFileToSymbols_collected p astFile syms :
  astFileToSymbols path_Clean p astFile = Some syms ->
  Forall (collected path_Clean p) syms.
Proof.
  unfold astFileToSymbols.
  destruct (walk path_Clean _ astFile) as [c|] eqn:E; [|discriminate].
  intros [= <-]. apply (walk_collected p astFile _ c) in E; [apply E|].
  split; [reflexivity | constructor].
Qed.

(** X17: every symbol the collector extracts from a package, or from one
    file for the document symbols, carries the cleaned package path, the
    package name and its own name in its descriptor, an id of the form
    [path/-/name] or [path/-/container/name], and a location computed from
    its name; only fields and methods have a container; and no type and no
    variable named [_] is extracted. *)
Theorem collected_symbols_shape (p : Package) (syntax : list (list AstNode))
    (syms : list symbolPair) :
  astPkgToSymbols_walk path_Clean p syntax = Some syms ->
  Forall (collected path_Clean p) syms
  /\ Forall (fun s => ContainerName (info s) <> EmptyString ->
                      Kind (info s) = SKField \/ Kind (info s) = SKMethod)
            syms
  /\ Forall (fun s => Name (info s) = "_" ->
                      Kind (info s) <> SKClass
                      /\ Kind (info s) <> SKInterface
                      /\ Kind (info s) <> SKVariable) syms
  /\ (forall astFile fileSyms,
        astFileToSymbols path_Clean p astFile = Some fileSyms ->
        Forall (collected path_Clean p) fileSyms).
Proof.
  intros Hw. apply astPkgToSymbols_walk_collected in Hw.
  split; [exact Hw|]. split; [|split].
  - eapply Forall_impl; [exact Hw|].
    intros s (_ & _ & _ & _ & _ & _ & Hk) Hc.
    destruct Hk as [[? _]|[[? _]|[(_ & ? & _)|(_ & ? & _)]]]; tauto.
  - eapply Forall_impl; [exact Hw|].
    intros s (_ & _ & _ & _ & _ & _ & Hk) Hn.
    destruct Hk as [[-> _]|[[-> _]|[([->| ->] & _)|(_ & _ & _ & ?)]]];
      try contradiction; repeat split; discriminate.
  - apply astFileToSymbols_collected.
Qed.

Lemma addSymbol_keeps c name recv container kind pos s :
  s ∈ pkgSyms c ->
  s ∈ pkgSyms (addSymbol path_Clean c name recv container kind pos).
Proof. intros Hs. simpl. apply elem_of_app. now left. Qed.

Lemma Visit_keeps c n c' s :
  Visit path_Clean c n = Some c' -> s ∈ pkgSyms c -> s ∈ pkgSyms c'.
Proof.
  destruct n as [name typ|tok tokPos specs|recv name|]; simpl.
  - destruct (negb (String.eqb (IdentName name) "_")); [|now intros [= <-]].
    assert (Hcont : forall fields kind pos,
              s ∈ pkgSyms c ->
              s ∈ pkgSyms (addContainer path_Clean c (IdentName name) fields
                             kind pos)).
    { intros fields kind pos Hs. unfold addContainer.
      apply addSymbol_keeps. revert c Hs.
      induction fields as [|names fields IH]; intros c Hs; simpl; [exact Hs|].
      apply IH. clear IH. revert c Hs.
      induction names as [|f names IH]; intros c Hs; simpl; [exact Hs|].
      now apply IH, addSymbol_keeps. }
    destruct typ; intros [= <-] Hs; try now apply Hcont.
    now apply addSymbol_keeps.
  - destruct tok; try (now intros [= <-]);
      destruct (specNames specs) as [names|]; try discriminate;
      intros [= <-]; revert c;
      induction names as [|name names IH]; intros c Hs; simpl;
      try exact Hs; apply IH.
    + now apply addSymbol_keeps.
    + destruct (negb (String.eqb name "_")); [|exact Hs].
      now apply addSymbol_keeps.
  - intros [= <-] Hs. unfold addFuncDecl.
    destruct recv; now apply addSymbol_keeps.
  - now intros [= <-].
Qed.

Lemma walk_keeps nodes : forall c c' s,
  walk path_Clean c nodes = Some c' -> s ∈ pkgSyms c -> s ∈ pkgSyms c'.
Proof.
  induction nodes as [|n nodes IH]; intros c c' s; simpl.
  - now intros [= <-].
  - destruct (Visit path_Clean c n) as [c1|] eqn:E; [|discriminate].
    intros Hw Hs. apply (IH c1); [exact Hw|]. now apply (Visit_keeps c n).
Qed.

Lemma walk_method nodes x name : forall c c',
  walk path_Clean c nodes = Some c' ->
  AFuncDecl (Some [EStarExpr x]) name ∈ nodes ->
  exists s, s ∈ pkgSyms c'
    /\ Name (info s) = IdentName name
    /\ Kind (info s) = SKMethod
    /\ ContainerName (info s) = "*" +:+ recvString x.
Proof.
  induction nodes as [|n nodes IH]; intros c c' Hw Hin;
    [now apply elem_of_nil in Hin|].
  simpl in Hw. destruct (Visit path_Clean c n) as [c1|] eqn:E; [|discriminate].
  apply elem_of_cons in Hin. destruct Hin as [<-|Hin]; [|now apply (IH c1)].
  simpl in E. injection E as <-.
  exists (toSym path_Clean (IdentName name) (pkg c) ("*" +:+ recvString x)
            ("*" +:+ recvString x) SKMethod (GetFileSet (pkg c))
            (NamePos name)).
  split; [|now repeat split].
  apply (walk_keeps nodes _ c' _ Hw). simpl. apply elem_of_app. right. left.
Qed.

Lemma walks_keeps syntax : forall c c' s,
  fold_left
    (fun c src => match c with
                  | Some c => walk path_Clean c src
                  | None => None
                  end) syntax (Some c) = Some c' ->
  s ∈ pkgSyms c -> s ∈ pkgSyms c'.
Proof.
  induction syntax as [|src syntax IH]; intros c c' s; simpl.
  - now intros [= <-].
  - destruct (walk path_Clean c src) as [c1|] eqn:E.
    + intros Hf Hs. apply (IH c1); [exact Hf|]. now apply (walk_keeps src c).
    + intros Hf. exfalso. clear -Hf.
      induction syntax as [|s0 syntax IH]; [discriminate | now apply IH].
Qed.

(** X18: a method declared on a pointer receiver is extracted with the
    container name [*T]; as [ast.IsExported] rejects a name that begins
    with a star, [isExported] rejects the method, whatever its own name. *)
Theorem pointer_receiver_methods_not_exported (p : Package)
    (syntax : list (list AstNode)) (syms : list symbolPair)
    (src : list AstNode) (x : Expr) (name : Ident) :
  (forall t, ast_IsExported ("*" +:+ t) = false) ->
  astPkgToSymbols_walk path_Clean p syntax = Some syms ->
  src ∈ syntax ->
  AFuncDecl (Some [EStarExpr x]) name ∈ src ->
  exists s, s ∈ syms
    /\ Name (info s) = IdentName name
    /\ Kind (info s) = SKMethod
    /\ ContainerName (info s) = "*" +:+ recvString x
    /\ isExported s = false.
Proof.
  intros Hstar Hw Hsrc Hin. unfold astPkgToSymbols_walk in Hw.
  destruct (fold_left _ syntax _) as [c'|] eqn:E; [|discriminate].
  injection Hw as <-.
  assert (Hs : exists s, s ∈ pkgSyms c'
                 /\ Name (info s) = IdentName name
                 /\ Kind (info s) = SKMethod
                 /\ ContainerName (info s) = "*" +:+ recvString x).
  { revert E. generalize {| pkgSyms := []; pkg := p |}.
    induction syntax as [|src' syntax IH]; intros c E;
      [now apply elem_of_nil in Hsrc|].
    simpl in E. destruct (walk path_Clean c src') as [c1|] eqn:E1.
    - apply elem_of_cons in Hsrc. destruct Hsrc as [->|Hsrc].
      + destruct (walk_method src' x name c c1 E1 Hin) as (s & Hs & Hrest).
        exists s. split; [|exact Hrest]. now apply (walks_keeps syntax c1).
      + now apply (IH Hsrc c1).
    - exfalso. clear -E.
      induction syntax as [|s0 syntax IH]; [discriminate | now apply IH]. }
  destruct Hs as (s & Hs & Hn & Hk & Hc). exists s.
  assert (He : isExported s = false).
  { unfold isExported, sym_Container. rewrite Hc.
    change (String.eqb ("*" +:+ recvString x) EmptyString) with false.
    now rewrite Hstar. }
  now repeat split.
Qed.


End WithCollaborators.
End CollectorProps.

(** ** The search for [go.mod] files *)

Module ProjectWalkProps.
Import GoStrings GoInt ProjectWalk.
Section WithFiles.
Variable ReadDir : string -> option (list (string * bool)).
Variable filepath_Join : string -> string -> string.

Lemma wrap_id z : - 2 ^ 63 <= z < 2 ^ 63 -> wrap z = z.
Proof. unfold wrap. intros Hz. rewrite Z.mod_small by lia. lia. Qed.

Lemma walkDir_gomod n : forall rootDir level acc,
  0 <= level -> (Z.to_nat (9 - level) < n)%nat ->
  walkDir ReadDir filepath_Join (collectGoMod filepath_Join) n rootDir level acc
  = Some (acc ++ gomod_files ReadDir filepath_Join (Z.to_nat (9 - level))
                   rootDir, None).
Proof.
  induction n as [|n IH]; intros rootDir level acc Hl Hn; [lia|].
  simpl. destruct (8 <? level) eqn:E.
  { apply Z.ltb_lt in E. replace (Z.to_nat (9 - level)) with 0%nat by lia.
    simpl. now rewrite app_nil_r. }
  apply Z.ltb_ge in E.
  replace (Z.to_nat (9 - level)) with (S (Z.to_nat (9 - (level + 1))))
    in * by lia.
  simpl. destruct (ReadDir rootDir) as [files|]; [|now rewrite app_nil_r].
  revert acc. induction files as [|[name isDir] files IHf]; intros acc.
  { simpl. now rewrite app_nil_r. }
  cbn [flat_map]. destruct (isExclude name).
  { rewrite IHf. reflexivity. }
  destruct isDir.
  - rewrite (wrap_id (level + 1)) by lia.
    rewrite IH by lia.
    replace (level + 1 - 1) with level by lia.
    rewrite (wrap_id level) by lia.
    rewrite IHf, <- app_assoc. reflexivity.
  - rewrite IHf. unfold collectGoMod.
    destruct (String.eqb name gomod); [|reflexivity].
    now rewrite <- app_assoc.
Qed.

Lemma gomod_files_reaches depth : forall root p,
  p ∈ gomod_files ReadDir filepath_Join depth root <->
  exists dir k files,
    (k < depth)%nat /\ reaches ReadDir filepath_Join root dir k
    /\ ReadDir dir = Some files /\ (gomod, false) ∈ files
    /\ p = filepath_Join dir gomod.
Proof.
  induction depth as [|depth IH]; intros root p; simpl.
  { split; [now intros ?%elem_of_nil | intros (? & ? & ? & ? & _); lia]. }
  split.
  - destruct (ReadDir root) as [files|] eqn:Er; [|now intros ?%elem_of_nil].
    rewrite list_elem_of_In, in_flat_map.
    intros ([name isDir] & Hin & Hp). apply list_elem_of_In in Hin.
    destruct (isExclude name) eqn:Ex; [destruct Hp|].
    destruct isDir.
    + apply list_elem_of_In, IH in Hp.
      destruct Hp as (dir & k & fs & Hk & Hr & Hd & Hg & ->).
      exists dir, (S k), fs. repeat split; try assumption; [lia|].
      now apply (reaches_down _ _ root files name).
    + destruct (String.eqb name gomod) eqn:En; [|destruct Hp].
      apply String.eqb_eq in En. subst name. destruct Hp as [<-|[]].
      exists root, 0%nat, files. repeat split; try assumption; [lia|].
      constructor.
  - intros (dir & k & fs & Hk & Hr & Hd & Hg & ->).
    inversion Hr as [|? files name ? k' Hroot Hin Hex Hr']; subst.
    + rewrite Hd. apply list_elem_of_In, in_flat_map.
      exists (gomod, false). split; [now apply list_elem_of_In|].
      simpl. now left.
    + rewrite Hroot. apply list_elem_of_In, in_flat_map.
      exists (name, true). split; [now apply list_elem_of_In|].
      rewrite Hex. apply list_elem_of_In, IH.
      exists dir, k', fs. repeat split; try assumption. lia.
Qed.

(** X20: [findGoModFiles] returns exactly the [go.mod] files of the
    directories that lie at most eight levels below the root and are
    reached through directories that can be read and are not in the exclude
    list; a directory that cannot be read is skipped, and the walk itself
    never reports an error. *)
Theorem findGoModFiles_finds_reachable_gomods (rootDir : string) :
  exists found,
    walkDir ReadDir filepath_Join (collectGoMod filepath_Join) 10 rootDir 0 []
    = Some (found, None)
    /\ findGoModFiles ReadDir filepath_Join rootDir = Some found
    /\ forall p,
         p ∈ found <->
         exists dir k files,
           (k <= 8)%nat /\ reaches ReadDir filepath_Join rootDir dir k
           /\ ReadDir dir = Some files /\ (gomod, false) ∈ files
           /\ p = filepath_Join dir gomod.
Proof.
  exists (gomod_files ReadDir filepath_Join 9 rootDir).
  assert (Hw : walkDir ReadDir filepath_Join (collectGoMod filepath_Join) 10
                 rootDir 0 []
               = Some (gomod_files ReadDir filepath_Join 9 rootDir, None)).
  { rewrite walkDir_gomod by (simpl; lia). reflexivity. }
  split; [exact Hw|]. split.
  - unfold findGoModFiles. now rewrite Hw.
  - intros p. rewrite gomod_files_reaches. split.
    + intros (dir & k & fs & Hk & H). exists dir, k, fs.
      split; [lia | exact H].
    + intros (dir & k & fs & Hk & H). exists dir, k, fs.
      split; [lia | exact H].
Qed.

End WithFiles.
End ProjectWalkProps.

(** ** The id of a symbol as a directory hint *)

Module SymbolIdProps.
Import GoStrings Symbol SymbolSearch Collector.
Section WithCollaborators.
Context `{Collaborators}.
Variable path_Clean : string -> string.

Lemma prefix_cons a s1 b s2 :
  String.prefix (String a s1) (String b s2)
  = if ascii_dec a b then String.prefix s1 s2 else false.
Proof. reflexivity. Qed.

Lemma prefix_empty s : String.prefix EmptyString s = true.
Proof. now destruct s. Qed.

Lemma prefix_of_empty a s : String.prefix (String a s) EmptyString = false.
Proof. reflexivity. Qed.

Ltac prefix_cases :=
  repeat (rewrite ?prefix_cons, ?prefix_empty, ?prefix_of_empty;
          match goal with
          | |- context [ascii_dec ?a ?b] =>
              destruct (ascii_dec a b); try discriminate; try congruence
          end);
  rewrite ?prefix_cons, ?prefix_empty, ?prefix_of_empty; try reflexivity.

Lemma prefix_sep_inside c P rest :
  String.prefix "/-/" (String c P +:+ "/-/" +:+ rest)
  = String.prefix "/-/" (String c P +:+ "/-").
Proof.
  change ("/-/" +:+ rest) with (String "/" (String "-" (String "/" rest))).
  destruct P as [|c1 [|c2 P]]; rewrite ?append_cons.
  - change (EmptyString +:+ String "/" (String "-" (String "/" rest)))
      with (String "/" (String "-" (String "/" rest))).
    change (EmptyString +:+ "/-") with (String "/" (String "-" EmptyString)).
    prefix_cases.
  - change (EmptyString +:+ String "/" (String "-" (String "/" rest)))
      with (String "/" (String "-" (String "/" rest))).
    change (EmptyString +:+ "/-") with (String "/" (String "-" EmptyString)).
    prefix_cases.
  - prefix_cases.
Qed.

Lemma before_sep_unfold s sep :
  before_sep s sep
  = if String.prefix sep s then EmptyString
    else match s with
         | EmptyString => EmptyString
         | String c r => String c (before_sep r sep)
         end.
Proof. now destruct s. Qed.

Lemma before_sep_id P rest :
  Contains (P +:+ "/-") "/-/" = false ->
  before_sep (P +:+ "/-/" +:+ rest) "/-/" = P.
Proof.
  induction P as [|c P IH]; intros Hc.
  - change (EmptyString +:+ "/-/" +:+ rest)
      with (String "/" (String "-" (String "/" rest))).
    rewrite before_sep_unfold. prefix_cases.
  - change (Contains (String c P +:+ "/-") "/-/")
      with (String.prefix "/-/" (String c P +:+ "/-")
            || Contains (P +:+ "/-") "/-/") in Hc.
    apply orb_false_elim in Hc. destruct Hc as [Hp Hc].
    rewrite before_sep_unfold, prefix_sep_inside, Hp, append_cons.
    now rewrite IH.
Qed.

(** X21: the id of a collected symbol gives back its package: when a
    workspace symbol request carries that id in its symbol descriptor, the
    query is turned into a [dir] query for the cleaned path of the package
    the symbol was collected from (provided that path, followed by [/-],
    does not itself contain the separator [/-/]). *)
Theorem symbol_id_is_a_dir_hint (h : LangHandler)
    (params : WorkspaceSymbolParams) (p : Package) (s : symbolPair)
    (sym : gmap string Value) :
  collected path_Clean p s ->
  Contains (path_Clean (GetPkgPath p) +:+ "/-") "/-/" = false ->
  WSSymbol params = Some sym ->
  sym !! "id" = Some (VString (ID (desc s))) ->
  exists q,
    workspace_query h params = Some q
    /\ Filter q = FilterDir
    /\ Dir q = path_Clean (GetPkgPath p).
Proof.
  intros (_ & _ & HP & _ & _ & Hid & _) Hsep Hsym Hlookup.
  unfold workspace_query.
  set (q0 := setSymbol (ParseQuery (WSQuery params)) (WSSymbol params)).
  set (q1 := if String.eqb (Filter q0) FilterDir
             then setDir q0 (path_Join (RootImportPath h) (Dir q0)) else q0).
  assert (Hs : Symbol q1 = Some sym).
  { subst q1 q0. destruct (String.eqb _ FilterDir); simpl; exact Hsym. }
  rewrite Hs, Hlookup. simpl. eexists. split; [reflexivity|].
  simpl. split; [reflexivity|].
  rewrite Hid, HP.
  destruct (String.eqb (ContainerName (info s)) EmptyString);
    now apply before_sep_id.
Qed.

End WithCollaborators.
End SymbolIdProps.

(** ** The documentation target of a position *)

Module DocTargetProps.
Import GoInt DocTarget SymbolSearch OrderFacts.
Section WithCollaborators.
Context `{Collaborators}.
Variable Position_of : Z -> TokenPosition.

Lemma first_found_finds target {X : Type} (find : X -> option DocItem)
    items :
  finds Position_of target find items ->
  finds Position_of target (first_found find) (flat_map items).
Proof.
  intros Hf xs. induction xs as [|x xs IH]; simpl.
  - now intros y ?%elem_of_nil.
  - specialize (Hf x). destruct (find x) as [r|].
    + destruct Hf as [Hin Hr]. split; [|exact Hr].
      apply elem_of_app. now left.
    + destruct (first_found find xs) as [r|].
      * destruct IH as [Hin Hr]. split; [|exact Hr].
        apply elem_of_app. now right.
      * intros y [Hy|Hy]%elem_of_app; [now apply Hf | now apply IH].
Qed.

Lemma flat_map_singleton {X Y : Type} (f : X -> Y) (xs : list X) :
  flat_map (fun x => [f x]) xs = f <$> xs.
Proof. induction xs as [|x xs IH]; simpl; [|rewrite IH]; reflexivity. Qed.

Lemma findValue_finds target :
  finds Position_of target (findValue Position_of target) (fun v => [ItemValue v]).
Proof.
  intros v. unfold findValue.
  destruct (decl_inRange Position_of target (ValueDecl v)) eqn:E.
  - split; [left | exact E].
  - now intros y ->%list_elem_of_singleton.
Qed.

Lemma findFunc_finds target :
  finds Position_of target (findFunc Position_of target) (fun v => [ItemFunc v]).
Proof.
  intros v. unfold findFunc.
  destruct (decl_inRange Position_of target (FuncDecl v)) eqn:E.
  - split; [left | exact E].
  - now intros y ->%list_elem_of_singleton.
Qed.

Lemma values_find target (vs : list DocValue) :
  match first_found (findValue Position_of target) vs with
  | Some r => r ∈ ItemValue <$> vs
              /\ decl_inRange Position_of target (item_Decl r) = true
  | None => forall y, y ∈ ItemValue <$> vs ->
                      decl_inRange Position_of target (item_Decl y) = false
  end.
Proof.
  pose proof (first_found_finds target _ _ (findValue_finds target) vs) as Hf.
  now rewrite flat_map_singleton in Hf.
Qed.

Lemma funcs_find target (vs : list DocFunc) :
  match first_found (findFunc Position_of target) vs with
  | Some r => r ∈ ItemFunc <$> vs
              /\ decl_inRange Position_of target (item_Decl r) = true
  | None => forall y, y ∈ ItemFunc <$> vs ->
                      decl_inRange Position_of target (item_Decl y) = false
  end.
Proof.
  pose proof (first_found_finds target _ _ (findFunc_finds target) vs) as Hf.
  now rewrite flat_map_singleton in Hf.
Qed.

Lemma findType_finds target :
  finds Position_of target (findType Position_of target) type_items.
Proof.
  intros v. unfold findType, type_items.
  destruct (decl_inRange Position_of target (TypeDecl v)) eqn:E.
  { split; [left | exact E]. }
  pose proof (values_find target (TypeConsts v)) as H1.
  destruct (first_found _ (TypeConsts v)) as [r|].
  { destruct H1 as [Hin Hr]. split; [|exact Hr].
    right. apply elem_of_app. now left. }
  pose proof (values_find target (TypeVars v)) as H2.
  destruct (first_found _ (TypeVars v)) as [r|].
  { destruct H2 as [Hin Hr]. split; [|exact Hr].
    right. rewrite !elem_of_app. tauto. }
  pose proof (funcs_find target (TypeFuncs v)) as H3.
  destruct (first_found _ (TypeFuncs v)) as [r|].
  { destruct H3 as [Hin Hr]. split; [|exact Hr].
    right. rewrite !elem_of_app. tauto. }
  pose proof (funcs_find target (TypeMethods v)) as H4.
  destruct (first_found _ (TypeMethods v)) as [r|].
  { destruct H4 as [Hin Hr]. split; [|exact Hr].
    right. rewrite !elem_of_app. tauto. }
  intros y [->|Hy]%elem_of_cons; [exact E|].
  rewrite !elem_of_app in Hy.
  destruct Hy as [?|[?|[?|?]]]; [apply H1|apply H2|apply H3|apply H4];
    assumption.
Qed.

Lemma findPackage_finds target :
  finds Position_of target (findPackage Position_of target) package_items.
Proof.
  intros v. unfold findPackage, package_items.
  pose proof (values_find target (PkgConsts v)) as H1.
  destruct (first_found _ (PkgConsts v)) as [r|].
  { destruct H1 as [Hin Hr]. split; [|exact Hr].
    apply elem_of_app. now left. }
  pose proof (first_found_finds target _ _ (findType_finds target)
                (PkgTypes v)) as H2.
  destruct (first_found _ (PkgTypes v)) as [r|].
  { destruct H2 as [Hin Hr]. split; [|exact Hr].
    rewrite !elem_of_app. tauto. }
  pose proof (values_find target (PkgVars v)) as H3.
  destruct (first_found _ (PkgVars v)) as [r|].
  { destruct H3 as [Hin Hr]. split; [|exact Hr].
    rewrite !elem_of_app. tauto. }
  pose proof (funcs_find target (PkgFuncs v)) as H4.
  destruct (first_found _ (PkgFuncs v)) as [r|].
  { destruct H4 as [Hin Hr]. split; [|exact Hr].
    rewrite !elem_of_app. tauto. }
  intros y Hy. rewrite !elem_of_app in Hy.
  destruct Hy as [?|[?|[?|?]]]; [apply H1|apply H2|apply H3|apply H4];
    assumption.
Qed.

(** X22: on a documented package [findDocTarget] returns an item of the
    package (a value, a type, a function, or a value, function or method of
    a type) whose declaration encloses the target position, and it returns
    nil exactly when no item of the package does; a type whose declaration
    encloses the target is returned rather than any of its members. *)
Theorem findDocTarget_finds_enclosing_item (target : TokenPosition)
    (v : DocPackage) :
  (forall r, findDocTarget Position_of target (InPackage v) = Some (Some r) ->
     r ∈ package_items v
     /\ decl_inRange Position_of target (item_Decl r) = true)
  /\ (findDocTarget Position_of target (InPackage v) = Some None <->
      forall y, y ∈ package_items v ->
                decl_inRange Position_of target (item_Decl y) = false)
  /\ (forall t, decl_inRange Position_of target (TypeDecl t) = true ->
        findDocTarget Position_of target (InType t) = Some (Some (ItemType t))).
Proof.
  pose proof (findPackage_finds target v) as Hf. simpl.
  split; [|split].
  - intros r [= Hr]. now rewrite Hr in Hf.
  - split.
    + intros [= Hr]. now rewrite Hr in Hf.
    + intros Hall. destruct (findPackage Position_of target v) as [r|];
        [|reflexivity].
      destruct Hf as [Hin Hr]. rewrite (Hall r Hin) in Hr. discriminate.
  - intros t Ht. unfold findType. now rewrite Ht.
Qed.

Lemma ltb_ordering : transitive_ordering Z.ltb.
Proof.
  split; [|split].
  - intros a. apply Z.ltb_irrefl.
  - intros a b c Hab%Z.ltb_lt Hbc%Z.ltb_lt. apply Z.ltb_lt. lia.
  - intros a b c Hab%Z.ltb_ge Hbc%Z.ltb_ge. apply Z.ltb_ge. lia.
Qed.

Lemma abs_distance t o :
  0 <= t < 2 ^ 62 -> 0 <= o < 2 ^ 62 -> abs (wrap (t - o)) = Z.abs (t - o).
Proof.
  intros Ht Ho.
  assert (Hw : forall z, - 2 ^ 63 <= z < 2 ^ 63 -> wrap z = z).
  { intros z Hz. unfold wrap. rewrite Z.mod_small by lia. lia. }
  rewrite Hw by lia. unfold abs.
  destruct (t - o <? 0) eqn:E.
  - apply Z.ltb_lt in E. rewrite Hw by lia. lia.
  - apply Z.ltb_ge in E. lia.
Qed.

(** X23: [byDistance.Less] is an ordering [sort.Sort] can work with, so
    the spec [fmtDocObject] picks after sorting is one of the specs and no
    other spec lies nearer to the target (offsets being those of a file,
    below [2^62]); without any spec the indexing panics. *)
Theorem nearest_spec_is_nearest `{!SortContract} (target : TokenPosition)
    (specs : list Z) :
  0 <= Offset target < 2 ^ 62 ->
  (forall s, s ∈ specs -> 0 <= Offset (Position_of s) < 2 ^ 62) ->
  transitive_ordering (byDistance_Less Position_of target)
  /\ (specs = [] -> nearest_spec Position_of target specs = None)
  /\ (specs <> [] ->
      exists first,
        nearest_spec Position_of target specs = Some first
        /\ first ∈ specs
        /\ forall s, s ∈ specs ->
             Z.abs (Offset target - Offset (Position_of first))
             <= Z.abs (Offset target - Offset (Position_of s))).
Proof.
  intros Ht Hs.
  assert (Hord : transitive_ordering (byDistance_Less Position_of target)).
  { apply (ordering_by_key
             (fun s => abs (wrap (Offset target - Offset (Position_of s))))
             Z.ltb ltb_ordering). }
  split; [exact Hord|]. unfold nearest_spec.
  pose proof (sort_Sort_perm Z (byDistance_Less Position_of target) specs)
    as Hperm.
  pose proof (sort_Sort_sorted Z (byDistance_Less Position_of target) specs
                Hord) as Hsorted.
  destruct (sort_Sort Z (byDistance_Less Position_of target) specs)
    as [|first rest].
  - split; [reflexivity|]. intros Hne. symmetry in Hperm.
    now apply Permutation_nil_r in Hperm.
  - split.
    { intros ->. now apply Permutation_nil_r in Hperm. }
    intros _. exists first. split; [reflexivity|].
    assert (Hfirst : first ∈ specs) by (rewrite <- Hperm; left).
    split; [exact Hfirst|].
    intros s Hs'. assert (Hin : s ∈ first :: rest) by (now rewrite Hperm).
    apply elem_of_cons in Hin. destruct Hin as [->|Hin]; [lia|].
    apply StronglySorted_inv in Hsorted. destruct Hsorted as [_ Hall].
    apply (proj1 (Forall_forall _ _) Hall) in Hin.
    unfold byDistance_Less in Hin. apply Z.ltb_ge in Hin.
    rewrite !abs_distance in Hin by (try apply Hs; assumption). exact Hin.
Qed.

End WithCollaborators.
End DocTargetProps.

(** ** Tokens and scores *)

Module TokenMatchProps.
Import GoStrings Symbol SymbolSearch SymbolFilters TokenMatch.
Section WithCollaborators.
Context `{Collaborators}.

Lemma score_token_no_match s last tok scor :
  token_matches s tok = false ->
  score_token (ToLower (sym_Name s)) (ToLower (sym_Container s))
    (util_UriToPath (sym_URI s)) last tok scor = scor.
Proof.
  unfold token_matches, score_token. intros Hm.
  repeat (apply orb_false_elim in Hm; destruct Hm as [Hm ?]).
  repeat match goal with Hb : _ = false |- _ => rewrite Hb; clear Hb end.
  reflexivity.
Qed.

Lemma score_tokens_no_match s toks : forall scor,
  existsb (token_matches s) toks = false ->
  score_tokens (ToLower (sym_Name s)) (ToLower (sym_Container s))
    (util_UriToPath (sym_URI s)) toks scor = scor.
Proof.
  induction toks as [|tok toks IH]; intros scor; simpl; [reflexivity|].
  intros [Ht Hr]%orb_false_elim.
  rewrite score_token_no_match by exact Ht. now apply IH.
Qed.

Lemma score_needs_match q s :
  Tokens q <> [] -> 0 < score q s ->
  exists tok, tok ∈ Tokens q /\ token_matches s tok = true.
Proof.
  intros Hne Hpos.
  destruct (existsb (token_matches s) (Tokens q)) eqn:E.
  { apply existsb_exists in E. destruct E as (tok & Hin & Hm).
    exists tok. split; [now apply list_elem_of_In | exact Hm]. }
  exfalso. unfold score in Hpos.
  destruct (negb (Z.eqb (QKind q) 0)
            && negb (Z.eqb (QKind q) (Kind (info s)))); [lia|].
  destruct (match Symbol q with
            | Some sym => negb (desc_Contains (desc s) sym)
            | None => false
            end); [lia|].
  destruct (negb (util_IsURI (sym_URI s))); [lia|].
  destruct (negb (String.eqb (File q) EmptyString)
            && negb (String.eqb (util_UriToPath (sym_URI s)) (File q)));
    [lia|].
  destruct (Tokens q) as [|tok toks] eqn:Et; [easy|].
  rewrite (score_tokens_no_match s (tok :: toks) 0 E) in Hpos.
  simpl in Hpos. lia.
Qed.

(** X24: when the query has tokens, every symbol the symbol search returns
    matches at least one of them: the lower-cased token is a prefix of the
    symbol's lower-cased name or container name or equals one of them, or,
    for a token of three bytes or more, it occurs in the file name or is a
    prefix of its base name.  A symbol that matches no token is never
    returned. *)
Theorem symbol_results_match_a_token `{!SortContract} ctx h (q : Query)
    (limit : Z) :
  Tokens q <> [] ->
  exists ranked err,
    handleSymbol ctx h q limit = Returned (Results ranked) err
    /\ Forall (fun s => exists tok,
                 tok ∈ Tokens q /\ token_matches (pair_of s) tok = true)
         ranked.
Proof.
  intros Hne.
  destruct (SymbolSearchMore.handleSymbol_from ctx h q limit)
    as (ranked & err & Hr & Hall).
  exists ranked, err. split; [exact Hr|].
  eapply Forall_impl; [exact Hall|].
  intros s (_ & _ & _ & _ & Hs & Hpos).
  apply (score_needs_match q); [exact Hne | now rewrite <- Hs].
Qed.

End WithCollaborators.
End TokenMatchProps.

(** ** The declaration among the references *)

Module DeclarationProps.
Import References.
Section WithCollaborators.
Context `{Collaborators}.

(** X25: the declaration is appended after the uses and the limit cuts
    the list before anything else is done, so a positive limit that the
    uses alone reach drops the declaration: the result is the same as
    without it. *)
Theorem declaration_cut_off_by_limit (fset : nat) (refs : list Ident)
    (decl : Ident) (limit : Z) :
  0 < limit <= Z.of_nat (length refs) ->
  refStreamAndCollect fset (refs ++ [decl]) limit
  = refStreamAndCollect fset refs limit.
Proof.
  intros [Hpos Hle]. unfold refStreamAndCollect.
  rewrite (proj2 (Z.eqb_neq limit 0)) by lia.
  rewrite length_app. simpl.
  rewrite (proj2 (Z.ltb_lt limit (Z.of_nat (length refs + 1)))) by lia.
  assert (Hl : (if limit <? Z.of_nat (length refs) then limit
                else Z.of_nat (length refs)) = limit).
  { destruct (limit <? Z.of_nat (length refs)) eqn:E; [reflexivity|].
    apply Z.ltb_ge in E. lia. }
  rewrite Hl. now rewrite take_app_le by lia.
Qed.

End WithCollaborators.
End DeclarationProps.

(** ** The position of a declared name *)

Module DeclNameProps.
Import Collector.

Lemma declNamePos_names_first names name :
  name ∈ IdentName <$> names ->
  exists before id after,
    names = before ++ id :: after
    /\ IdentName id = name
    /\ Forall (fun x => IdentName x <> name) before
    /\ declNamePos_names names name = Some (NamePos id).
Proof.
  induction names as [|x names IH]; [now intros ?%elem_of_nil|].
  simpl. destruct (String.eqb (IdentName x) name) eqn:E.
  - apply String.eqb_eq in E. intros _. exists [], x, names.
    split; [reflexivity|]. split; [exact E|]. split; [constructor|reflexivity].
  - apply String.eqb_neq in E.
    intros [Hx|Hin]%elem_of_cons; [congruence|].
    destruct (IH Hin) as (before & id & after & -> & Hid & Hb & Hp).
    exists (x :: before), id, after.
    split; [reflexivity|]. split; [exact Hid|].
    split; [now constructor | exact Hp].
Qed.

Lemma declNamePos_names_none names name :
  name ∉ IdentName <$> names ->
  declNamePos_names names name = None
  /\ Forall (fun x => IdentName x <> name) names.
Proof.
  induction names as [|x names IH]; simpl; [now split|].
  intros Hn. apply not_elem_of_cons in Hn. destruct Hn as [Hx Hn].
  destruct (IH Hn) as [Hp Hall].
  destruct (String.eqb (IdentName x) name) eqn:E.
  - apply String.eqb_eq in E. congruence.
  - split; [exact Hp|]. apply String.eqb_neq in E. now constructor.
Qed.

Lemma specNames_idents specs : forall names,
  specNames specs = Some names -> names = IdentName <$> spec_idents specs.
Proof.
  induction specs as [|spec specs IH]; intros names; simpl.
  { now intros [= <-]. }
  destruct spec as [ids| |]; try discriminate.
  destruct (specNames specs) as [more|]; [|discriminate].
  intros [= <-]. unfold spec_idents. simpl. fold (spec_idents specs).
  now rewrite fmap_app, (IH more eq_refl).
Qed.

(** X26: for a name that [specNames] lists, [declNamePos] returns the
    position of the first identifier of that name in the declaration; it
    never falls back to the position of the keyword.  So declared names
    that repeat, as [_] may, are all located at the first of them. *)
Theorem declNamePos_finds_first_declared (specs : list Spec) (tokPos : Z)
    (names : list string) (name : string) :
  specNames specs = Some names ->
  name ∈ names ->
  names = IdentName <$> spec_idents specs
  /\ exists before id after,
       spec_idents specs = before ++ id :: after
       /\ IdentName id = name
       /\ Forall (fun x => IdentName x <> name) before
       /\ declNamePos specs tokPos name = NamePos id.
Proof.
  intros Hs Hin. split; [now apply specNames_idents|].
  revert names Hs Hin.
  induction specs as [|spec specs IH]; intros names; simpl.
  { intros [= <-] Hin. now apply elem_of_nil in Hin. }
  destruct spec as [ids| |]; try discriminate.
  destruct (specNames specs) as [more|] eqn:Es; [|discriminate].
  intros [= <-] Hin. unfold spec_idents. simpl. fold (spec_idents specs).
  destruct (decide (name ∈ IdentName <$> ids)) as [Hhere|Hnot].
  - destruct (declNamePos_names_first ids name Hhere)
      as (before & id & after & -> & Hid & Hb & Hp).
    rewrite Hp. exists before, id, (after ++ spec_idents specs).
    rewrite <- app_assoc. now repeat split.
  - destruct (declNamePos_names_none ids name Hnot) as [Hp Hall].
    rewrite Hp. apply elem_of_app in Hin. destruct Hin as [Hin|Hin]; [easy|].
    destruct (IH more eq_refl Hin) as (before & id & after & E & Hid & Hb & Hd).
    exists (ids ++ before), id, after. rewrite E, <- app_assoc.
    split; [reflexivity|]. split; [exact Hid|].
    split; [now apply Forall_app | exact Hd].
Qed.

End DeclNameProps.

(** ** Cancelling a symbol search *)

Module SymbolCancelProps.
Import Symbol SymbolSearch.
Section WithCollaborators.
Context `{Collaborators}.

Lemma handleSymbol_f_live n q limit i pkg results :
  (i < n)%nat ->
  exists results',
    handleSymbol_f (Some n) q limit i pkg results = Returned results' None.
Proof.
  intros Hi. unfold handleSymbol_f, ctx_Err.
  rewrite (proj2 (Nat.leb_gt n i)) by lia.
  destruct (_ && _); [eauto|]. destruct (_ && _); [eauto|].
  destruct (limit <=? _); eauto.
Qed.

Lemma Search_handleSymbol_cancelled n q limit pkgs : forall i results,
  (i <= n)%nat -> (n < i + length pkgs)%nat ->
  exists results',
    Search_from (handleSymbol_f (Some n) q limit) i pkgs results
    = Returned results' (Some ContextCanceled).
Proof.
  induction pkgs as [|pkg pkgs IH]; intros i results Hle Hlt; simpl in *;
    [lia|].
  destruct (decide (i = n)) as [->|Hne].
  - unfold handleSymbol_f at 1, ctx_Err. rewrite Nat.leb_refl. eauto.
  - destruct (handleSymbol_f_live n q limit i pkg results) as [r ->]; [lia|].
    apply IH; lia.
Qed.

(** X27: when the request context is cancelled before the walk has polled
    every cached package, the symbol search returns the context's error
    and no symbols: what was collected before the cancellation is dropped,
    not returned as a partial result. *)
Theorem symbol_search_cancelled_midway h (q : Query) (limit : Z) (n : nat) :
  (n < length (project h))%nat ->
  handleSymbol (Some n) h q limit = Returned [] (Some ContextCanceled).
Proof.
  intros Hn. unfold handleSymbol, Search.
  destruct (Search_handleSymbol_cancelled n q limit (project h) 0%nat [])
    as [r ->]; [lia | lia | reflexivity].
Qed.

End WithCollaborators.
End SymbolCancelProps.

(** ** Filling the package cache *)

Module SetCacheProps.
Import SetCache.

Lemma ids_lookup heap a node :
  heap !! a = Some node -> pn_ID node ∈ ids heap.
Proof.
  intros Hl. unfold ids. apply elem_of_list_to_set, list_elem_of_fmap.
  exists (a, node). split; [reflexivity|]. now apply elem_of_map_to_list.
Qed.

Lemma each_None f pkgs : each f pkgs None = None.
Proof. induction pkgs as [|p pkgs IH]; [reflexivity | exact IH]. Qed.

Lemma each_cons f p pkgs st :
  each f (p :: pkgs) (Some st) = each f pkgs (f p st).
Proof. reflexivity. Qed.

(** A loop keeps what each of its calls keeps. *)
Lemma each_keeps (P : State -> State -> Prop) f pkgs :
  (forall st, P st st) ->
  (forall a b c, P a b -> P b c -> P a c) ->
  (forall p st st', p ∈ pkgs -> f p st = Some st' -> P st st') ->
  forall st st', each f pkgs (Some st) = Some st' -> P st st'.
Proof.
  intros Hrefl Htrans. induction pkgs as [|p pkgs IH]; intros Hf st st'.
  - now intros [= <-].
  - rewrite each_cons. destruct (f p st) as [st1|] eqn:E.
    + intros Hrest. apply (Htrans st st1 st').
      * apply (Hf p); [left | exact E].
      * apply IH; [|exact Hrest]. intros q s s' Hq. apply Hf. now right.
    + now rewrite each_None.
Qed.

Lemma setOnePackage_grows heap n : forall pkg st st',
  setOnePackage n heap pkg st = Some st' -> fst st ⊆ fst st'.
Proof.
  induction n as [|n IH]; intros pkg st st'; [discriminate|]. simpl.
  destruct pkg as [a|]; [|now intros [= <-]].
  destruct (heap !! a) as [node|]; [|now intros [= <-]].
  destruct (Nat.eqb (pn_Syntax node) 0); [now intros [= <-]|].
  destruct (bool_decide (pn_ID node ∈ fst st)); [now intros [= <-]|].
  intros Hloop.
  apply (each_keeps (fun a b => fst a ⊆ fst b)) in Hloop.
  - simpl in Hloop. set_solver.
  - reflexivity.
  - intros x y z. set_solver.
  - intros p s s' _. apply IH.
Qed.

(** A package with syntax has its ID in [seen] after the call. *)
Lemma setOnePackage_sees heap n a node st st' :
  setOnePackage n heap (Some a) st = Some st' ->
  heap !! a = Some node -> pn_Syntax node <> 0%nat ->
  pn_ID node ∈ fst st'.
Proof.
  destruct n as [|n]; [discriminate|]. simpl. intros E Hl Hsyn.
  rewrite Hl in E. apply Nat.eqb_neq in Hsyn. rewrite Hsyn in E.
  destruct (bool_decide (pn_ID node ∈ fst st)) eqn:Hs.
  - apply bool_decide_eq_true in Hs. now injection E as <-.
  - apply (each_keeps (fun a b => fst a ⊆ fst b)) in E.
    + simpl in E. set_solver.
    + reflexivity.
    + intros x y z. set_solver.
    + intros p s s' _. apply setOnePackage_grows.
Qed.

(** Every call returns when the bound exceeds the number of IDs of the
    heap that are not yet seen. *)
Lemma setOnePackage_returns heap n : forall pkg st,
  (size (ids heap ∖ fst st) < n)%nat ->
  exists st', setOnePackage n heap pkg st = Some st'.
Proof.
  induction n as [|n IH]; intros pkg st Hn; [lia|]. simpl.
  destruct pkg as [a|]; [|eauto].
  destruct (heap !! a) as [node|] eqn:Hl; [|eauto].
  destruct (Nat.eqb (pn_Syntax node) 0); [eauto|].
  destruct (bool_decide (pn_ID node ∈ fst st)) eqn:Hs; [eauto|].
  apply bool_decide_eq_false in Hs.
  assert (Hsmall : (size (ids heap ∖ ({[ pn_ID node ]} ∪ fst st)) < n)%nat).
  { pose proof (ids_lookup heap a node Hl) as Hid.
    assert (Hsub : ids heap ∖ ({[ pn_ID node ]} ∪ fst st)
                   ⊂ ids heap ∖ fst st).
    { split; [set_solver|]. intros Hc.
      assert (Hin : pn_ID node ∈ ids heap ∖ fst st) by set_solver.
      apply Hc in Hin. set_solver. }
    apply subset_size in Hsub. lia. }
  generalize (snd st ++ [a]). intros puts.
  assert (Hloop : forall imports st1,
            {[ pn_ID node ]} ∪ fst st ⊆ fst st1 ->
            exists st', each (setOnePackage n heap) imports (Some st1)
                        = Some st').
  { induction imports as [|ip imports IHi]; intros st1 Hsub; [simpl; eauto|].
    rewrite each_cons.
    destruct (IH ip st1) as (st2 & E).
    { assert (Hle : ids heap ∖ fst st1
                    ⊆ ids heap ∖ ({[ pn_ID node ]} ∪ fst st))
        by set_solver.
      apply subseteq_size in Hle. lia. }
    rewrite E. apply IHi.
    apply setOnePackage_grows in E. set_solver. }
  now apply Hloop.
Qed.

Lemma setOnePackage_ok heap roots n : forall pkg st st',
  (forall a, pkg = Some a -> reach heap roots a) ->
  cached_ok heap roots st ->
  setOnePackage n heap pkg st = Some st' ->
  cached_ok heap roots st'.
Proof.
  induction n as [|n IH]; intros pkg st st' Hr Hok; [discriminate|]. simpl.
  destruct pkg as [a|]; [|now intros [= <-]].
  destruct (heap !! a) as [node|] eqn:Hl; [|now intros [= <-]].
  destruct (Nat.eqb (pn_Syntax node) 0) eqn:Hsyn; [now intros [= <-]|].
  apply Nat.eqb_neq in Hsyn.
  destruct (bool_decide (pn_ID node ∈ fst st)) eqn:Hs; [now intros [= <-]|].
  apply bool_decide_eq_false in Hs.
  assert (Ha : reach heap roots a) by now apply Hr.
  assert (Hid : id_of heap a = pn_ID node) by (unfold id_of; now rewrite Hl).
  assert (Hok1 : cached_ok heap roots
                   ({[ pn_ID node ]} ∪ fst st, snd st ++ [a])).
  { destruct Hok as (Hseen & Hnd & Hall). split; [|split]; simpl.
    - rewrite fmap_app, list_to_set_app_L, <- Hseen. simpl. rewrite Hid.
      set_solver.
    - rewrite fmap_app. apply NoDup_app. split; [exact Hnd|]. split.
      + intros x Hx Hx'. apply list_elem_of_singleton in Hx'. subst x.
        apply Hs. rewrite Hseen, <- Hid. now apply elem_of_list_to_set.
      + apply NoDup_singleton.
    - apply Forall_app. split; [exact Hall|].
      constructor; [|constructor]. exists node. now repeat split. }
  assert (Himp : forall b, Some b ∈ pn_Imports node -> reach heap roots b).
  { intros b Hb. now apply (reach_import heap roots a node b). }
  revert Hok1 Himp. generalize ({[ pn_ID node ]} ∪ fst st, snd st ++ [a]).
  induction (pn_Imports node) as [|ip imports IHi]; intros st1 Hok1 Himp.
  - now intros [= <-].
  - rewrite each_cons.
    destruct (setOnePackage n heap ip st1) as [st2|] eqn:E;
      [|now rewrite each_None].
    apply IHi.
    + apply (IH ip st1 st2); [|exact Hok1 | exact E].
      intros b ->. apply Himp. left.
    + intros b Hb. apply Himp. now right.
Qed.

(** X28: [setCache] returns on every heap of packages, also when imports
    form a cycle (the calls never nest deeper than the heap has IDs); no
    ID is put into the cache twice; every package put has syntax and is one
    of the packages given or is imported, directly or through others, by
    packages with syntax; and the ID of every package given that has
    syntax is in the cache afterwards. *)
Theorem setCache_puts_each_id_once (heap : Heap) (pkgs : list (option nat))
    (n : nat) :
  (size (ids heap) < n)%nat ->
  exists seen puts,
    setCache n heap pkgs = Some (seen, puts)
    /\ NoDup (id_of heap <$> puts)
    /\ seen = list_to_set (id_of heap <$> puts)
    /\ Forall (fun a => exists node,
                 heap !! a = Some node /\ pn_Syntax node <> 0%nat
                 /\ reach heap pkgs a) puts
    /\ (forall a node, Some a ∈ pkgs -> heap !! a = Some node ->
          pn_Syntax node <> 0%nat -> pn_ID node ∈ seen).
Proof.
  intros Hn. unfold setCache.
  assert (Hgen : forall roots st,
            (forall p, p ∈ roots -> p ∈ pkgs) ->
            cached_ok heap pkgs st ->
            exists st',
              each (setOnePackage n heap) roots (Some st) = Some st'
              /\ cached_ok heap pkgs st'
              /\ fst st ⊆ fst st'
              /\ (forall a node, Some a ∈ roots -> heap !! a = Some node ->
                    pn_Syntax node <> 0%nat -> pn_ID node ∈ fst st')).
  { induction roots as [|p roots IHr]; intros st Hsub Hok.
    { exists st. split; [reflexivity|]. split; [exact Hok|].
      split; [reflexivity|]. intros a node Ha. now apply elem_of_nil in Ha. }
    rewrite each_cons.
    destruct (setOnePackage_returns heap n p st) as (st1 & E).
    { assert (Hle : ids heap ∖ fst st ⊆ ids heap) by set_solver.
      apply subseteq_size in Hle. lia. }
    rewrite E.
    assert (Hok1 : cached_ok heap pkgs st1).
    { apply (setOnePackage_ok heap pkgs n p st st1); [|exact Hok | exact E].
      intros a ->. apply reach_root, Hsub. left. }
    pose proof (setOnePackage_grows heap n p st st1 E) as H1.
    destruct (IHr st1) as (st' & -> & Hok' & H2 & Hroots);
      [intros q Hq; apply Hsub; now right | exact Hok1 |].
    exists st'. split; [reflexivity|]. split; [exact Hok'|].
    split; [set_solver|].
    intros a node [Ha|Ha]%elem_of_cons Hl Hsyn.
    - subst p. apply H2.
      now apply (setOnePackage_sees heap n a node st st1).
    - now apply (Hroots a node). }
  destruct (Hgen pkgs ((∅, []) : State))
    as (st' & E & (Hseen & Hnd & Hall) & _ & Hr).
  - easy.
  - split; [reflexivity|]. split; constructor.
  - destruct st' as [seen puts]. exists seen, puts. simpl in *.
    split; [exact E|]. split; [exact Hnd|]. split; [exact Hseen|].
    split; [exact Hall | exact Hr].
Qed.

End SetCacheProps.

(** ** The further statements on the sample workspace *)

Module MoreSampleProps.
Import GoStrings Symbol SymbolSearch Sample MoreSamples SampleProps.

(** [sameObj] is not transitive through a package name: a package name
    matches a variable of its own name and package, and another package
    name for the same import, but those two do not match. *)
Example sameObj_not_transitive_through_import :
  let imported := {| tp_addr := 7; tp_path := "example/x" |} in
  let x := {| obj_addr := 20; obj_kind := KPkgName imported;
              obj_pkg := Some typesA; obj_name := "y"; obj_pos := 1;
              obj_type := None |} in
  let y := {| obj_addr := 21; obj_kind := KPkgName imported;
              obj_pkg := Some typesA; obj_name := "X"; obj_pos := 2;
              obj_type := None |} in
  @References.sameObj collaborators x y = true
  /\ @References.sameObj collaborators y objX = true
  /\ @References.sameObj collaborators x objX = false.
Proof. repeat split. Qed.

Lemma sameObj_transitive_through_non_import_witness :
  @References.sameObj collaborators objX objX_test = true
  /\ @References.sameObj collaborators objX_test objX_third = true
  /\ @References.sameObj collaborators objX objX_third = true.
Proof.
  split; [reflexivity|]. split; [reflexivity|].
  apply (@ReferencesMore.sameObj_transitive_through_non_import collaborators
           objX objX_test objX_third).
  - intros E. vm_compute in E. discriminate E.
  - intros E. vm_compute in E. discriminate E.
  - intros i E. discriminate E.
  - reflexivity.
  - reflexivity.
Defined.

Lemma findReferences_cancelled_midway_witness :
  (1 < length (project handler))%nat
  /\ @References.findReferences collaborators (Some 1%nat) handler objX
     = Returned [] (Some ContextCanceled).
Proof.
  split; [simpl; lia|].
  apply (@ReferencesMore.findReferences_cancelled_midway collaborators
           handler objX 1%nat).
  simpl. lia.
Defined.

Lemma references_collected_sound_and_complete_witness :
  @References.formatLocation collaborators (location 30 "X")
  ∈ @References.formatLocation collaborators
      <$> @References.refStreamAndCollect collaborators 0 sample_refs 0
  /\ @References.refStreamAndCollect collaborators 0 sample_refs (-1) = [].
Proof.
  destruct (@ReferencesMore.references_collected_sound_and_complete
              collaborators 0%nat sample_refs 0) as (_ & Hc & _).
  destruct (@ReferencesMore.references_collected_sound_and_complete
              collaborators 0%nat sample_refs (-1)) as (_ & _ & Hn).
  split.
  - apply (Hc eq_refl (ident 30 "X")).
    + apply list_elem_of_In. simpl. tauto.
    + discriminate.
  - apply Hn. lia.
Defined.

Lemma implements_concrete_from_buckets_witness :
  Implementation.to
    (@Implementation.classify collaborators (TNamed 2) [1; 2; 100; 101]%nat)
  = []
  /\ TNamed 100
     ∈ Implementation.fromPtr
         (@Implementation.classify collaborators (TNamed 2)
            [1; 2; 100; 101]%nat)
  /\ TNamed 100
     ∉ Implementation.from
         (@Implementation.classify collaborators (TNamed 2)
            [1; 2; 100; 101]%nat).
Proof.
  destruct (@ImplementationMore.implements_concrete_from_buckets collaborators
              (TNamed 2) [1; 2; 100; 101]%nat) as (Hc & _).
  destruct (Hc eq_refl) as (Hto & _ & Hptr & Hdisj).
  assert (Hin : TNamed 100
                ∈ Implementation.fromPtr
                    (@Implementation.classify collaborators (TNamed 2)
                       [1; 2; 100; 101]%nat)).
  { apply Hptr. exists 100%nat. split; [reflexivity|].
    split; [apply list_elem_of_In; simpl; tauto|].
    split; [reflexivity|]. split; [discriminate|]. split; reflexivity. }
  split; [exact Hto|]. split; [exact Hin|].
  intros Hfrom. exact (Hdisj _ Hfrom Hin).
Defined.

Lemma implements_result_layout_witness :
  exists tos froms fromPtrs,
    @Implementation.implements_from collaborators pkgA (TNamed 100) None
      [1; 2; 100; 101]%nat = tos ++ froms ++ fromPtrs
    /\ Forall (fun l => Implementation.IType l = "to"
                        /\ Implementation.IPtr l = false) tos
    /\ Forall (fun l => Implementation.IType l = "from"
                        /\ Implementation.IPtr l = false) froms
    /\ Forall (fun l => Implementation.IType l = "from"
                        /\ Implementation.IPtr l = true) fromPtrs.
Proof.
  destruct (@ImplementationMore.implements_result_layout collaborators
              sample_sort_contract pkgA (TNamed 100) None
              [1; 2; 100; 101]%nat)
    as (tos & froms & fromPtrs & H1 & H2 & H3 & H4 & _).
  exists tos, froms, fromPtrs. split; [exact H1|].
  split; [exact H2|]. split; [exact H3 | exact H4].
Defined.

Lemma symbol_results_pass_query_witness :
  exists ranked err,
    @handleSymbol collaborators None handler (ParseQuery "func serve") 50
    = Returned (Results ranked) err
    /\ Forall (fun si => Kind si = SKFunction
                         /\ @util_IsURI collaborators (URI (SymLocation si))
                            = true) (Results ranked).
Proof.
  destruct (@SymbolSearchMore.symbol_results_pass_query collaborators
              sample_sort_contract None handler (ParseQuery "func serve") 50)
    as (ranked & err & Hr & _ & Hall).
  exists ranked, err. split; [exact Hr|].
  eapply Forall_impl; [exact Hall|].
  intros si (Hk & Hu & _). split; [|exact Hu].
  apply Hk. discriminate.
Defined.

Lemma symbol_results_from_searched_packages_witness :
  Filter (ParseQuery "dir:example/a serve") = FilterDir
  /\ exists ranked err,
       @handleSymbol collaborators None handler
         (ParseQuery "dir:example/a serve") 50
       = Returned (Results ranked) err
       /\ Forall (fun s =>
                    exists pkg, pkg ∈ project handler
                      /\ pair_of s ∈ @astPkgToSymbols collaborators pkg
                      /\ @util_PathEqual collaborators (GetPkgPath pkg)
                           "example/a" = true) ranked.
Proof.
  split; [reflexivity|].
  destruct (@SymbolSearchMore.symbol_results_from_searched_packages
              collaborators sample_sort_contract None handler
              (ParseQuery "dir:example/a serve") 50)
    as (ranked & err & Hr & Hall).
  exists ranked, err. split; [exact Hr|].
  eapply Forall_impl; [exact Hall|].
  intros s (pkg & Hp & Hs & Hd & _). exists pkg.
  split; [exact Hp|]. split; [exact Hs|]. apply Hd. reflexivity.
Defined.

Lemma Less_ties_agree_on_all_keys_witness :
  @Less (scored 3 SKFunction) (scored 3 SKMethod) = false
  /\ @Less (scored 3 SKMethod) (scored 3 SKFunction) = false
  /\ Name (info (pair_of (scored 3 SKFunction)))
     = Name (info (pair_of (scored 3 SKMethod)))
  /\ (@Less (scored 5 SKFunction) (scored 3 SKFunction) = true
      /\ @Less (scored 3 SKFunction) (scored 5 SKFunction) = false).
Proof.
  destruct (@SymbolSearchMore.Less_ties_agree_on_all_keys
              (scored 3 SKFunction) (scored 3 SKMethod)) as (_ & Htie).
  destruct (@SymbolSearchMore.Less_ties_agree_on_all_keys
              (scored 5 SKFunction) (scored 3 SKFunction)) as (Has & _).
  split; [reflexivity|]. split; [reflexivity|].
  split; [apply (Htie eq_refl eq_refl)|].
  split; [reflexivity | apply Has; reflexivity].
Defined.

Lemma pretty_struct_one_field_per_line_witness :
  HoverStruct.plain "struct" = true
  /\ Hover.prettyPrintTypesString
       (HoverStruct.flat_struct "struct" ["a int"; "b string"])
     = "struct" +:+ " {"
       +:+ HoverStruct.field_lines ["a int"; "b string"]
       +:+ String "010" "}".
Proof.
  split; [reflexivity|].
  apply (HoverMore.pretty_struct_one_field_per_line "struct"
           ["a int"; "b string"]).
  - reflexivity.
  - discriminate.
  - repeat constructor; discriminate.
Defined.

Lemma definition_requests_return_at_most_one_witness :
  exists locs,
    @XDefinition.handleDefinition collaborators (docParams 0 5)
    = Returned locs None
    /\ (length locs <= 1)%nat.
Proof.
  destruct (@DefinitionMore.definition_requests_return_at_most_one
              collaborators (docParams 0 5)) as (_ & _ & Hdef & _).
  exists [location 5 "X"].
  split; [reflexivity|].
  apply (Hdef [location 5 "X"] None). reflexivity.
Defined.

Lemma rebuild_at_least_every_21_changes_witness :
  Forall (Rebuild.counted ToURI) (replicate 21 go_event)
  /\ true ∈ snd (Rebuild.updates ToURI rebuildCaches fresh_project
                   (replicate 21 go_event)).
Proof.
  assert (Hall : Forall (Rebuild.counted ToURI) (replicate 21 go_event)).
  { apply Forall_replicate. repeat split. apply not_elem_of_empty. }
  split; [exact Hall|].
  destruct (RebuildProps.rebuild_at_least_every_21_changes ToURI rebuildCaches
              fresh_project (replicate 21 go_event)) as [_ Hr].
  - reflexivity.
  - simpl. lia.
  - apply Hr; [exact Hall|]. simpl. lia.
Defined.

Lemma rebuild_decision_witness :
  Rebuild.update ToURI rebuildCaches fresh_project gomod_event
  = ({| Rebuild.changedCount := 0; Rebuild.lastBuildTime := 2000000000 |},
     true)
  /\ snd (Rebuild.update ToURI rebuildCaches fresh_project go_event) = false.
Proof.
  destruct (RebuildProps.rebuild_decision ToURI rebuildCaches fresh_project
              gomod_event) as (Hmod & _); [reflexivity | simpl; lia|].
  split; [apply Hmod; reflexivity | reflexivity].
Defined.

Lemma sample_walk :
  @Collector.astPkgToSymbols_walk collaborators path_Clean pkgA sample_syntax
  = Some sample_syms.
Proof. vm_compute. reflexivity. Qed.

(** The method, the field and its struct, the variable [debug] and the
    constant [_] are collected; the variable [_] is not. *)
Example sample_syms_names :
  (fun s => (Name (info s), ContainerName (info s), Kind (info s)))
    <$> sample_syms
  = [("Serve", "*Server", SKMethod); ("Addr", "Server", SKField);
     ("Server", EmptyString, SKClass); ("debug", EmptyString, SKVariable);
     ("_", EmptyString, SKConstant)].
Proof. vm_compute. reflexivity. Qed.

Lemma collected_symbols_shape_witness :
  @Collector.astPkgToSymbols_walk collaborators path_Clean pkgA sample_syntax
  = Some sample_syms
  /\ Forall (@Collector.collected collaborators path_Clean pkgA) sample_syms.
Proof.
  split; [exact sample_walk|].
  apply (@CollectorProps.collected_symbols_shape collaborators path_Clean
           pkgA sample_syntax sample_syms sample_walk).
Defined.

Lemma pointer_receiver_methods_not_exported_witness :
  (forall t, @ast_IsExported collaborators ("*" +:+ t) = false)
  /\ exists s, s ∈ sample_syms
       /\ Name (info s) = "Serve"
       /\ ContainerName (info s) = "*Server"
       /\ @isExported collaborators s = false.
Proof.
  split; [intros t; reflexivity|].
  destruct (@CollectorProps.pointer_receiver_methods_not_exported
              collaborators path_Clean pkgA sample_syntax sample_syms
              (hd [] sample_syntax) (Collector.EIdent "Server")
              (ident 50 "Serve"))
    as (s & Hs & Hn & _ & Hc & He).
  - intros t. reflexivity.
  - exact sample_walk.
  - left.
  - left.
  - exists s. split; [exact Hs|]. split; [exact Hn|].
    split; [exact Hc | exact He].
Defined.




(** Without the keyword the same search finds the method, the struct and
    its field. *)
Example sample_walk_search :
  match @handleSymbol collaborators_walk None handler (ParseQuery "serve") 50
  with
  | Returned l None => (fun s => (Name s, ContainerName s)) <$> l
  | _ => []
  end
  = [("Serve", "*Server"); ("Server", EmptyString); ("Addr", "Server")].
Proof. vm_compute. reflexivity. Qed.

Lemma serve_method_collected :
  @Collector.collected collaborators path_Clean pkgA serve_method.
Proof.
  pose proof (@CollectorProps.astPkgToSymbols_walk_collected collaborators
                path_Clean pkgA sample_syntax sample_syms sample_walk) as Hall.
  apply (proj1 (Forall_forall _ _) Hall). left.
Qed.

Lemma symbol_id_is_a_dir_hint_witness :
  ID (desc serve_method) = "example/a/-/*Server/Serve"
  /\ exists q,
       @workspace_query collaborators handler idParams = Some q
       /\ Filter q = FilterDir
       /\ Dir q = "example/a".
Proof.
  split; [reflexivity|].
  apply (@SymbolIdProps.symbol_id_is_a_dir_hint collaborators path_Clean
           handler idParams pkgA serve_method
           {[ "id" := VString (ID (desc serve_method)) ]}).
  - exact serve_method_collected.
  - reflexivity.
  - reflexivity.
  - apply lookup_singleton_eq.
Defined.

Lemma findDocTarget_finds_enclosing_item_witness :
  @DocTarget.findDocTarget collaborators Position_of (Position_of 35)
    (DocTarget.InPackage doc_package)
  = Some (Some (DocTarget.ItemFunc {| DocTarget.FuncDecl := decl 30 40 |}))
  /\ @DocTarget.decl_inRange collaborators Position_of (Position_of 35)
       (decl 30 40) = true
  /\ @DocTarget.findDocTarget collaborators Position_of (Position_of 45)
       (DocTarget.InPackage doc_package) = Some None.
Proof.
  destruct (@DocTargetProps.findDocTarget_finds_enclosing_item collaborators
              Position_of (Position_of 35) doc_package) as (Hs & _ & _).
  destruct (@DocTargetProps.findDocTarget_finds_enclosing_item collaborators
              Position_of (Position_of 45) doc_package) as (_ & Hc & _).
  split; [reflexivity|]. split.
  - apply (Hs (DocTarget.ItemFunc {| DocTarget.FuncDecl := decl 30 40 |})).
    reflexivity.
  - apply Hc. intros y Hy. unfold DocTarget.package_items in Hy. simpl in Hy.
    repeat (apply elem_of_cons in Hy; destruct Hy as [->|Hy];
            [reflexivity|]).
    now apply elem_of_nil in Hy.
Defined.

Lemma nearest_spec_is_nearest_witness :
  exists first,
    @DocTarget.nearest_spec collaborators Position_of (Position_of 15)
      [30; 14; 10] = Some first
    /\ first ∈ [30; 14; 10]
    /\ forall s, s ∈ [30; 14; 10] ->
         Z.abs (15 - DocTarget.Offset (Position_of first))
         <= Z.abs (15 - DocTarget.Offset (Position_of s)).
Proof.
  destruct (@DocTargetProps.nearest_spec_is_nearest collaborators Position_of
              sample_sort_contract (Position_of 15) [30; 14; 10])
    as (_ & _ & Hn).
  - simpl. lia.
  - intros s Hs. simpl.
    repeat (apply elem_of_cons in Hs; destruct Hs as [->|Hs]; [lia|]).
    now apply elem_of_nil in Hs.
  - apply Hn. discriminate.
Defined.

Example sample_nearest_spec :
  @DocTarget.nearest_spec collaborators Position_of (Position_of 15)
    [30; 14; 10] = Some 14.
Proof. vm_compute. reflexivity. Qed.

Lemma symbol_results_match_a_token_witness :
  Tokens (ParseQuery "serve") <> []
  /\ exists ranked err,
       @handleSymbol collaborators None handler (ParseQuery "serve") 50
       = Returned (Results ranked) err
       /\ Forall (fun s => exists tok,
                    tok ∈ Tokens (ParseQuery "serve")
                    /\ @TokenMatch.token_matches collaborators (pair_of s) tok
                       = true) ranked.
Proof.
  split; [discriminate|].
  apply (@TokenMatchProps.symbol_results_match_a_token collaborators
           sample_sort_contract None handler (ParseQuery "serve") 50).
  discriminate.
Defined.

Lemma declaration_cut_off_by_limit_witness :
  0 < 2 <= Z.of_nat (length sample_refs)
  /\ @References.refStreamAndCollect collaborators 0
       (sample_refs ++ [ident 5 "X"]) 2
     = @References.refStreamAndCollect collaborators 0 sample_refs 2.
Proof.
  split; [simpl; lia|].
  apply (@DeclarationProps.declaration_cut_off_by_limit collaborators 0%nat
           sample_refs (ident 5 "X") 2).
  simpl. lia.
Defined.

Lemma declNamePos_finds_first_declared_witness :
  Collector.specNames
    [Collector.ValueSpec [ident 71 "_"; ident 72 "debug"];
     Collector.ValueSpec [ident 75 "_"]]
  = Some ["_"; "debug"; "_"]
  /\ Collector.declNamePos
       [Collector.ValueSpec [ident 71 "_"; ident 72 "debug"];
        Collector.ValueSpec [ident 75 "_"]] 70 "_" = 71
  /\ exists before id after,
       Collector.spec_idents
         [Collector.ValueSpec [ident 71 "_"; ident 72 "debug"];
          Collector.ValueSpec [ident 75 "_"]]
       = before ++ id :: after
       /\ IdentName id = "debug"
       /\ Forall (fun x => IdentName x <> "debug") before
       /\ Collector.declNamePos
            [Collector.ValueSpec [ident 71 "_"; ident 72 "debug"];
             Collector.ValueSpec [ident 75 "_"]] 70 "debug"
          = NamePos id.
Proof.
  split; [reflexivity|]. split; [reflexivity|].
  apply (DeclNameProps.declNamePos_finds_first_declared
           [Collector.ValueSpec [ident 71 "_"; ident 72 "debug"];
            Collector.ValueSpec [ident 75 "_"]] 70 ["_"; "debug"; "_"]
           "debug").
  - reflexivity.
  - apply list_elem_of_In. simpl. tauto.
Defined.

Lemma symbol_search_cancelled_midway_witness :
  (2 < length (project handler))%nat
  /\ @handleSymbol collaborators (Some 2%nat) handler (ParseQuery "serve") 50
     = Returned [] (Some ContextCanceled).
Proof.
  split; [simpl; lia|].
  apply (@SymbolCancelProps.symbol_search_cancelled_midway collaborators
           handler (ParseQuery "serve") 50 2%nat).
  simpl. lia.
Defined.

Example sample_setCache :
  snd <$> SetCache.setCache 4 sample_heap [Some 1%nat; Some 4%nat; None]
  = Some [1%nat; 2%nat].
Proof. vm_compute. reflexivity. Qed.

Lemma setCache_puts_each_id_once_witness :
  (size (SetCache.ids sample_heap) < 4)%nat
  /\ exists seen puts,
       SetCache.setCache 4 sample_heap [Some 1%nat; Some 4%nat; None]
       = Some (seen, puts)
       /\ NoDup (SetCache.id_of sample_heap <$> puts)
       /\ "a" ∈ seen.
Proof.
  assert (Hn : (size (SetCache.ids sample_heap) < 4)%nat)
    by (vm_compute; lia).
  split; [exact Hn|].
  destruct (SetCacheProps.setCache_puts_each_id_once sample_heap
              [Some 1%nat; Some 4%nat; None] 4 Hn)
    as (seen & puts & E & Hnd & _ & _ & Hroots).
  exists seen, puts. split; [exact E|]. split; [exact Hnd|].
  apply (Hroots 1%nat {| SetCache.pn_ID := "a"; SetCache.pn_Syntax := 1;
                         SetCache.pn_Imports := [Some 2%nat] |}).
  - left.
  - reflexivity.
  - discriminate.
Defined.

End MoreSampleProps.
